(** * TranscriptionTool: image text-region detection and enhancement

    A shallow embedding of the pixel pipeline of the repository:
    - [Preprocessor] follows the [ImagePreprocessor] class of [src/App.tsx]
      ([binarize], [calculateOtsuThreshold], [analyzeImage], and the filters
      [removeNoise], [enhanceContrast], [removeBackground], [sharpen] with
      the steps of [preprocessImage] that apply them);
    - [Detector] follows the [SmartTextDetector] class of
      [src/unnamed/part_001] (the three block scanners, [mergeNearbyRegions],
      [binarizeForText], [calculateAdaptiveThreshold], [detectAndExtractText],
      and the filters of [enhanceTextRegion] and
      [createGlobalEnhancedImage]);
    - [Language] follows the language detection functions at the end of
      [src/unnamed/part_001] ([detectLanguageFromText]).

    Conventions of the embedding.
    - A JavaScript [number] that is always an integer in the code (pixel
      coordinates, array indices, histogram counts, channel values) is a [Z]:
      such integers stay far below 2^53, where doubles are exact.
    - These are IEEE 754 doubles ([Double], on the [SpecFloat] of the
      Standard Library, which rounds every operation to nearest, ties to
      even, as JavaScript does): the luma of a pixel, the means and the
      between-class variance of Otsu's method, and the statistics of
      [analyzeImage].
    - Every other [number] is an exact rational [Qc]: the entries that the
      contrast filter stores, the mean of the channels in [binarizeForText],
      the scores and ratios of the scanners (the color variance among them)
      and the confidences.
    - [ImageData.data] (a [Uint8ClampedArray]) is a [list Z]; a write outside
      the array is ignored, as for typed arrays (and stdpp's list insert).
      A read outside the array is [undefined] in JavaScript; the embedding
      reads [0] there, and the statements below only speak about images
      whose reads are in range ([wf_image], or an explicit index bound).
      [calculateOtsuThreshold] says what a histogram of fewer than 256
      entries gives.
    - A [for] loop is a left fold over the list of the values its counter
      takes. *)

From Stdlib Require Import SpecFloat.
From stdpp Require Import strings.
From Stdlib Require Import ZArith QArith Qcanon Qround Lia Lqa.
From stdpp Require Import base decidable list gmap numbers.
From stdpp Require sorting.

Open Scope Z_scope.

(** ** JavaScript numbers *)

Module Num.

(** An integer as a [number]. *)
Definition ofZ (n : Z) : Qc := Q2Qc (inject_Z n).

(** A decimal literal such as [0.299], written [dec 299 1000]. *)
Definition dec (n d : Z) : Qc := (ofZ n / ofZ d)%Qc.

Definition ltb (a b : Qc) : bool := bool_decide (a < b)%Qc.
Definition gtb (a b : Qc) : bool := bool_decide (b < a)%Qc.

(** [Math.round]: the nearest integer, halves going up. *)
Definition round (a : Qc) : Z := Qfloor (a + dec 1 2)%Qc.

(** [Math.max] and [Math.min] on rationals. *)
Definition max (a b : Qc) : Qc := if ltb a b then b else a.
Definition min (a b : Qc) : Qc := if ltb b a then b else a.

(** [Math.abs]. *)
Definition abs (a : Qc) : Qc := if ltb a 0 then (- a)%Qc else a.

(** The counter values of [for (let v = start; v < limit; v += step)],
    for a positive [step]: at most [limit - start] of them. *)
Fixpoint range_from (fuel : nat) (v limit step : Z) : list Z :=
  match fuel with
  | O => []
  | S fuel' =>
      if v <? limit then v :: range_from fuel' (v + step) limit step else []
  end.

Definition range (start limit step : Z) : list Z :=
  range_from (Z.to_nat (limit - start)) start limit step.

End Num.

(** ** Doubles

    IEEE 754 binary64, as the Standard Library specifies it: 53 bits of
    precision, every operation rounded to nearest, ties to even. *)

Module Double.

Definition t : Type := spec_float.

Definition zero : t := S754_zero false.

(** An integer as a double (exact below 2^53). *)
Definition ofZ (n : Z) : t := binary_normalize 53 1024 n 0 false.

Definition add : t → t → t := SFadd 53 1024.
Definition sub : t → t → t := SFsub 53 1024.
Definition mul : t → t → t := SFmul 53 1024.
Definition div : t → t → t := SFdiv 53 1024.
Definition abs : t → t := SFabs.

(** [a < b], [a <= b] and [a > b]; all are false when one side is NaN. *)
Definition ltb : t → t → bool := SFltb.
Definition leb : t → t → bool := SFleb.
Definition gtb (a b : t) : bool := SFltb b a.

(** A decimal literal such as [0.299], written [dec 299 1000]: the double
    nearest to it, which is what dividing the two integers gives. *)
Definition dec (n d : Z) : t := div (ofZ n) (ofZ d).

(** A rational as a double. *)
Definition ofQc (q : Qc) : t := div (ofZ (Qnum q)) (ofZ (Zpos (Qden q))).

(** [Math.round] of a double, as an integer: the floor of the exact sum of
    the double and one half.  The value [0] for an infinity or NaN is a
    convention: sums of bytes are finite. *)
Definition round (x : t) : Z :=
  match x with
  | S754_finite s m e =>
      let n := if s then Zneg m else Zpos m in
      if 0 <=? e then n * 2 ^ e
      else (2 * n + 2 ^ (- e)) / 2 ^ (- e + 1)
  | _ => 0
  end.

End Double.

(** ** Pixel buffers *)

Record ImageData := mkImage {
  width : Z;
  height : Z;
  data : list Z
}.

(** [data[idx]]. *)
Definition get (d : list Z) (idx : Z) : Z :=
  if idx <? 0 then 0 else nth (Z.to_nat idx) d 0.

(** [data[idx] = v] on a typed array. *)
Definition store (d : list Z) (idx : Z) (v : Z) : list Z :=
  if idx <? 0 then d else <[Z.to_nat idx := v]> d.

Definition len (d : list Z) : Z := Z.of_nat (length d).

(** What the browser guarantees of an [ImageData]. *)
Definition wf_image (img : ImageData) : Prop :=
  0 < width img ∧ 0 < height img ∧
  len (data img) = 4 * width img * height img ∧
  Forall (λ v, 0 ≤ v ≤ 255) (data img).

(** ** Writing numbers to a [Uint8ClampedArray] *)

(** The entry kept for a number that is not an integer: the number is
    clamped to [0, 255] and rounded to the nearest integer, to the even one
    when two are equally near. *)
Definition toUint8Clamp (v : Qc) : Z :=
  if Num.ltb 0 v then
    if Num.ltb v (Num.ofZ 255) then
      let f := Qfloor v in
      if Num.ltb (Num.ofZ f + Num.dec 1 2) v then f + 1
      else if Num.ltb v (Num.ofZ f + Num.dec 1 2) then f
      else if Z.even f then f else f + 1
    else 255
  else 0.

(** The entry kept for an integer: the integer clamped to [0, 255]. *)
Definition clampByte (v : Z) : Z := Z.max 0 (Z.min 255 v).

(** One turn of a loop that rewrites each color entry from its own value:
    [data[i] = f(data[i]); data[i + 1] = f(data[i + 1]);
     data[i + 2] = f(data[i + 2])]. *)
Definition mapChannels (f : Z → Z) (d : list Z) (i : Z) : list Z :=
  let d := store d i (f (get d i)) in
  let d := store d (i + 1) (f (get d (i + 1))) in
  store d (i + 2) (f (get d (i + 2))).

(** ** The 3 x 3 filters *)

(** The loops [for y in 1 .. height - 2], [for x in 1 .. width - 2],
    [for c in 0 .. 2] of the 3 x 3 filters: they read [data] and write
    [entry x y c] to the entry of channel [c] at [(x, y)] of a copy
    [newData], which the returned image holds. *)
Definition rewriteInner (entry : Z → Z → Z → Z) (imageData : ImageData)
    : ImageData :=
  let w := width imageData in
  let h := height imageData in
  let newData :=
    foldl (λ newData y,
             foldl (λ newData x,
                      foldl (λ newData c,
                               store newData ((y * w + x) * 4 + c)
                                     (entry x y c))
                            newData (Num.range 0 3 1))
                   newData (Num.range 1 (w - 1) 1))
          (data imageData) (Num.range 1 (h - 1) 1) in
  mkImage w h newData.

(** The loops [for dy in -1 .. 1], [for dx in -1 .. 1] that collect the
    nine entries of channel [c] around [(x, y)]. *)
Definition neighborhood (d : list Z) (w x y c : Z) : list Z :=
  foldl (λ neighbors dy,
           foldl (λ neighbors dx,
                    neighbors ++ [get d (((y + dy) * w + (x + dx)) * 4 + c)])
                 neighbors (Num.range (-1) 2 1))
        [] (Num.range (-1) 2 1).

(** The loops [for ky in -1 .. 1], [for kx in -1 .. 1] that add up
    [data[idx] * kernel[kernelIdx]]. *)
Definition kernelSum (kernel d : list Z) (w x y c : Z) : Z :=
  foldl (λ sum ky,
           foldl (λ sum kx,
                    let idx := ((y + ky) * w + (x + kx)) * 4 + c in
                    let kernelIdx := (ky + 1) * 3 + (kx + 1) in
                    sum + get d idx * get kernel kernelIdx)
                 sum (Num.range (-1) 2 1))
        0 (Num.range (-1) 2 1).

(** [newData[idx] = Math.min(255, Math.max(0, sum))] of the two sharpening
    filters, for the kernel of each. *)
Definition sharpenWith (kernel : list Z) (imageData : ImageData) : ImageData :=
  rewriteInner (λ x y c,
                  Z.min 255 (Z.max 0 (kernelSum kernel (data imageData)
                                                (width imageData) x y c)))
               imageData.

(** ** Whitening a pixel *)

(** [data[i] = 255; data[i + 1] = 255; data[i + 2] = 255]. *)
Definition whiten (d : list Z) (i : Z) : list Z :=
  store (store (store d i 255) (i + 1) 255) (i + 2) 255.

(** ** The most common color

    [getMostCommonColor] has the same text in both classes.  Its
    [colorMap] is kept in insertion order: the count of a key that is there
    goes up, a new key goes to the end with count 1.  The key of a quantized
    color is the string of its three channels, so that two quantized colors
    have one key when they are equal.  [mostCommon] starts as [white] with
    count 0 and is replaced by each entry of a larger count. *)

Fixpoint countKey {K : Type} `{EqDecision K} (q : K) (colorMap : list (K * Z))
    : list (K * Z) :=
  match colorMap with
  | [] => [(q, 1)]
  | (k, count) :: rest =>
      if decide (k = q) then (k, count + 1) :: rest
      else (k, count) :: countKey q rest
  end.

Definition mostCommonOf {K : Type} `{EqDecision K} (quantize : K → K)
    (white : K) (colors : list K) : K :=
  let colorMap :=
    foldl (λ colorMap color, countKey (quantize color) colorMap) [] colors in
  let mostCommon :=
    foldl (λ mostCommon entry,
             if mostCommon.2 <? entry.2 then entry else mostCommon)
          (white, 0) colorMap in
  mostCommon.1.

(** [Math.round(v / 16) * 16]. *)
Definition quantize16 (v : Z) : Z :=
  Num.round (Num.ofZ v / Num.ofZ 16)%Qc * 16.

(** ** Text regions *)

(** [TextRegion] of [part_001]; the fields [x], [y], [width], [height] are
    pixel coordinates ([rx], [ry], [rwidth], [rheight] here). *)
Record TextRegion := mkRegion {
  rx : Z;
  ry : Z;
  rwidth : Z;
  rheight : Z;
  confidence : Qc
}.

(** ** The preprocessor ([src/App.tsx]) *)

Module PreprocessingOptions.
Record t := mk {
  enhanceContrast : bool;
  removeNoise : bool;
  binarize : bool;
  deskew : bool;
  scaleUp : bool;
  sharpen : bool;
  removeBackground : bool
}.
End PreprocessingOptions.

Module Preprocessor.

(** [histogram[gray]++]. *)
Definition incr (histogram : list Z) (gray : Z) : list Z :=
  store histogram gray (get histogram gray + 1).

(** [Math.round(0.299 * data[i] + 0.587 * data[i + 1] + 0.114 * data[i + 2])]. *)
Definition luma (d : list Z) (i : Z) : Z :=
  Double.round
    (Double.add
       (Double.add
          (Double.mul (Double.dec 299 1000) (Double.ofZ (get d i)))
          (Double.mul (Double.dec 587 1000) (Double.ofZ (get d (i + 1)))))
       (Double.mul (Double.dec 114 1000) (Double.ofZ (get d (i + 2))))).

(** *** [calculateOtsuThreshold] (lines 357-390) *)

(** The first loop: [sum += i * histogram[i]]. *)
Definition weightedSum (histogram : list Z) : Z :=
  foldl (λ sum i, sum + i * get histogram i) 0 (Num.range 0 256 1).

(** The second loop over the levels still to visit, from the state
    [sumB], [wB], [varMax], [threshold]; [continue] goes on with the next
    level, [break] returns.  The sums and the weights are integers
    ([totalPixels] is [data.length / 4], and [wF] with it, a multiple of a
    quarter) and are kept exact; the two means and [varBetween] are
    doubles. *)
Fixpoint otsuLoop (histogram : list Z) (sum : Z) (totalPixels : Qc)
    (levels : list Z) (sumB wB : Z) (varMax : Double.t) (threshold : Z)
    : Z :=
  match levels with
  | [] => threshold
  | i :: rest =>
      let wB := wB + get histogram i in
      if wB =? 0 then
        otsuLoop histogram sum totalPixels rest sumB wB varMax threshold
      else
        let wF := (totalPixels - Num.ofZ wB)%Qc in
        if decide (wF = 0%Qc) then threshold
        else
          let sumB := sumB + i * get histogram i in
          let mB := Double.div (Double.ofZ sumB) (Double.ofZ wB) in
          let mF := Double.div (Double.ofZ (sum - sumB)) (Double.ofQc wF) in
          let varBetween :=
            Double.mul
              (Double.mul (Double.mul (Double.ofZ wB) (Double.ofQc wF))
                          (Double.sub mB mF))
              (Double.sub mB mF) in
          if Double.gtb varBetween varMax then
            otsuLoop histogram sum totalPixels rest sumB wB varBetween i
          else
            otsuLoop histogram sum totalPixels rest sumB wB varMax threshold
  end.

(** Both callers pass an array of 256 counts.  With fewer, [sum] is NaN
    after the first loop (it has added [i * undefined]), every
    [varBetween] is NaN with it, no test [varBetween > varMax] succeeds and
    the threshold stays [0]. *)
Definition calculateOtsuThreshold (histogram : list Z) (totalPixels : Qc)
    : Z :=
  if len histogram <? 256 then 0
  else otsuLoop histogram (weightedSum histogram) totalPixels
                (Num.range 0 256 1) 0 0 Double.zero 0.

(** *** [binarize] (lines 330-355) *)

(** The offsets [i] of [for (let i = 0; i < data.length; i += 4)]. *)
Definition pixelOffsets (d : list Z) : list Z := Num.range 0 (len d) 4.

(** [data.length / 4]. *)
Definition pixelCount (d : list Z) : Qc := (Num.ofZ (len d) / Num.ofZ 4)%Qc.

(** The loop under "Convert to grayscale and calculate histogram". *)
Definition buildHistogram (d : list Z) : list Z :=
  foldl (λ histogram i, incr histogram (luma d i))
        (replicate 256 0) (pixelOffsets d).

(** The loop under "Apply threshold"; the alpha entry [i + 3] is not
    written. *)
Definition applyThreshold (threshold : Z) (d : list Z) : list Z :=
  foldl (λ d i,
           let gray := luma d i in
           let binary := if threshold <? gray then 255 else 0 in
           store (store (store d i binary) (i + 1) binary) (i + 2) binary)
        d (pixelOffsets d).

Definition binarize (imageData : ImageData) : ImageData :=
  let d := data imageData in
  let histogram := buildHistogram d in
  let threshold := calculateOtsuThreshold histogram (pixelCount d) in
  mkImage (width imageData) (height imageData) (applyThreshold threshold d).

(** *** [analyzeImage] (lines 519-558) *)

(** [(data[i] + data[i + 1] + data[i + 2]) / 3]. *)
Definition brightness (d : list Z) (i : Z) : Double.t :=
  Double.div (Double.ofZ (get d i + get d (i + 1) + get d (i + 2)))
             (Double.ofZ 3).

(** [diff] of the pixel at offset [i]. *)
Definition verticalDiff (w : Z) (d : list Z) (i : Z) : Double.t :=
  let prevBrightness := brightness d (i - w * 4) in
  let nextBrightness := brightness d (i + w * 4) in
  Double.add (Double.abs (Double.sub (brightness d i) prevBrightness))
             (Double.abs (Double.sub (brightness d i) nextBrightness)).

(** The guard [i > width * 4 && i < data.length - width * 4]. *)
Definition hasVerticalNeighbours (w : Z) (d : list Z) (i : Z) : bool :=
  (w * 4 <? i) && (i <? len d - w * 4).

(** One turn of the statistics loop; the state is [totalBrightness],
    [contrastSum], [edgePixels]. *)
Definition statsStep (w : Z) (d : list Z) (st : Double.t * Double.t * Z)
    (i : Z) : Double.t * Double.t * Z :=
  let '(totalBrightness, contrastSum, edgePixels) := st in
  let totalBrightness := Double.add totalBrightness (brightness d i) in
  if hasVerticalNeighbours w d i then
    let diff := verticalDiff w d i in
    (totalBrightness, Double.add contrastSum diff,
     if Double.gtb diff (Double.ofZ 30) then edgePixels + 1 else edgePixels)
  else (totalBrightness, contrastSum, edgePixels).

Definition imageStats (imageData : ImageData) : Double.t * Double.t * Z :=
  foldl (statsStep (width imageData) (data imageData))
        (Double.zero, Double.zero, 0)
        (pixelOffsets (data imageData)).

Definition analyzeImage (imageData : ImageData) : PreprocessingOptions.t :=
  let '(totalBrightness, contrastSum, edgePixels) := imageStats imageData in
  let n := Double.div (Double.ofZ (len (data imageData))) (Double.ofZ 4) in
  let avgBrightness := Double.div totalBrightness n in
  let avgContrast := Double.div contrastSum n in
  let edgeRatio := Double.div (Double.ofZ edgePixels) n in
  {| PreprocessingOptions.enhanceContrast :=
       Double.ltb avgContrast (Double.ofZ 50);
     PreprocessingOptions.removeNoise :=
       Double.gtb edgeRatio (Double.dec 1 10);
     PreprocessingOptions.binarize := true;
     PreprocessingOptions.deskew := false;
     PreprocessingOptions.scaleUp :=
       (width imageData <? 800) || (height imageData <? 600);
     PreprocessingOptions.sharpen := Double.ltb avgContrast (Double.ofZ 30);
     PreprocessingOptions.removeBackground :=
       Double.gtb avgBrightness (Double.ofZ 200)
       || Double.ltb avgBrightness (Double.ofZ 50) |}.

(** *** [enhanceContrast] (lines 285-297) *)

(** [Math.min(255, Math.max(0, (v - 128) * factor + 128))], as kept by the
    array. *)
Definition contrastEntry (factor : Qc) (v : Z) : Z :=
  toUint8Clamp
    (Num.min (Num.ofZ 255)
       (Num.max 0 ((Num.ofZ v - Num.ofZ 128) * factor + Num.ofZ 128)))%Qc.

Definition enhanceContrast (imageData : ImageData) : ImageData :=
  let factor := Num.dec 15 10 in
  mkImage (width imageData) (height imageData)
    (foldl (mapChannels (contrastEntry factor)) (data imageData)
           (pixelOffsets (data imageData))).

(** *** [removeNoise] (lines 299-328) *)

(** [neighbors.sort((a, b) => a - b)] and
    [neighbors[Math.floor(neighbors.length / 2)]]. *)
Definition median (neighbors : list Z) : Z :=
  get (sorting.merge_sort Z.le neighbors) (Z.of_nat (length neighbors) / 2).

Definition removeNoise (imageData : ImageData) : ImageData :=
  rewriteInner (λ x y c,
                  median (neighborhood (data imageData) (width imageData)
                                       x y c))
               imageData.

(** *** [sharpen] (lines 479-510) and [deskew] (lines 512-516) *)

Definition sharpen (imageData : ImageData) : ImageData :=
  sharpenWith [0; -1; 0; -1; 5; -1; 0; -1; 0] imageData.

Definition deskew (imageData : ImageData) : ImageData := imageData.

(** *** [removeBackground] (lines 392-477) *)

Record Color := mkColor { r : Z; g : Z; b : Z }.

#[export] Instance Color_eq_dec : EqDecision Color.
Proof. solve_decision. Defined.

(** [{r: data[idx], g: data[idx + 1], b: data[idx + 2]}]. *)
Definition colorAt (d : list Z) (idx : Z) : Color :=
  {| r := get d idx; g := get d (idx + 1); b := get d (idx + 2) |}.

(** [sampleArea]: the colors of the [w] x [h] pixels from [(x, y)] on whose
    index is below [data.length].  For an image less than [w] wide or [h]
    high the index can be negative: the three channels read there are
    [undefined], and the sample is [None]. *)
Definition sampleArea (d : list Z) (width x y w h : Z)
    : list (option Color) :=
  foldl (λ samples dy,
           foldl (λ samples dx,
                    let idx := ((y + dy) * width + (x + dx)) * 4 in
                    if idx <? len d
                    then samples
                         ++ [if idx <? 0 then None else Some (colorAt d idx)]
                    else samples)
                 samples (Num.range 0 w 1))
        [] (Num.range 0 h 1).

Definition quantizeColor (color : Color) : Color :=
  {| r := quantize16 (r color);
     g := quantize16 (g color);
     b := quantize16 (b color) |}.

Definition white : Color := {| r := 255; g := 255; b := 255 |}.

(** [getMostCommonColor] (lines 449-477); the channels of a sample that is
    [None] quantize to [NaN], and its key is that of no other color. *)
Definition getMostCommonColor (colors : list (option Color)) : option Color :=
  mostCommonOf (fmap quantizeColor) (Some white) colors.

(** The argument of [Math.sqrt] in the distance of the pixel at [i] from
    [bgColor]. *)
Definition distanceSquared (d : list Z) (i : Z) (bgColor : Color) : Z :=
  (get d i - r bgColor) ^ 2 + (get d (i + 1) - g bgColor) ^ 2
  + (get d (i + 2) - b bgColor) ^ 2.

(** The samples of the four corners, and the color found most often among
    them. *)
Definition cornerSamples (imageData : ImageData) : list (option Color) :=
  let width := width imageData in
  let height := height imageData in
  let d := data imageData in
  sampleArea d width 0 0 10 10
  ++ sampleArea d width (width - 10) 0 10 10
  ++ sampleArea d width 0 (height - 10) 10 10
  ++ sampleArea d width (width - 10) (height - 10) 10 10.

Definition backgroundColor (imageData : ImageData) : option Color :=
  getMostCommonColor (cornerSamples imageData).

(** [Math.sqrt(s) < 30] on an integer [s] is [s < 900]; the distance from a
    color of channels [NaN] is [NaN], which is below nothing. *)
Definition removeBackground (imageData : ImageData) : ImageData :=
  let d := data imageData in
  let bgColor := backgroundColor imageData in
  mkImage (width imageData) (height imageData)
    (foldl (λ d i,
              match bgColor with
              | Some bgColor =>
                  if distanceSquared d i bgColor <? 900 then whiten d i else d
              | None => d
              end)
           d (pixelOffsets d)).

(** *** [preprocessImage] (lines 174-236) *)

(** The steps between reading the pixels from the canvas and putting them
    back.  [scaleUp] (lines 259-283) draws on a canvas of its own and is a
    parameter. *)
Definition preprocessImage (scaleUp : ImageData → Z → ImageData)
    (imageData : ImageData) (options : PreprocessingOptions.t) : ImageData :=
  let imageData :=
    if PreprocessingOptions.scaleUp options then scaleUp imageData 2
    else imageData in
  let imageData :=
    if PreprocessingOptions.removeNoise options then removeNoise imageData
    else imageData in
  let imageData :=
    if PreprocessingOptions.enhanceContrast options
    then enhanceContrast imageData else imageData in
  let imageData :=
    if PreprocessingOptions.removeBackground options
    then removeBackground imageData else imageData in
  let imageData :=
    if PreprocessingOptions.binarize options then binarize imageData
    else imageData in
  let imageData :=
    if PreprocessingOptions.sharpen options then sharpen imageData
    else imageData in
  if PreprocessingOptions.deskew options then deskew imageData
  else imageData.

(** [getDefaultOptions] (lines 247-257). *)
Definition getDefaultOptions : PreprocessingOptions.t :=
  {| PreprocessingOptions.enhanceContrast := true;
     PreprocessingOptions.removeNoise := true;
     PreprocessingOptions.binarize := true;
     PreprocessingOptions.deskew := false;
     PreprocessingOptions.scaleUp := true;
     PreprocessingOptions.sharpen := true;
     PreprocessingOptions.removeBackground := true |}.

End Preprocessor.

(** ** The text detector ([src/unnamed/part_001]) *)

Module Detector.

(** *** [mergeNearbyRegions] (lines 345-387) *)

(** [Math.sqrt(dx^2 + dy^2) < 50] on integer coordinates: the square root
    of a non-negative integer is below 50 exactly when the integer is
    below 2500. *)
Definition near (cur other : TextRegion) : bool :=
  (rx cur - rx other) ^ 2 + (ry cur - ry other) ^ 2 <? 2500.

(** The body of [if (distance < 50)]: the bounding box of both. *)
Definition expand (cur other : TextRegion) : TextRegion :=
  let minX := Z.min (rx cur) (rx other) in
  let minY := Z.min (ry cur) (ry other) in
  let maxX := Z.max (rx cur + rwidth cur) (rx other + rwidth other) in
  let maxY := Z.max (ry cur + rheight cur) (ry other + rheight other) in
  {| rx := minX; ry := minY;
     rwidth := maxX - minX; rheight := maxY - minY;
     confidence := Num.max (confidence cur) (confidence other) |}.

(** One turn of the inner loop [for (let j = i + 1; ...)]; the state is
    [currentRegion] and the set [used]. *)
Definition absorb (regions : list TextRegion)
    (st : TextRegion * gset nat) (j : nat) : TextRegion * gset nat :=
  let '(cur, used) := st in
  if decide (j ∈ used) then st
  else match regions !! j with
       | Some other =>
           if near cur other then (expand cur other, {[j]} ∪ used) else st
       | None => st
       end.

(** One turn of the outer loop [for (let i = 0; ...)]; the state is
    [merged] and [used]. *)
Definition anchor (regions : list TextRegion)
    (st : list TextRegion * gset nat) (i : nat)
    : list TextRegion * gset nat :=
  let '(merged, used) := st in
  if decide (i ∈ used) then st
  else match regions !! i with
       | Some r =>
           let '(cur, used') :=
             foldl (absorb regions) (r, {[i]} ∪ used)
                   (seq (S i) (length regions - S i)) in
           (merged ++ [cur], used')
       | None => st
       end.

(** [region.width > 20 && region.height > 10]. *)
Definition bigEnough (r : TextRegion) : bool :=
  (20 <? rwidth r) && (10 <? rheight r).

Definition mergeNearbyRegions (regions : list TextRegion)
    : list TextRegion :=
  let merged :=
    (foldl (anchor regions) ([], ∅) (seq 0 (length regions))).1 in
  List.filter bigEnough merged.

(** [mergeOverlappingRegions] (lines 389-392) only calls the above. *)
Definition mergeOverlappingRegions (regions : list TextRegion)
    : list TextRegion :=
  mergeNearbyRegions regions.

(** *** The block loops shared by the three scanners

    [for (let y = 0; y < height - blockSize; y += blockSize)]
    [for (let x = 0; x < width - blockSize; x += blockSize)], pushing the
    block at [(x, y)] when [candidate x y] says so. *)
Definition scanBlocks (imageData : ImageData) (blockSize : Z)
    (candidate : Z → Z → option TextRegion) : list TextRegion :=
  foldl (λ regions y,
           foldl (λ regions x,
                    match candidate x y with
                    | Some r => regions ++ [r]
                    | None => regions
                    end)
                 regions (Num.range 0 (width imageData - blockSize) blockSize))
        [] (Num.range 0 (height imageData - blockSize) blockSize).

(** The pairs [(dy, dx)] of
    [for (let dy = 0; dy < size; dy++) for (let dx = 0; dx < size; dx++)]. *)
Definition blockOffsets (size : Z) : list (Z * Z) :=
  dy ← Num.range 0 size 1; dx ← Num.range 0 size 1; [(dy, dx)].

(** [(data[idx] + data[idx + 1] + data[idx + 2]) / 3]. *)
Definition grayAt (d : list Z) (idx : Z) : Qc :=
  (Num.ofZ (get d idx + get d (idx + 1) + get d (idx + 2)) / Num.ofZ 3)%Qc.

(** *** The stroke scanner (lines 150-174 and 263-288) *)

(** The counting loops of [calculateStrokeScore]; the state is
    [strokeLikePixels] and [totalPixels]. *)
Definition strokeCounts (imageData : ImageData) (x y size : Z) : Z * Z :=
  foldl (λ '(strokeLikePixels, totalPixels) '(dy, dx),
           let idx := ((y + dy) * width imageData + (x + dx)) * 4 in
           if idx <? len (data imageData) then
             ((if Num.ltb (grayAt (data imageData) idx) (Num.ofZ 128)
               then strokeLikePixels + 1 else strokeLikePixels),
              totalPixels + 1)
           else (strokeLikePixels, totalPixels))
        (0, 0) (blockOffsets size).

(** [strokeLikePixels / totalPixels]. *)
Definition darkRatio (imageData : ImageData) (x y size : Z) : Qc :=
  let '(strokeLikePixels, totalPixels) := strokeCounts imageData x y size in
  (Num.ofZ strokeLikePixels / Num.ofZ totalPixels)%Qc.

Definition calculateStrokeScore (imageData : ImageData) (x y size : Z)
    : Qc :=
  let darkRatio := darkRatio imageData x y size in
  if Num.gtb darkRatio (Num.dec 1 10) && Num.ltb darkRatio (Num.dec 4 10)
  then darkRatio else 0%Qc.

Definition detectTextByStroke (imageData : ImageData) : list TextRegion :=
  let blockSize := 25 in
  scanBlocks imageData blockSize (λ x y,
    let strokeScore := calculateStrokeScore imageData x y blockSize in
    if Num.gtb strokeScore (Num.dec 4 10) then
      Some {| rx := x; ry := y; rwidth := blockSize; rheight := blockSize;
              confidence := strokeScore |}
    else None).

(** *** The edge scanner (lines 99-123, 176-226) *)

Definition sobelX : list Z := [-1; 0; 1; -2; 0; 2; -1; 0; 1].
Definition sobelY : list Z := [-1; -2; -1; 0; 0; 0; 1; 2; 1].

(** The value a [Uint8ClampedArray] keeps of
    [Math.min(255, Math.sqrt(s))]: the integer nearest to it, the even one
    of two equally near.  With [n] the integer part of the square root,
    the root is below, at or above [n + 1/2] as [s] is below, at or above
    [n * n + n + 1/4]. *)
Definition clampedRoot (s : Qc) : Z :=
  if Num.ltb s (Num.ofZ (255 * 255)) then
    let n := Z.sqrt (Qfloor s) in
    let half := (Num.ofZ (n * n + n) + Num.dec 1 4)%Qc in
    if Num.ltb s half then n
    else if Num.ltb half s then n + 1
    else if Z.even n then n else n + 1
  else 255.

(** The two inner loops over [ky] and [kx]; the state is [gx] and [gy]. *)
Definition gradient (w : Z) (d : list Z) (x y : Z) : Qc * Qc :=
  foldl (λ '(gx, gy) '(ky, kx),
           let idx := ((y + ky) * w + (x + kx)) * 4 in
           let gray := grayAt d idx in
           let kernelIdx := (ky + 1) * 3 + (kx + 1) in
           ((gx + gray * Num.ofZ (get sobelX kernelIdx))%Qc,
            (gy + gray * Num.ofZ (get sobelY kernelIdx))%Qc))
        (0%Qc, 0%Qc)
        (ky ← Num.range (-1) 2 1; kx ← Num.range (-1) 2 1; [(ky, kx)]).

Definition sobelEdgeDetection (imageData : ImageData) : ImageData :=
  let w := width imageData in
  let h := height imageData in
  let d := data imageData in
  let edges :=
    foldl (λ edges y,
             foldl (λ edges x,
                      let '(gx, gy) := gradient w d x y in
                      let magnitude := clampedRoot (gx * gx + gy * gy)%Qc in
                      let idx := (y * w + x) * 4 in
                      store (store (store (store edges (idx + 2) magnitude)
                                          (idx + 1) magnitude)
                                   idx magnitude)
                            (idx + 3) 255)
                   edges (Num.range 1 (w - 1) 1))
          (replicate (length d) 0) (Num.range 1 (h - 1) 1) in
  mkImage w h edges.

Definition calculateEdgeScore (edges : ImageData) (x y size w : Z) : Qc :=
  let '(edgeSum, pixelCount) :=
    foldl (λ '(edgeSum, pixelCount) '(dy, dx),
             let idx := ((y + dy) * w + (x + dx)) * 4 in
             if idx <? len (data edges) then
               (edgeSum + get (data edges) idx, pixelCount + 1)
             else (edgeSum, pixelCount))
          (0, 0) (blockOffsets size) in
  if 0 <? pixelCount then
    (Num.ofZ edgeSum / Num.ofZ pixelCount / Num.ofZ 255)%Qc
  else 0%Qc.

(** The blocks pushed by the loops of [detectTextByEdges], before the
    final [mergeNearbyRegions]. *)
Definition edgeCandidates (imageData : ImageData) : list TextRegion :=
  let edges := sobelEdgeDetection imageData in
  let blockSize := 20 in
  scanBlocks imageData blockSize (λ x y,
    let edgeScore :=
      calculateEdgeScore edges x y blockSize (width imageData) in
    if Num.gtb edgeScore (Num.dec 3 10) then
      Some {| rx := x; ry := y; rwidth := blockSize; rheight := blockSize;
              confidence := edgeScore |}
    else None).

Definition detectTextByEdges (imageData : ImageData) : list TextRegion :=
  mergeNearbyRegions (edgeCandidates imageData).

(** *** The color scanner (lines 125-148, 228-261, 290-343) *)

Record Color := mkColor { r : Z; g : Z; b : Z }.

#[export] Instance Color_eq_dec : EqDecision Color.
Proof. solve_decision. Defined.

(** [colors.reduce((sum, c) => sum + c.r, 0)] and the like. *)
Definition channelSum (channel : Color → Z) (colors : list Color) : Z :=
  foldl (λ sum c, sum + channel c) 0 colors.

(** The argument of the final [Math.sqrt] of [calculateColorVariance]
    ([0] for no colors, where the source returns [0]). *)
Definition colorVarianceSquared (colors : list Color) : Qc :=
  match colors with
  | [] => 0%Qc
  | _ =>
      let n := Num.ofZ (Z.of_nat (length colors)) in
      let avgR := (Num.ofZ (channelSum r colors) / n)%Qc in
      let avgG := (Num.ofZ (channelSum g colors) / n)%Qc in
      let avgB := (Num.ofZ (channelSum b colors) / n)%Qc in
      (foldl (λ sum c,
                sum + (Num.ofZ (r c) - avgR) * (Num.ofZ (r c) - avgR)
                    + (Num.ofZ (g c) - avgG) * (Num.ofZ (g c) - avgG)
                    + (Num.ofZ (b c) - avgB) * (Num.ofZ (b c) - avgB))%Qc
             0%Qc colors / n)%Qc
  end.

(** [Math.round(v / 32) * 32]. *)
Definition quantize32 (v : Z) : Z :=
  Num.round (Num.ofZ v / Num.ofZ 32)%Qc * 32.

(** The [colorMap] of [findDominantColors], in insertion order: the count
    of an existing key goes up, a new key goes to the end. *)
Fixpoint countColor (q : Color) (colorMap : list (Color * Z))
    : list (Color * Z) :=
  match colorMap with
  | [] => [(q, 1)]
  | (c, count) :: rest =>
      if decide (c = q) then (c, count + 1) :: rest
      else (c, count) :: countColor q rest
  end.

(** [sort((a, b) => b.count - a.count)], which keeps the order of entries
    of equal count: each entry goes behind those counted at least as
    often. *)
Fixpoint insertByCount {A} (e : A * Z) (sorted : list (A * Z))
    : list (A * Z) :=
  match sorted with
  | [] => [e]
  | e' :: rest =>
      if e'.2 <? e.2 then e :: e' :: rest else e' :: insertByCount e rest
  end.

Definition sortByCount {A} (entries : list (A * Z)) : list (A * Z) :=
  foldl (λ sorted e, insertByCount e sorted) [] entries.

Definition findDominantColors (colors : list Color) (maxColors : nat)
    : list (Color * Z) :=
  let colorMap :=
    foldl (λ colorMap color,
             countColor {| r := quantize32 (r color);
                           g := quantize32 (g color);
                           b := quantize32 (b color) |} colorMap)
          [] colors in
  take maxColors (sortByCount colorMap).

(** [Math.sqrt(s) > 100] on an integer [s] is [s > 10000]. *)
Definition hasHighContrast (colors : list (Color * Z)) : bool :=
  match colors with
  | (color1, _) :: (color2, _) :: _ =>
      10000 <? (r color1 - r color2) ^ 2 + (g color1 - g color2) ^ 2
               + (b color1 - b color2) ^ 2
  | _ => false
  end.

(** [analyzeColorBlock]: the pair [(isTextLike, confidence)].
    [Math.sqrt(variance) < 50] is taken as [variance < 2500] on the exact
    variance; the variance of the source is a double, which can differ from
    it in the last bit. *)
Definition analyzeColorBlock (d : list Z) (x y size w : Z) : bool * Qc :=
  let colors :=
    foldl (λ colors '(dy, dx),
             let idx := ((y + dy) * w + (x + dx)) * 4 in
             if idx <? len d then
               colors ++ [ {| r := get d idx; g := get d (idx + 1);
                              b := get d (idx + 2) |} ]
             else colors)
          [] (blockOffsets size) in
  let dominantColors := findDominantColors colors 3 in
  let hasLowVariance :=
    Num.ltb (colorVarianceSquared colors) (Num.ofZ 2500) in
  let hasFewColors := bool_decide (length dominantColors ≤ 2)%nat in
  let hasHighContrast := hasHighContrast dominantColors in
  (hasLowVariance && hasFewColors && hasHighContrast,
   ((if hasLowVariance then Num.dec 4 10 else 0)
    + (if hasFewColors then Num.dec 3 10 else 0)
    + (if hasHighContrast then Num.dec 3 10 else 0))%Qc).

(** The blocks pushed by the loops of [detectTextByColor], before the
    final [mergeNearbyRegions]. *)
Definition colorCandidates (imageData : ImageData) : list TextRegion :=
  let blockSize := 30 in
  scanBlocks imageData blockSize (λ x y,
    let colorAnalysis :=
      analyzeColorBlock (data imageData) x y blockSize (width imageData) in
    if colorAnalysis.1 then
      Some {| rx := x; ry := y; rwidth := blockSize; rheight := blockSize;
              confidence := colorAnalysis.2 |}
    else None).

Definition detectTextByColor (imageData : ImageData) : list TextRegion :=
  mergeNearbyRegions (colorCandidates imageData).

(** *** [binarizeForText] and its threshold (lines 533-621) *)

(** [calculateOtsuThreshold] (lines 588-621) has the text of the one in
    [src/App.tsx]. *)
Definition calculateOtsuThreshold (histogram : list Z) (totalPixels : Qc)
    : Z :=
  Preprocessor.calculateOtsuThreshold histogram totalPixels.

(** [findHistogramPeaks]: the levels [1 .. length - 2] that exceed both
    neighbours and 100, the two most frequent first. *)
Definition findHistogramPeaks (histogram : list Z) : list Z :=
  let peaks :=
    foldl (λ peaks i,
             if (get histogram (i - 1) <? get histogram i)
                && (get histogram (i + 1) <? get histogram i)
                && (100 <? get histogram i)
             then peaks ++ [(i, get histogram i)] else peaks)
          [] (Num.range 1 (len histogram - 1) 1) in
  (take 2 (sortByCount peaks)).*1.

(** [Math.round((data[i] + data[i + 1] + data[i + 2]) / 3)]. *)
Definition averageGray (d : list Z) (i : Z) : Z := Num.round (grayAt d i).

(** The loop under "Build histogram" of [calculateAdaptiveThreshold]. *)
Definition buildHistogram (d : list Z) : list Z :=
  foldl (λ histogram i, Preprocessor.incr histogram (averageGray d i))
        (replicate 256 0) (Preprocessor.pixelOffsets d).

Definition calculateAdaptiveThreshold (imageData : ImageData) : Z :=
  let d := data imageData in
  let histogram := buildHistogram d in
  match findHistogramPeaks histogram with
  | p0 :: p1 :: _ => Num.round (Num.ofZ (p0 + p1) / Num.ofZ 2)%Qc
  | _ => calculateOtsuThreshold histogram (Preprocessor.pixelCount d)
  end.

(** The loop of [binarizeForText]; the alpha entry [i + 3] is not
    written. *)
Definition applyThreshold (threshold : Z) (d : list Z) : list Z :=
  foldl (λ d i,
           let gray := grayAt d i in
           let binary := if Num.gtb gray (Num.ofZ threshold) then 255 else 0 in
           store (store (store d i binary) (i + 1) binary) (i + 2) binary)
        d (Preprocessor.pixelOffsets d).

Definition binarizeForText (imageData : ImageData) : ImageData :=
  let threshold := calculateAdaptiveThreshold imageData in
  mkImage (width imageData) (height imageData)
          (applyThreshold threshold (data imageData)).

(** *** [detectAndExtractText] (lines 28-78) *)

Record SmartOCROptions := mkOptions {
  useTextDetection : bool;
  multipleRegions : bool;
  enhanceTextRegions : bool;
  useDeepLearning : bool;
  fallbackToOriginal : bool
}.

(** The files of [processedImages], by what they are made from:
    [text_region_x_y.png] by [extractAndEnhanceRegion] from a region,
    [enhanced_global.png] by [createGlobalEnhancedImage] from the whole
    image.  Their pixels are drawn on a canvas and are not modelled. *)
Inductive File :=
| text_region (region : TextRegion)
| enhanced_global.

Record Result := mkResult {
  regions : list TextRegion;
  processedImages : list File
}.

(** [getDefaultOptions] (lines 89-97). *)
Definition getDefaultOptions : SmartOCROptions :=
  {| useTextDetection := true;
     multipleRegions := true;
     enhanceTextRegions := true;
     useDeepLearning := false;
     fallbackToOriginal := true |}.

(** Step 1, under [if (options.useTextDetection)]. *)
Definition detectRegions (imageData : ImageData) : list TextRegion :=
  let textRegions := [] in
  let textRegions := textRegions ++ detectTextByEdges imageData in
  let textRegions := textRegions ++ detectTextByColor imageData in
  let textRegions := textRegions ++ detectTextByStroke imageData in
  mergeOverlappingRegions textRegions.

(** [imageData] is the decoded image the method reads from its canvas. *)
Definition detectAndExtractText (imageData : ImageData)
    (options : SmartOCROptions) : Result :=
  let textRegions :=
    if useTextDetection options then detectRegions imageData else [] in
  let processedImages := [] in
  let processedImages :=
    if bool_decide (0 < length textRegions)%nat && enhanceTextRegions options
    then processedImages ++ map text_region textRegions
    else processedImages in
  let processedImages :=
    if fallbackToOriginal options || bool_decide (length textRegions = 0%nat)
    then processedImages ++ [enhanced_global]
    else processedImages in
  {| regions := textRegions; processedImages := processedImages |}.

(** *** The enhancement steps (lines 474-498, 741-758) *)

(** [increaseContrast]: the loop of [enhanceContrast] of [src/App.tsx],
    with the factor as a parameter. *)
Definition increaseContrast (imageData : ImageData) (factor : Qc)
    : ImageData :=
  mkImage (width imageData) (height imageData)
    (foldl (mapChannels (Preprocessor.contrastEntry factor)) (data imageData)
           (Preprocessor.pixelOffsets (data imageData))).

Definition enhanceTextContrast (imageData : ImageData) : ImageData :=
  increaseContrast imageData (Num.dec 18 10).

(** [removeColorNoise]: the luma of the pixel goes to its three color
    entries. *)
Definition removeColorNoise (imageData : ImageData) : ImageData :=
  mkImage (width imageData) (height imageData)
    (foldl (λ d i,
              let gray := clampByte (Preprocessor.luma d i) in
              store (store (store d i gray) (i + 1) gray) (i + 2) gray)
           (data imageData) (Preprocessor.pixelOffsets (data imageData))).

(** [Math.round(v / 64) * 64], as kept by the array. *)
Definition quantize64 (v : Z) : Z :=
  clampByte (Num.round (Num.ofZ v / Num.ofZ 64)%Qc * 64).

Definition reduceColorComplexity (imageData : ImageData) : ImageData :=
  mkImage (width imageData) (height imageData)
    (foldl (mapChannels quantize64) (data imageData)
           (Preprocessor.pixelOffsets (data imageData))).

(** [sharpenText] (lines 500-531). *)
Definition sharpenText (imageData : ImageData) : ImageData :=
  sharpenWith [0; -1; 0; -1; 6; -1; 0; -1; 0] imageData.

(** [enhanceTextRegion] (lines 437-445). *)
Definition enhanceTextRegion (imageData : ImageData) : ImageData :=
  let enhanced := increaseContrast imageData (Num.ofZ 2) in
  let enhanced := removeColorNoise enhanced in
  let enhanced := sharpenText enhanced in
  binarizeForText enhanced.

(** *** [removeComplexBackground] (lines 623-739) *)

(** [{r: data[idx], g: data[idx + 1], b: data[idx + 2]}]. *)
Definition colorAt (d : list Z) (idx : Z) : Color :=
  {| r := get d idx; g := get d (idx + 1); b := get d (idx + 2) |}.

Definition quantizeColor (color : Color) : Color :=
  {| r := quantize16 (r color);
     g := quantize16 (g color);
     b := quantize16 (b color) |}.

Definition white : Color := {| r := 255; g := 255; b := 255 |}.

(** [getMostCommonColor] (lines 689-716). *)
Definition getMostCommonColor (colors : list Color) : Color :=
  mostCommonOf quantizeColor white colors.

(** [findBackgroundColor]: every tenth pixel of the top and bottom rows,
    then of the left and right columns. *)
Definition findBackgroundColor (imageData : ImageData) : Color :=
  let width := width imageData in
  let height := height imageData in
  let d := data imageData in
  let samples :=
    foldl (λ samples x,
             let bottomIdx := ((height - 1) * width + x) * 4 in
             samples ++ [colorAt d (x * 4); colorAt d bottomIdx])
          [] (Num.range 0 width 10) in
  let samples :=
    foldl (λ samples y,
             let leftIdx := (y * width) * 4 in
             let rightIdx := (y * width + width - 1) * 4 in
             samples ++ [colorAt d leftIdx; colorAt d rightIdx])
          samples (Num.range 0 height 10) in
  getMostCommonColor samples.

(** The argument of [Math.sqrt] in the distance of the pixel at [i] from
    [bgColor]. *)
Definition distanceSquared (d : list Z) (i : Z) (bgColor : Color) : Z :=
  (get d i - r bgColor) ^ 2 + (get d (i + 1) - g bgColor) ^ 2
  + (get d (i + 2) - b bgColor) ^ 2.

(** [createTextMask]: a [Float32Array] of [width * height] zeros, whose
    entry [i / 4] becomes [Math.min(1, Math.sqrt(s) / 100)] for the squared
    distance [s] of the pixel at [i].  The embedding keeps [s]; the entry is
    below 0.5 exactly when [s < 2500]. *)
Definition createTextMask (imageData : ImageData) (bgColor : Color)
    : list Z :=
  let d := data imageData in
  foldl (λ mask i, store mask (i / 4) (distanceSquared d i bgColor))
        (replicate (Z.to_nat (width imageData * height imageData)) 0)
        (Preprocessor.pixelOffsets d).

(** [textMask[k] < 0.5], which is false for an entry that is not there. *)
Definition maskBelowHalf (textMask : list Z) (k : Z) : bool :=
  match textMask !! Z.to_nat k with
  | Some s => s <? 2500
  | None => false
  end.

Definition removeComplexBackground (imageData : ImageData) : ImageData :=
  let d := data imageData in
  let bgColor := findBackgroundColor imageData in
  let textMask := createTextMask imageData bgColor in
  mkImage (width imageData) (height imageData)
    (foldl (λ d i, if maskBelowHalf textMask (i / 4) then whiten d i else d)
           d (Preprocessor.pixelOffsets d)).

(** [createGlobalEnhancedImage] (lines 447-472), from the pixels read from
    the canvas to the pixels put back. *)
Definition createGlobalEnhancedImage (imageData : ImageData) : ImageData :=
  let enhanced := removeComplexBackground imageData in
  let enhanced := enhanceTextContrast enhanced in
  reduceColorComplexity enhanced.

End Detector.

(** ** Language detection ([src/unnamed/part_001], lines 766-917)

    A text is the list of its UTF-16 code units, which is what [length]
    counts and what a character class without the flag [u] matches. *)

Module Language.

Record DetectedLanguage := mkDetected {
  code : string;
  name : string;
  confidence : Qc;
  flag : string
}.

(** *** [LANGUAGE_PATTERNS] (lines 774-791)

    Each pattern is one character class; it is kept as the test of a code
    unit. *)

(** A range [\ulo-\uhi] of a class. *)
Definition between (lo hi u : Z) : bool := (lo <=? u) && (u <=? hi).

Definition chinese (u : Z) : bool := between 0x4e00 0x9fff u.

Definition japanese (u : Z) : bool :=
  between 0x3040 0x309f u || between 0x30a0 0x30ff u
  || between 0x4e00 0x9fff u.

Definition korean (u : Z) : bool :=
  between 0xac00 0xd7af u || between 0x1100 0x11ff u
  || between 0x3130 0x318f u.

Definition cyrillic (u : Z) : bool := between 0x0400 0x04ff u.

(** [a-zA-Z]. *)
Definition latin (u : Z) : bool := between 0x61 0x7a u || between 0x41 0x5a u.

Definition arabic (u : Z) : bool := between 0x0600 0x06ff u.

Definition thai (u : Z) : bool := between 0x0e00 0x0e7f u.

(** The 67 letters listed in the class of [vietnamese], all lower case. *)
Definition vietnameseLetters : list Z :=
  [ 0x00e0; 0x00e1; 0x1ea1; 0x1ea3; 0x00e3; 0x00e2; 0x1ea7; 0x1ea5;
    0x1ead; 0x1ea9; 0x1eab; 0x0103; 0x1eb1; 0x1eaf; 0x1eb7; 0x1eb3;
    0x1eb5; 0x00e8; 0x00e9; 0x1eb9; 0x1ebb; 0x1ebd; 0x00ea; 0x1ec1;
    0x1ebf; 0x1ec7; 0x1ec3; 0x1ec5; 0x00ec; 0x00ed; 0x1ecb; 0x1ec9;
    0x0129; 0x00f2; 0x00f3; 0x1ecd; 0x1ecf; 0x00f5; 0x00f4; 0x1ed3;
    0x1ed1; 0x1ed9; 0x1ed5; 0x1ed7; 0x01a1; 0x1edd; 0x1edb; 0x1ee3;
    0x1edf; 0x1ee1; 0x00f9; 0x00fa; 0x1ee5; 0x1ee7; 0x0169; 0x01b0;
    0x1eeb; 0x1ee9; 0x1ef1; 0x1eed; 0x1eef; 0x1ef3; 0x00fd; 0x1ef5;
    0x1ef7; 0x1ef9; 0x0111 ].

(** The pattern is written with the flag [i], but [detectLanguageFromText]
    builds its expressions as [new RegExp(pattern.source, 'g')], from the
    source of the pattern alone: the class matches the letters as listed. *)
Definition vietnamese (u : Z) : bool := existsb (Z.eqb u) vietnameseLetters.

(** *** [SUPPORTED_LANGUAGES] (lines 793-803) *)

Record Language := mkLanguage {
  lcode : string;
  lname : string;
  lflag : string;
  patterns : list (Z → bool)
}.

Definition SUPPORTED_LANGUAGES : list Language :=
  [ mkLanguage "chi_sim" "Chinese (Simplified)" "🇨🇳" [chinese];
    mkLanguage "chi_tra" "Chinese (Traditional)" "🇹🇼" [chinese];
    mkLanguage "eng" "English" "🇺🇸" [latin];
    mkLanguage "jpn" "Japanese" "🇯🇵" [japanese];
    mkLanguage "kor" "Korean" "🇰🇷" [korean];
    mkLanguage "rus" "Russian" "🇷🇺" [cyrillic];
    mkLanguage "ara" "Arabic" "🇸🇦" [arabic];
    mkLanguage "tha" "Thai" "🇹🇭" [thai];
    mkLanguage "vie" "Vietnamese" "🇻🇳" [vietnamese] ].

(** *** [detectLanguageFromText] (lines 805-856) *)

(** [text.match(new RegExp(pattern.source, 'g'))]: the matches of a class
    are the code units of the text that are in it.  Their number, 0 for
    [null]. *)
Definition countMatches (pattern : Z → bool) (text : list Z) : Z :=
  len (List.filter pattern text).

(** [matches / totalChars] of a language. *)
Definition confidenceOf (text : list Z) (lang : Language) : Qc :=
  let matches :=
    foldl (λ matches pattern, matches + countMatches pattern text)
          0 (patterns lang) in
  (Num.ofZ matches / Num.ofZ (len text))%Qc.

(** [sort((a, b) => b.confidence - a.confidence)], which keeps the order
    of results of equal confidence: each result goes behind those of a
    confidence at least as high. *)
Fixpoint insertByConfidence (e : DetectedLanguage)
    (sorted : list DetectedLanguage) : list DetectedLanguage :=
  match sorted with
  | [] => [e]
  | e' :: rest =>
      if Num.ltb (confidence e') (confidence e) then e :: e' :: rest
      else e' :: insertByConfidence e rest
  end.

Definition sortByConfidence (results : list DetectedLanguage)
    : list DetectedLanguage :=
  foldl (λ sorted e, insertByConfidence e sorted) [] results.

Definition chineseDefault : DetectedLanguage :=
  mkDetected "chi_sim" "Chinese (Simplified)" (Num.dec 8 10) "🇨🇳".

Definition englishFallback : DetectedLanguage :=
  mkDetected "eng" "English" (Num.dec 6 10) "🇺🇸".

Definition detectLanguageFromText (text : list Z) : list DetectedLanguage :=
  let totalChars := len text in
  if totalChars =? 0
  then [mkDetected "chi_sim" "Chinese (Simplified)" 1 "🇨🇳"]
  else
    let results :=
      foldl (λ results lang,
               let confidence := confidenceOf text lang in
               if Num.gtb confidence (Num.dec 5 100)
               then results
                    ++ [mkDetected (lcode lang) (lname lang) confidence
                                   (lflag lang)]
               else results)
            [] SUPPORTED_LANGUAGES in
    let results := sortByConfidence results in
    match results with
    | [] => [chineseDefault; englishFallback]
    | first :: _ =>
        if Num.ltb (confidence first) (Num.dec 3 10)
        then
          let hasChineseVariant :=
            existsb (λ r, String.prefix "chi_" (code r)) results in
          take 6 (if hasChineseVariant then results
                  else chineseDefault :: results)
        else take 6 results
    end.

End Language.

(** * Reference notions and inputs *)

(** No region of the list has its top-left corner within distance 50 of
    the corner of a later one. *)
Fixpoint pairwiseFar (l : list TextRegion) : bool :=
  match l with
  | [] => true
  | a :: l' => forallb (λ b, negb (Detector.near a b)) l' && pairwiseFar l'
  end.

(** Three 30 x 30 candidates in a row, at x = 60, 0 and 20. *)
Definition threeInARow : list TextRegion :=
  [ mkRegion 60 0 30 30 (Num.dec 1 2);
    mkRegion 0 0 30 30 (Num.dec 1 2);
    mkRegion 20 0 30 30 (Num.dec 1 2) ].

(** A 26 x 26 image whose five leftmost columns are black and the rest
    white: 125 of the 625 pixels of its one 25 x 25 block are dark. *)
Definition darkStripe : ImageData :=
  mkImage 26 26
    (_ ← Num.range 0 26 1; x ← Num.range 0 26 1;
     if x <? 5 then [0; 0; 0; 255] else [255; 255; 255; 255]).

(** A 41 x 31 image, white left of x = 30 but for one black pixel at
    (5, 5), and in black and white stripes two pixels wide from x = 30 on. *)
Definition stripedMargin : ImageData :=
  mkImage 41 31
    (y ← Num.range 0 31 1; x ← Num.range 0 41 1;
     if x <? 30 then
       if (x =? 5) && (y =? 5) then [0; 0; 0; 255] else [255; 255; 255; 255]
     else if Z.odd (x / 2) then [0; 0; 0; 255] else [255; 255; 255; 255]).

(** One turn of a binarization loop: the value [binaryOf d i], computed
    from the pixel at offset [i], goes to its three color entries. *)
Definition paint (binaryOf : list Z → Z → Z) (d : list Z) (i : Z) : list Z :=
  let binary := binaryOf d i in
  store (store (store d i binary) (i + 1) binary) (i + 2) binary.

(** The three color entries of pixel [p] of the buffer all hold [v]. *)
Definition pixelIs (d : list Z) (p v : Z) : Prop :=
  get d (4 * p) = v ∧ get d (4 * p + 1) = v ∧ get d (4 * p + 2) = v.

(** Pixel [p] of [out] is what binarizing pixel [p] of [d], of gray value
    [gray], at [threshold] should give: black or white, black below the
    threshold, white above it, with the alpha entry of [d]. *)
Definition binarizedAt (d out : list Z) (p : Z) (gray threshold : Qc) : Prop :=
  (pixelIs out p 0 ∨ pixelIs out p 255)
  ∧ ((gray < threshold)%Qc → pixelIs out p 0)
  ∧ ((threshold < gray)%Qc → pixelIs out p 255)
  ∧ get out (4 * p + 3) = get d (4 * p + 3).

(** Two pixels, of gray value 20 and 220. *)
Definition twoPixels : ImageData :=
  mkImage 2 1 [20; 20; 20; 255; 220; 220; 220; 128].

(** The number of pixels of the buffer that [gray] maps to [level]. *)
Definition countGray (gray : list Z → Z → Z) (d : list Z) (level : Z) : Z :=
  Z.of_nat (length (List.filter (λ i, gray d i =? level)
                                (Preprocessor.pixelOffsets d))).

(** [round(0.299 R + 0.587 G + 0.114 B)] for a color, in doubles. *)
Definition lumaOf (r g b : Z) : Z :=
  Double.round
    (Double.add
       (Double.add (Double.mul (Double.dec 299 1000) (Double.ofZ r))
                   (Double.mul (Double.dec 587 1000) (Double.ofZ g)))
       (Double.mul (Double.dec 114 1000) (Double.ofZ b))).

(** The luma of the pixel at offset [i] of a buffer. *)
Definition lumaAt (d : list Z) (i : Z) : Z :=
  lumaOf (get d i) (get d (i + 1)) (get d (i + 2)).

(** Every pixel of the buffer is gray: its three color entries hold the
    same byte. *)
Definition grayPixels (d : list Z) : Prop :=
  ∀ p, 0 ≤ p → 4 * p < len d → ∃ gray, 0 ≤ gray ≤ 255 ∧ pixelIs d p gray.

(** What [enhanceTextRegion] hands to [binarizeForText]. *)
Definition beforeBinarizeForText (img : ImageData) : ImageData :=
  Detector.sharpenText
    (Detector.removeColorNoise (Detector.increaseContrast img (Num.ofZ 2))).

(** *** The statistics of [analyzeImage]

    Pixels are numbered in reading order: pixel [p] of an image of width
    [w] is in row [p / w], and the pixels above and below it are [p - w] and
    [p + w]. *)

(** The sum of a list of doubles, added up from the left, from [0]. *)
Definition sumDoubles (l : list Double.t) : Double.t :=
  foldl Double.add Double.zero l.

Definition pixelsOf (img : ImageData) : list Z :=
  Num.range 0 (width img * height img) 1.

(** The number of pixels, [data.length / 4]. *)
Definition numberOfPixels (img : ImageData) : Double.t :=
  Double.div (Double.ofZ (len (data img))) (Double.ofZ 4).

(** The brightness of pixel [p]: the mean of its three color entries. *)
Definition meanOfChannels (img : ImageData) (p : Z) : Double.t :=
  let d := data img in
  Double.div (Double.ofZ (get d (4 * p) + get d (4 * p + 1) + get d (4 * p + 2)))
             (Double.ofZ 3).

(** The absolute difference of the brightness of the pixels [p] and [q]. *)
Definition brightnessGap (img : ImageData) (p q : Z) : Double.t :=
  Double.abs (Double.sub (meanOfChannels img p) (meanOfChannels img q)).

(** The local contrast of pixel [p]: its brightness gaps to the pixel above
    and to the pixel below, added. *)
Definition localContrast (img : ImageData) (p : Z) : Double.t :=
  Double.add (brightnessGap img p (p - width img))
             (brightnessGap img p (p + width img)).

(** The pixels that have a pixel above and a pixel below them: those of
    the rows between the first and the last. *)
Definition interiorPixels (img : ImageData) : list Z :=
  Num.range (width img) (width img * height img - width img) 1.

Definition isEdge (contrast : Double.t) : bool :=
  Double.gtb contrast (Double.ofZ 30).

Definition averageBrightness (img : ImageData) : Double.t :=
  Double.div (sumDoubles (meanOfChannels img <$> pixelsOf img))
             (numberOfPixels img).

(** The local contrast of the pixels of a list, added up and divided by the
    number of pixels of the image. *)
Definition averageContrastOver (img : ImageData) (pixels : list Z)
    : Double.t :=
  Double.div (sumDoubles (localContrast img <$> pixels)) (numberOfPixels img).

(** The number of pixels of a list of local contrast above 30, divided by
    the number of pixels of the image. *)
Definition edgePixelRatioOver (img : ImageData) (pixels : list Z)
    : Double.t :=
  Double.div
    (Double.ofZ (Z.of_nat (length (List.filter
       (λ p, isEdge (localContrast img p)) pixels))))
    (numberOfPixels img).

(** The two statistics over the interior pixels. *)
Definition averageContrast (img : ImageData) : Double.t :=
  averageContrastOver img (interiorPixels img).

Definition edgePixelRatio (img : ImageData) : Double.t :=
  edgePixelRatioOver img (interiorPixels img).

(** The flags that [analyzeImage] derives from the three statistics and
    the size of the image. *)
Definition flagsOf (img : ImageData) (brightness contrast edges : Double.t)
    : PreprocessingOptions.t :=
  {| PreprocessingOptions.enhanceContrast :=
       Double.ltb contrast (Double.ofZ 50);
     PreprocessingOptions.removeNoise := Double.gtb edges (Double.dec 1 10);
     PreprocessingOptions.binarize := true;
     PreprocessingOptions.deskew := false;
     PreprocessingOptions.scaleUp := (width img <? 800) || (height img <? 600);
     PreprocessingOptions.sharpen := Double.ltb contrast (Double.ofZ 30);
     PreprocessingOptions.removeBackground :=
       Double.gtb brightness (Double.ofZ 200)
       || Double.ltb brightness (Double.ofZ 50) |}.

(** The same two statistics over the whole image: every pixel counts, with
    its brightness gap to each vertical neighbour that it has. *)
Definition wholeImageContrast (img : ImageData) (p : Z) : Double.t :=
  let above :=
    if width img <=? p then brightnessGap img p (p - width img)
    else Double.zero in
  let below :=
    if p <? width img * height img - width img
    then brightnessGap img p (p + width img)
    else Double.zero in
  Double.add above below.

Definition wholeImageAverageContrast (img : ImageData) : Double.t :=
  Double.div (sumDoubles (wholeImageContrast img <$> pixelsOf img))
             (numberOfPixels img).

Definition wholeImageEdgeRatio (img : ImageData) : Double.t :=
  Double.div
    (Double.ofZ (Z.of_nat (length (List.filter
       (λ p, isEdge (wholeImageContrast img p)) (pixelsOf img)))))
    (numberOfPixels img).

(** A 2 x 6 image: the left column is black, the right column is black in
    the first row and white below.  Its one change of brightness is between
    the first and the second row of the right column. *)
Definition sideEdge : ImageData :=
  mkImage 2 6
    (y ← Num.range 0 6 1; x ← Num.range 0 2 1;
     if (x =? 1) && (0 <? y) then [255; 255; 255; 255] else [0; 0; 0; 255]).

(** A column of five pixels, black and white in turn. *)
Definition zebraColumn : ImageData :=
  mkImage 1 5 [0; 0; 0; 255; 255; 255; 255; 255; 0; 0; 0; 255;
               255; 255; 255; 255; 0; 0; 0; 255].

(** [f 0 + ... + f (n - 1)]. *)
Fixpoint prefixSum (f : Z → Z) (n : nat) : Z :=
  match n with
  | O => 0
  | S k => prefixSum f k + f (Z.of_nat k)
  end.

(** The classes of a threshold candidate [i]: the pixels of gray level at
    most [i] (the background, of weight [w_B]) and the others (of weight
    [w_F]).  [weightUpTo] is the number of pixels of the first class and
    [massUpTo] the sum of their gray levels. *)
Definition weightUpTo (histogram : list Z) (i : Z) : Z :=
  prefixSum (get histogram) (Z.to_nat (i + 1)).

Definition massUpTo (histogram : list Z) (i : Z) : Z :=
  prefixSum (λ j, j * get histogram j) (Z.to_nat (i + 1)).

(** [w_B * w_F * (mean_B - mean_F)^2] for the candidate [i], the means and
    the product in doubles, and [0] when one of the two classes is empty
    (its mean is then undefined). *)
Definition betweenClassVariance (histogram : list Z) (totalPixels : Qc)
    (i : Z) : Double.t :=
  let wB := weightUpTo histogram i in
  let wF := (totalPixels - Num.ofZ wB)%Qc in
  if decide (wB = 0) then Double.zero
  else if decide (wF = 0%Qc) then Double.zero
  else
    let meanB :=
      Double.div (Double.ofZ (massUpTo histogram i)) (Double.ofZ wB) in
    let meanF :=
      Double.div (Double.ofZ (massUpTo histogram 255 - massUpTo histogram i))
                 (Double.ofQc wF) in
    Double.mul
      (Double.mul (Double.mul (Double.ofZ wB) (Double.ofQc wF))
                  (Double.sub meanB meanF))
      (Double.sub meanB meanF).

(** 1000 pixels of gray level 20 and 1000 of gray level 220. *)
Definition twoPeak : list Z :=
  <[220%nat := 1000]> (<[20%nat := 1000]> (replicate 256 0)).

(** [threshold] is the first gray level at which the between-class variance
    is largest: no level has a larger variance, and no earlier level has one
    as large.  (A comparison with a NaN is false; the variance is a NaN only
    for counts beyond the range of the doubles.) *)
Definition firstMaximum (histogram : list Z) (totalPixels : Qc)
    (threshold : Z) : Prop :=
  0 ≤ threshold < 256
  ∧ (∀ i, 0 ≤ i < 256 →
          Double.ltb (betweenClassVariance histogram totalPixels threshold)
                     (betweenClassVariance histogram totalPixels i) = false)
  ∧ (∀ i, 0 ≤ i < threshold →
          Double.leb (betweenClassVariance histogram totalPixels threshold)
                     (betweenClassVariance histogram totalPixels i) = false).

(** The state of the second loop of [calculateOtsuThreshold] before level
    [k]: no level below [k] has a variance larger than [varMax], which is
    not negative, and either [varMax] is the variance of [threshold],
    reached at no earlier level, or nothing has exceeded the initial [0]
    yet. *)
Definition otsuInv (histogram : list Z) (totalPixels : Qc)
    (k : nat) (varMax : Double.t) (threshold : nat) : Prop :=
  (∀ j, (j < k)%nat →
        Double.ltb varMax
          (betweenClassVariance histogram totalPixels (Z.of_nat j)) = false)
  ∧ Double.ltb varMax Double.zero = false
  ∧ ((threshold < k)%nat
     ∧ betweenClassVariance histogram totalPixels (Z.of_nat threshold) = varMax
     ∧ (∀ j, (j < threshold)%nat →
             Double.leb varMax
               (betweenClassVariance histogram totalPixels (Z.of_nat j))
             = false)
     ∨ threshold = 0%nat ∧ varMax = Double.zero).

(** The place of a double in the order of the doubles, none for a NaN: the
    comparisons of doubles order these triples entry by entry. *)
Definition rank (x : Double.t) : option (Z * Z * Z) :=
  match x with
  | S754_nan => None
  | S754_infinity true => Some (-2, 0, 0)
  | S754_finite true m e => Some (-1, - e, Zneg m)
  | S754_zero _ => Some (0, 0, 0)
  | S754_finite false m e => Some (1, e, Zpos m)
  | S754_infinity false => Some (2, 0, 0)
  end.

Definition rankLt (a b : Z * Z * Z) : Prop :=
  a.1.1 < b.1.1
  ∨ (a.1.1 = b.1.1 ∧ (a.1.2 < b.1.2 ∨ (a.1.2 = b.1.2 ∧ a.2 < b.2))).

(** The sign of a double, none for a NaN; [true] is the sign of the
    negative numbers. *)
Definition sign (x : Double.t) : option bool :=
  match x with
  | S754_nan => None
  | S754_zero s | S754_infinity s | S754_finite s _ _ => Some s
  end.

(** [a] covers [b]: the box of [a] contains the box of [b], and [a] is at
    least as confident. *)
Definition covers (a b : TextRegion) : Prop :=
  rx a ≤ rx b ∧ ry a ≤ ry b
  ∧ rx b + rwidth b ≤ rx a + rwidth a
  ∧ ry b + rheight b ≤ ry a + rheight a
  ∧ (confidence b ≤ confidence a)%Qc.

(** A histogram whose only populated level is [level], with [count]
    pixels. *)
Definition singleLevel (level count : Z) : list Z :=
  store (replicate 256 0) level count.
(** 101 pixels of gray level 50 followed by 101 pixels of gray level
    200. *)
Definition twoTone : ImageData :=
  mkImage 202 1
    (mjoin (replicate 101 [50; 50; 50; 255])
     ++ mjoin (replicate 101 [200; 200; 200; 255])).

(** Every color entry of the buffer is 0 or 255. *)
Definition blackAndWhite (d : list Z) : Prop :=
  ∀ p c, 0 ≤ p → 0 ≤ c ≤ 2 → 4 * p + c < len d →
    get d (4 * p + c) = 0 ∨ get d (4 * p + c) = 255.

(** The entries that [rewriteInner] writes: channel [c] of the pixel
    [(x, y)], which is not on the border of the image. *)
Definition innerEntry (img : ImageData) (x y c : Z) : Prop :=
  1 ≤ x < width img - 1 ∧ 1 ≤ y < height img - 1 ∧ 0 ≤ c ≤ 2.

(** The writes of [rewriteInner], in the order of its loops: the index and
    the value of each. *)
Definition innerWrites (entry : Z → Z → Z → Z) (img : ImageData)
    : list (Z * Z) :=
  y ← Num.range 1 (height img - 1) 1;
  x ← Num.range 1 (width img - 1) 1;
  c ← Num.range 0 3 1;
  [((y * width img + x) * 4 + c, entry x y c)].

(** A 3 x 3 image, white but for its black middle pixel. *)
Definition blackDot : ImageData :=
  mkImage 3 3
    (y ← Num.range 0 3 1; x ← Num.range 0 3 1;
     if (x =? 1) && (y =? 1) then [0; 0; 0; 255] else [255; 255; 255; 255]).

(** A 3 x 3 image of one gray level, here 200. *)
Definition grayCard : ImageData :=
  mkImage 3 3 (_ ← Num.range 0 9 1; [200; 200; 200; 255]).

(** The entry of channel [c] at [(x, y)] of an image. *)
Definition entryAt (img : ImageData) (x y c : Z) : Z :=
  get (data img) ((y * width img + x) * 4 + c).

(** The number of colors of the list that quantize to [q]. *)
Definition occurrences {K : Type} `{EqDecision K} (quantize : K → K)
    (colors : list K) (q : K) : Z :=
  Z.of_nat (length (filter (λ color, quantize color = q) colors)).

(** The count that a [colorMap] holds for the key [q], 0 for none. *)
Fixpoint countOf {K : Type} `{EqDecision K} (colorMap : list (K * Z)) (q : K)
    : Z :=
  match colorMap with
  | [] => 0
  | (k, count) :: rest => if decide (k = q) then count else countOf rest q
  end.

(** [result] is [white] for no colors, and otherwise the quantization of
    one of the colors, one that as many of them quantize to as to any. *)
Definition isMostCommon {K : Type} `{EqDecision K} (quantize : K → K)
    (white : K) (colors : list K) (result : K) : Prop :=
  match colors with
  | [] => result = white
  | _ =>
      (∃ color, color ∈ colors ∧ result = quantize color)
      ∧ ∀ color, color ∈ colors →
          occurrences quantize colors (quantize color)
          ≤ occurrences quantize colors result
  end.

(** Every pixel of the image has the color [(r0, g0, b0)]. *)
Definition uniformColor (img : ImageData) (r0 g0 b0 : Z) : Prop :=
  ∀ q, 0 ≤ q < width img * height img →
    get (data img) (4 * q) = r0 ∧ get (data img) (4 * q + 1) = g0
    ∧ get (data img) (4 * q + 2) = b0.

(** A 12 x 12 image of the color (200, 120, 40). *)
Definition orangeCard : ImageData :=
  mkImage 12 12 (_ ← Num.range 0 144 1; [200; 120; 40; 255]).

(** [out] has the size of [img] and its alpha entries. *)
Definition sameShape (out img : ImageData) : Prop :=
  width out = width img ∧ height out = height img
  ∧ len (data out) = len (data img)
  ∧ ∀ p, 0 ≤ p → 4 * p + 3 < len (data img) →
      get (data out) (4 * p + 3) = get (data img) (4 * p + 3).

(** The options with [sharpen] and [deskew] switched off. *)
Definition withoutSharpening (options : PreprocessingOptions.t)
    : PreprocessingOptions.t :=
  {| PreprocessingOptions.enhanceContrast :=
       PreprocessingOptions.enhanceContrast options;
     PreprocessingOptions.removeNoise :=
       PreprocessingOptions.removeNoise options;
     PreprocessingOptions.binarize := PreprocessingOptions.binarize options;
     PreprocessingOptions.deskew := false;
     PreprocessingOptions.scaleUp := PreprocessingOptions.scaleUp options;
     PreprocessingOptions.sharpen := false;
     PreprocessingOptions.removeBackground :=
       PreprocessingOptions.removeBackground options |}.

(** A stand-in for the canvas scaling: each pixel becomes a square of
    [factor] x [factor] pixels. *)
Definition nearestNeighbour (img : ImageData) (factor : Z) : ImageData :=
  mkImage (width img * factor) (height img * factor)
    (y ← Num.range 0 (height img * factor) 1;
     x ← Num.range 0 (width img * factor) 1;
     c ← Num.range 0 4 1;
     [get (data img) (((y / factor) * width img + x / factor) * 4 + c)]).

(** The code unit is in none of the character classes. *)
Definition inNoClass (u : Z) : bool :=
  negb (Language.chinese u || Language.japanese u || Language.korean u
        || Language.cyrillic u || Language.latin u || Language.arabic u
        || Language.thai u || Language.vietnamese u).

(** * Properties *)

(** ** Loop counters *)

Lemma range_from_spec (fuel : nat) (v limit step : Z) :
  0 < step → (Z.to_nat (limit - v) ≤ fuel)%nat →
  Num.range_from fuel v limit step
  = (λ k : nat, v + Z.of_nat k * step)
      <$> seq 0 (Z.to_nat ((limit - v + step - 1) / step)).
Proof.
  intros Hstep. revert v. induction fuel as [|fuel IH]; intros v Hfuel; simpl.
  - assert ((limit - v + step - 1) / step ≤ 0) as Hle.
    { apply Z.lt_succ_r, Z.div_lt_upper_bound; lia. }
    replace (Z.to_nat _) with 0%nat by lia. reflexivity.
  - destruct (Z.ltb_spec v limit) as [Hlt|Hge].
    + rewrite IH by lia.
      replace (limit - v + step - 1) with ((limit - v - 1) + 1 * step) by lia.
      rewrite Z.div_add by lia.
      assert (0 ≤ (limit - v - 1) / step) by (apply Z.div_pos; lia).
      replace (Z.to_nat ((limit - v - 1) / step + 1))
        with (S (Z.to_nat ((limit - v - 1) / step))) by lia.
      replace (limit - (v + step) + step - 1) with (limit - v - 1) by lia.
      cbn [seq fmap list_fmap]. f_equal; [lia|].
      rewrite <- fmap_S_seq, <- list_fmap_compose.
      apply list_fmap_ext. intros _ k _. simpl. lia.
    + assert ((limit - v + step - 1) / step ≤ 0) as Hle.
      { apply Z.lt_succ_r, Z.div_lt_upper_bound; lia. }
      replace (Z.to_nat _) with 0%nat by lia. reflexivity.
Qed.

(** The counter of a [for] loop takes the values [start + k * step] below
    [limit], in order: the loop does not stop early. *)
Lemma range_spec (start limit step : Z) :
  0 < step →
  Num.range start limit step
  = (λ k : nat, start + Z.of_nat k * step)
      <$> seq 0 (Z.to_nat ((limit - start + step - 1) / step)).
Proof. intros. apply range_from_spec; [done | lia]. Qed.

Lemma elem_of_range (start limit step v : Z) :
  0 < step →
  v ∈ Num.range start limit step
  ↔ start ≤ v < limit ∧ (v - start) mod step = 0.
Proof.
  intros Hstep. rewrite range_spec by done. rewrite list_elem_of_fmap.
  split.
  - intros (k & -> & Hk). apply elem_of_seq in Hk.
    assert (Z.of_nat k < (limit - start + step - 1) / step) as Hlt by lia.
    assert (Z.of_nat k * step + 1 ≤ limit - start + step - 1 - step + 1).
    { pose proof (Z.mul_div_le (limit - start + step - 1) step Hstep).
      nia. }
    split; [nia|].
    replace (start + Z.of_nat k * step - start) with (Z.of_nat k * step) by lia.
    apply Z.mod_mul. lia.
  - intros [[Hlo Hhi] Hmod].
    apply Z.mod_divide in Hmod; [|lia]. destruct Hmod as [q Hq].
    assert (0 ≤ q) by nia.
    exists (Z.to_nat q). split; [lia|]. apply elem_of_seq.
    split; [lia|]. simpl.
    assert (q + 1 ≤ (limit - start + step - 1) / step); [|lia].
    apply Z.div_le_lower_bound; [done | nia].
Qed.

(** ** The block loops *)

Lemma foldl_push {A B : Type} (f : A → option B) (l : list A) (acc : list B) :
  foldl (λ acc a, match f a with Some r => acc ++ [r] | None => acc end) acc l
  = acc ++ omap f l.
Proof.
  revert acc. induction l as [|a l IH]; intros acc; simpl.
  - by rewrite app_nil_r.
  - rewrite IH. destruct (f a); [by rewrite <- app_assoc | done].
Qed.

Lemma foldl_append {A B : Type} (g : A → list B) (l : list A) (acc : list B) :
  foldl (λ acc a, acc ++ g a) acc l = acc ++ (l ≫= g).
Proof.
  revert acc. induction l as [|a l IH]; intros acc; simpl.
  - by rewrite app_nil_r.
  - by rewrite IH, <- app_assoc.
Qed.

Lemma foldl_ext_in {A B : Type} (f g : B → A → B) (l : list A) (acc : B) :
  (∀ acc a, a ∈ l → f acc a = g acc a) → foldl f acc l = foldl g acc l.
Proof.
  revert acc. induction l as [|a l IH]; intros acc Hfg; simpl; [done|].
  rewrite Hfg by left. apply IH. intros. apply Hfg. by right.
Qed.

(** The scanners push the candidate blocks row by row, each row from left
    to right. *)
Lemma scanBlocks_spec (img : ImageData) (blockSize : Z)
    (candidate : Z → Z → option TextRegion) :
  Detector.scanBlocks img blockSize candidate
  = Num.range 0 (height img - blockSize) blockSize ≫= λ y,
      omap (λ x, candidate x y)
           (Num.range 0 (width img - blockSize) blockSize).
Proof.
  unfold Detector.scanBlocks.
  rewrite <- (app_nil_l (_ ≫= _)), <- foldl_append.
  apply foldl_ext_in. intros acc y _. apply foldl_push.
Qed.

Lemma elem_of_scanBlocks (img : ImageData) (blockSize : Z)
    (candidate : Z → Z → option TextRegion) (r : TextRegion) :
  r ∈ Detector.scanBlocks img blockSize candidate
  ↔ ∃ x y, y ∈ Num.range 0 (height img - blockSize) blockSize
           ∧ x ∈ Num.range 0 (width img - blockSize) blockSize
           ∧ candidate x y = Some r.
Proof.
  rewrite scanBlocks_spec, list_elem_of_bind. split.
  - intros (y & Hr & Hy). apply list_elem_of_omap in Hr as (x & Hx & Hc).
    eauto.
  - intros (x & y & Hy & Hx & Hc). exists y. split; [|done].
    apply list_elem_of_omap. eauto.
Qed.

(** ** The region merger *)

Lemma absorb_noop (regions : list TextRegion) (cur : TextRegion)
    (used : gset nat) (js : list nat) :
  Forall (λ j, ∀ other, regions !! j = Some other →
                        Detector.near cur other = false) js →
  foldl (Detector.absorb regions) (cur, used) js = (cur, used).
Proof.
  induction 1 as [|j js Hj _ IH]; simpl; [done|].
  destruct (decide (j ∈ used)); [done|].
  destruct (regions !! j) as [other|] eqn:Hother; [|done].
  by rewrite (Hj other eq_refl).
Qed.

Lemma pairwiseFar_lookup (l : list TextRegion) (i j : nat) (a b : TextRegion) :
  pairwiseFar l = true → (i < j)%nat → l !! i = Some a → l !! j = Some b →
  Detector.near a b = false.
Proof.
  revert i j. induction l as [|c l IH]; intros i j Hfar Hij Hi Hj; [done|].
  simpl in Hfar. apply andb_prop in Hfar as [Hc Hl].
  destruct j as [|j]; [lia|]. destruct i as [|i]; simpl in *.
  - injection Hi as ->. rewrite forallb_forall in Hc.
    apply negb_true_iff, Hc, list_elem_of_In. by eapply list_elem_of_lookup_2.
  - eapply (IH i j); eauto with lia.
Qed.

(** On a list whose corners are pairwise far apart, the outer loop only
    copies: after [k] turns, [merged] holds the first [k] regions. *)
Lemma anchor_far (regions : list TextRegion) (k : nat) :
  pairwiseFar regions = true → (k ≤ length regions)%nat →
  foldl (Detector.anchor regions) ([], ∅) (seq 0 k)
  = (take k regions, list_to_set (seq 0 k)).
Proof.
  intros Hfar. induction k as [|k IH]; intros Hk; [done|].
  rewrite seq_S, foldl_snoc, IH by lia. simpl.
  destruct (decide (k ∈ _)) as [Hin|_].
  { apply elem_of_list_to_set, elem_of_seq in Hin. lia. }
  destruct (lookup_lt_is_Some_2 regions k) as [r Hr]; [lia|].
  rewrite Hr, absorb_noop.
  - rewrite (take_S_r _ _ r) by done. f_equal.
    rewrite list_to_set_app_L. simpl.
    by rewrite (right_id_L ∅ (∪)), (comm_L (∪)).
  - apply list.Forall_forall. intros j Hj other Hother.
    apply elem_of_seq in Hj.
    apply (pairwiseFar_lookup regions k j r other); [done | lia | done | done].
Qed.

Lemma filter_all {A : Type} (f : A → bool) (l : list A) :
  Forall (λ a, f a = true) l → List.filter f l = l.
Proof. induction 1 as [|a l Ha _ IH]; simpl; [done|]. by rewrite Ha, IH. Qed.

(** A list of regions that all pass the size filter and whose corners are
    pairwise far apart is left as it is. *)
Lemma mergeNearbyRegions_fixed (regions : list TextRegion) :
  pairwiseFar regions = true →
  Forall (λ r, Detector.bigEnough r = true) regions →
  Detector.mergeNearbyRegions regions = regions.
Proof.
  intros Hfar Hbig. unfold Detector.mergeNearbyRegions.
  rewrite anchor_far by done. simpl. rewrite firstn_all. by apply filter_all.
Qed.

Lemma mergeNearbyRegions_bigEnough (regions : list TextRegion) :
  Forall (λ r, Detector.bigEnough r = true)
         (Detector.mergeNearbyRegions regions).
Proof.
  apply list.Forall_forall. intros r Hr. apply list_elem_of_In in Hr.
  unfold Detector.mergeNearbyRegions in Hr. by apply filter_In in Hr as [_ ?].
Qed.

(** C4 fails as stated: the merger applied to three candidates in a row
    leaves two regions whose corners are 20 apart, and a second pass merges
    them. *)
Lemma merge_not_idempotent :
  Detector.mergeNearbyRegions (Detector.mergeNearbyRegions threeInARow)
  ≠ Detector.mergeNearbyRegions threeInARow.
Proof. intros H. apply (f_equal length) in H. vm_compute in H. discriminate. Qed.

(** C4, amended: the region merger is idempotent on every list of
    candidates whose merged regions have top-left corners pairwise at
    distance 50 or more; applied to its own output it then returns that
    output. *)
Theorem merge_idempotent_when_far (regions : list TextRegion) :
  pairwiseFar (Detector.mergeNearbyRegions regions) = true →
  Detector.mergeNearbyRegions (Detector.mergeNearbyRegions regions)
  = Detector.mergeNearbyRegions regions.
Proof.
  intros Hfar. apply mergeNearbyRegions_fixed; [done|].
  apply mergeNearbyRegions_bigEnough.
Qed.

Lemma merge_idempotent_when_far_witness :
  let regions := [ mkRegion 0 0 30 30 (Num.dec 1 2);
                   mkRegion 20 0 30 30 (Num.dec 3 4);
                   mkRegion 100 0 30 30 (Num.dec 1 4) ] in
  pairwiseFar (Detector.mergeNearbyRegions regions) = true
  ∧ Detector.mergeNearbyRegions (Detector.mergeNearbyRegions regions)
    = Detector.mergeNearbyRegions regions.
Proof.
  intros regions.
  assert (pairwiseFar (Detector.mergeNearbyRegions regions) = true) as Hfar
    by (vm_compute; reflexivity).
  split; [exact Hfar | exact (merge_idempotent_when_far regions Hfar)].
Defined.

(** ** The stroke scanner *)

Lemma gtb_spec (a b : Qc) : Num.gtb a b = true ↔ (b < a)%Qc.
Proof. apply bool_decide_eq_true. Qed.

Lemma ltb_spec (a b : Qc) : Num.ltb a b = true ↔ (a < b)%Qc.
Proof. apply bool_decide_eq_true. Qed.

(** The score is the dark ratio or [0], and never exceeds [0.4]. *)
Lemma calculateStrokeScore_le (img : ImageData) (x y size : Z) :
  Num.gtb (Detector.calculateStrokeScore img x y size) (Num.dec 4 10) = false.
Proof.
  unfold Detector.calculateStrokeScore.
  destruct (_ && _) eqn:Hin; [|done].
  apply andb_prop in Hin as [_ Hlt]. apply ltb_spec in Hlt.
  apply bool_decide_eq_false. by apply Qcle_not_lt, Qclt_le_weak.
Qed.

(** The stroke scanner pushes a block only when its score exceeds [0.4],
    which no score does: it returns no candidate, whatever the image. *)
Lemma detectTextByStroke_nil (img : ImageData) :
  Detector.detectTextByStroke img = [].
Proof.
  apply elem_of_nil_inv. intros r Hr.
  apply elem_of_scanBlocks in Hr as (x & y & _ & _ & Hc).
  cbv beta zeta in Hc. by rewrite calculateStrokeScore_le in Hc.
Qed.

(** C1, the code against the claim: the one block of [darkStripe] is
    visited by the stroke scanner and has dark ratio 1/5, strictly between
    0.10 and 0.40, and [calculateStrokeScore] returns that ratio; yet
    [detectTextByStroke] emits no candidate for it, because it asks for a
    score above 0.4. *)
Theorem stroke_block_in_range_not_emitted :
  0 ∈ Num.range 0 (height darkStripe - 25) 25
  ∧ 0 ∈ Num.range 0 (width darkStripe - 25) 25
  ∧ Detector.darkRatio darkStripe 0 0 25 = Num.dec 1 5
  ∧ (Num.dec 1 10 < Num.dec 1 5)%Qc ∧ (Num.dec 1 5 < Num.dec 4 10)%Qc
  ∧ Detector.calculateStrokeScore darkStripe 0 0 25 = Num.dec 1 5
  ∧ Detector.detectTextByStroke darkStripe = [].
Proof.
  assert (Detector.darkRatio darkStripe 0 0 25 = Num.dec 1 5) as Hratio.
  { apply Qc_is_canon. vm_compute. reflexivity. }
  split; [vm_compute; left|].
  split; [vm_compute; left|].
  split; [exact Hratio|].
  split; [reflexivity|].
  split; [reflexivity|].
  split; [|apply detectTextByStroke_nil].
  unfold Detector.calculateStrokeScore. rewrite Hratio. reflexivity.
Qed.

(** ** The pipeline without text detection *)

(** C6: with [useTextDetection = false] the pipeline returns no region and
    exactly one processed image, the globally enhanced one, whatever the
    other flags. *)
Theorem no_detection_gives_global_only (img : ImageData)
    (options : Detector.SmartOCROptions) :
  Detector.useTextDetection options = false →
  Detector.regions (Detector.detectAndExtractText img options) = []
  ∧ Detector.processedImages (Detector.detectAndExtractText img options)
    = [Detector.enhanced_global].
Proof.
  intros Hoff. unfold Detector.detectAndExtractText. rewrite Hoff. simpl.
  by rewrite orb_true_r.
Qed.

Lemma no_detection_gives_global_only_witness :
  let img := mkImage 1 1 [10; 20; 30; 255] in
  let options := Detector.mkOptions false true true false false in
  Detector.useTextDetection options = false
  ∧ Detector.regions (Detector.detectAndExtractText img options) = []
  ∧ Detector.processedImages (Detector.detectAndExtractText img options)
    = [Detector.enhanced_global].
Proof.
  intros img options. split; [reflexivity|].
  exact (no_detection_gives_global_only img options eq_refl).
Defined.

(** ** The scanners on [stripedMargin] *)

Lemma region_eq (r : TextRegion) (x y w h : Z) (c : Qc) :
  (rx r, ry r, rwidth r, rheight r, this (confidence r)) = (x, y, w, h, this c) →
  r = mkRegion x y w h c.
Proof.
  destruct r as [x' y' w' h' c']. simpl. intros [= -> -> -> -> Hc].
  f_equal. apply Qc_is_canon. by rewrite Hc.
Qed.

(** Only the 20 x 20 block at (20, 0) is an edge candidate: 209 of its 400
    pixels lie on an edge of the stripes. *)
Lemma stripedMargin_edgeCandidates :
  Detector.edgeCandidates stripedMargin
  = [mkRegion 20 0 20 20 (Num.dec 209 400)].
Proof.
  assert (map (λ r, (rx r, ry r, rwidth r, rheight r, this (confidence r)))
              (Detector.edgeCandidates stripedMargin)
          = [(20, 0, 20, 20, this (Num.dec 209 400))]) as Hmap
    by (vm_compute; reflexivity).
  destruct (Detector.edgeCandidates stripedMargin) as [|r [|? ?]];
    [discriminate | | discriminate].
  f_equal. apply region_eq.
  exact (f_equal (λ l, default (0, 0, 0, 0, 0%Q) (head l)) Hmap).
Qed.

(** The one 30 x 30 block is a color candidate: almost white, with two
    quantized colors far apart. *)
Lemma stripedMargin_colorCandidates :
  Detector.colorCandidates stripedMargin = [mkRegion 0 0 30 30 (Num.ofZ 1)].
Proof.
  assert (map (λ r, (rx r, ry r, rwidth r, rheight r, this (confidence r)))
              (Detector.colorCandidates stripedMargin)
          = [(0, 0, 30, 30, this (Num.ofZ 1))]) as Hmap
    by (vm_compute; reflexivity).
  destruct (Detector.colorCandidates stripedMargin) as [|r [|? ?]];
    [discriminate | | discriminate].
  f_equal. apply region_eq.
  exact (f_equal (λ l, default (0, 0, 0, 0, 0%Q) (head l)) Hmap).
Qed.

(** ** Edge regions and the size filter *)

(** C10: every region the edge scanner returns, being an output of the
    merge-and-filter step, is wider than 20 and higher than 10; a raw edge
    candidate is exactly 20 wide, so it is discarded when merged alone and
    is never itself among the regions the scanner returns. *)
Theorem edge_regions_wider_than_block (img : ImageData) :
  Detector.detectTextByEdges img
  = Detector.mergeNearbyRegions (Detector.edgeCandidates img)
  ∧ (∀ regions r, In r (Detector.mergeNearbyRegions regions) →
                  20 < rwidth r ∧ 10 < rheight r)
  ∧ (∀ r, In r (Detector.edgeCandidates img) →
          rwidth r = 20
          ∧ Detector.mergeNearbyRegions [r] = []
          ∧ ¬ In r (Detector.detectTextByEdges img)).
Proof.
  assert (∀ regions r, In r (Detector.mergeNearbyRegions regions) →
                       20 < rwidth r ∧ 10 < rheight r) as Hbig.
  { intros regions r Hr. apply list_elem_of_In in Hr.
    pose proof (mergeNearbyRegions_bigEnough regions) as Hall.
    rewrite list.Forall_forall in Hall. specialize (Hall r Hr).
    unfold Detector.bigEnough in Hall. apply andb_prop in Hall as [Hw Hh].
    apply Z.ltb_lt in Hw, Hh. done. }
  split; [done|]. split; [exact Hbig|].
  intros r Hr. apply list_elem_of_In, elem_of_scanBlocks in Hr
    as (x & y & _ & _ & Hc). cbv beta zeta in Hc.
  destruct (Num.gtb _ _); [|done]. injection Hc as <-.
  split; [done|]. split; [reflexivity|].
  intros Hin. apply Hbig in Hin. simpl in Hin. lia.
Qed.

Lemma edge_regions_wider_than_block_witness :
  let two := [ mkRegion 0 0 20 20 (Num.dec 1 2);
               mkRegion 20 0 20 20 (Num.dec 1 2) ] in
  let merged := mkRegion 0 0 40 20 (Num.dec 1 2) in
  let block := mkRegion 20 0 20 20 (Num.dec 209 400) in
  In merged (Detector.mergeNearbyRegions two)
  ∧ (20 < rwidth merged ∧ 10 < rheight merged)
  ∧ In block (Detector.edgeCandidates stripedMargin)
  ∧ rwidth block = 20
  ∧ Detector.mergeNearbyRegions [block] = []
  ∧ ¬ In block (Detector.detectTextByEdges stripedMargin).
Proof.
  intros two merged block.
  destruct (edge_regions_wider_than_block stripedMargin) as (_ & Hbig & Hraw).
  assert (In merged (Detector.mergeNearbyRegions two)) as Hmerged.
  { left. apply region_eq. vm_compute. reflexivity. }
  assert (In block (Detector.edgeCandidates stripedMargin)) as Hblock.
  { rewrite stripedMargin_edgeCandidates. left. reflexivity. }
  split; [exact Hmerged|]. split; [exact (Hbig two merged Hmerged)|].
  split; [exact Hblock|]. exact (Hraw block Hblock).
Defined.

(** ** What the region merger is handed *)

(** C3 fails as stated: on [stripedMargin] the edge scanner finds one
    block, which its own merge-and-filter step discards, and the color
    scanner finds one; the detection result is the color block alone, 30
    wide, while merging the raw candidates once gives a region 40 wide. *)
Lemma raw_candidates_not_merged_once :
  Detector.useTextDetection Detector.getDefaultOptions = true
  ∧ Detector.regions
      (Detector.detectAndExtractText stripedMargin Detector.getDefaultOptions)
    ≠ Detector.mergeNearbyRegions
        (Detector.edgeCandidates stripedMargin
         ++ Detector.colorCandidates stripedMargin
         ++ Detector.detectTextByStroke stripedMargin).
Proof.
  split; [reflexivity|]. intros Heq.
  apply (f_equal (map rwidth)) in Heq. revert Heq.
  unfold Detector.detectAndExtractText, Detector.detectRegions,
    Detector.detectTextByEdges, Detector.detectTextByColor,
    Detector.mergeOverlappingRegions.
  cbn [Detector.useTextDetection Detector.getDefaultOptions Detector.regions].
  rewrite stripedMargin_edgeCandidates, stripedMargin_colorCandidates,
    detectTextByStroke_nil.
  vm_compute. discriminate.
Qed.

(** C3, amended: with text detection enabled, the list handed to the
    region merger is the concatenation, in order, of the edge scanner's
    candidates after that scanner's own merge-and-filter step, the color
    scanner's candidates after its own merge-and-filter step, and the stroke
    scanner's raw candidates; the detection result is the merger applied to
    that list. *)
Theorem detection_merges_scanner_outputs (img : ImageData)
    (options : Detector.SmartOCROptions) :
  Detector.useTextDetection options = true →
  Detector.regions (Detector.detectAndExtractText img options)
  = Detector.mergeNearbyRegions
      (Detector.mergeNearbyRegions (Detector.edgeCandidates img)
       ++ Detector.mergeNearbyRegions (Detector.colorCandidates img)
       ++ Detector.detectTextByStroke img).
Proof.
  intros Hon. unfold Detector.detectAndExtractText. rewrite Hon.
  cbn [Detector.regions].
  unfold Detector.detectRegions, Detector.mergeOverlappingRegions,
    Detector.detectTextByEdges, Detector.detectTextByColor.
  by rewrite app_nil_l, <- app_assoc.
Qed.

Lemma detection_merges_scanner_outputs_witness :
  Detector.useTextDetection Detector.getDefaultOptions = true
  ∧ Detector.regions
      (Detector.detectAndExtractText stripedMargin Detector.getDefaultOptions)
    = Detector.mergeNearbyRegions
        (Detector.mergeNearbyRegions (Detector.edgeCandidates stripedMargin)
         ++ Detector.mergeNearbyRegions (Detector.colorCandidates stripedMargin)
         ++ Detector.detectTextByStroke stripedMargin).
Proof.
  split; [reflexivity|].
  exact (detection_merges_scanner_outputs stripedMargin
           Detector.getDefaultOptions eq_refl).
Defined.

(** ** Reading and writing a buffer *)

Lemma len_store (d : list Z) (i v : Z) : len (store d i v) = len d.
Proof.
  unfold len, store. destruct (i <? 0); [done|]. by rewrite length_insert.
Qed.

Lemma get_store_eq (d : list Z) (i v : Z) :
  0 ≤ i < len d → get (store d i v) i = v.
Proof.
  unfold len, get, store. intros Hi.
  destruct (Z.ltb_spec i 0); [lia|].
  rewrite nth_lookup, list_lookup_insert_eq by lia. done.
Qed.

Lemma get_store_ne (d : list Z) (i j v : Z) :
  i ≠ j → get (store d i v) j = get d j.
Proof.
  unfold get, store. intros Hij.
  destruct (Z.ltb_spec j 0); [done|]. destruct (Z.ltb_spec i 0); [done|].
  rewrite !nth_lookup, list_lookup_insert_ne by lia. done.
Qed.

Lemma NoDup_range (start limit step : Z) :
  0 < step → NoDup (Num.range start limit step).
Proof.
  intros Hstep. rewrite range_spec by done.
  apply NoDup_fmap_2; [|apply NoDup_seq].
  intros k1 k2 Hk. nia.
Qed.

Lemma elem_of_pixelOffsets (d : list Z) (i : Z) :
  i ∈ Preprocessor.pixelOffsets d ↔ 0 ≤ i < len d ∧ i mod 4 = 0.
Proof.
  unfold Preprocessor.pixelOffsets. rewrite elem_of_range by lia.
  by rewrite Z.sub_0_r.
Qed.


(** ** Loops that rewrite the color entries of each pixel

    Both binarization loops write one value, computed from the three
    color entries of the pixel, to these three entries. *)

Section PixelLoop.

Variable binaryOf : list Z → Z → Z.

Hypothesis binaryOf_local : ∀ d d' i,
  get d i = get d' i → get d (i + 1) = get d' (i + 1) →
  get d (i + 2) = get d' (i + 2) → binaryOf d i = binaryOf d' i.

Lemma len_paint (d : list Z) (i : Z) : len (paint binaryOf d i) = len d.
Proof. unfold paint. by rewrite !len_store. Qed.

Lemma get_paint_other (d : list Z) (i j : Z) :
  ¬ (i ≤ j ≤ i + 2) → get (paint binaryOf d i) j = get d j.
Proof.
  intros Hj. unfold paint. rewrite !get_store_ne by lia. done.
Qed.

Lemma get_paint_color (d : list Z) (i c : Z) :
  0 ≤ i → 0 ≤ c ≤ 2 → i + c < len d →
  get (paint binaryOf d i) (i + c) = binaryOf d i.
Proof.
  intros Hi Hc Hlen. unfold paint.
  assert (c = 0 ∨ c = 1 ∨ c = 2) as [-> | [-> | ->]] by lia.
  - rewrite Z.add_0_r, !get_store_ne, get_store_eq by lia. done.
  - rewrite get_store_ne, get_store_eq by (rewrite ?len_store; lia). done.
  - rewrite get_store_eq by (rewrite ?len_store; lia). done.
Qed.

Lemma len_foldl_paint (offsets : list Z) (d : list Z) :
  len (foldl (paint binaryOf) d offsets) = len d.
Proof.
  revert d. induction offsets as [|i offsets IH]; intros d; simpl; [done|].
  by rewrite IH, len_paint.
Qed.

Lemma get_foldl_paint_other (offsets : list Z) (d : list Z) (j : Z) :
  (∀ i, i ∈ offsets → ¬ (i ≤ j ≤ i + 2)) →
  get (foldl (paint binaryOf) d offsets) j = get d j.
Proof.
  revert d. induction offsets as [|i offsets IH]; intros d Hj; simpl; [done|].
  rewrite IH by (intros; apply Hj; by right).
  apply get_paint_other, Hj. by left.
Qed.

Lemma get_foldl_paint_color (offsets : list Z) (d : list Z) (i c : Z) :
  NoDup offsets → (∀ i', i' ∈ offsets → 0 ≤ i' ∧ i' mod 4 = 0) →
  i ∈ offsets → 0 ≤ c ≤ 2 → i + c < len d →
  get (foldl (paint binaryOf) d offsets) (i + c) = binaryOf d i.
Proof.
  revert d. induction offsets as [|i0 offsets IH];
    intros d Hnodup Hoff Hi Hc Hlen; [by apply elem_of_nil in Hi|].
  apply list.NoDup_cons in Hnodup as [Hi0 Hnodup]. simpl.
  assert (0 ≤ i ∧ i mod 4 = 0) as [Hi_pos Hi_mod] by (by apply Hoff).
  assert (0 ≤ i0 ∧ i0 mod 4 = 0) as [Hi0_pos Hi0_mod]
    by (apply Hoff; by left).
  destruct (decide (i = i0)) as [->|Hne].
  - rewrite get_foldl_paint_other.
    + by apply get_paint_color.
    + intros i' Hi'.
      assert (0 ≤ i' ∧ i' mod 4 = 0) as [? ?] by (apply Hoff; by right).
      assert (i' ≠ i0) by (intros ->; done).
      pose proof (Z.div_mod i' 4). pose proof (Z.div_mod i0 4). lia.
  - apply elem_of_cons in Hi as [?|Hi]; [done|].
    rewrite IH; [| done | intros; apply Hoff; by right | done | done
                 | by rewrite len_paint].
    pose proof (Z.div_mod i 4). pose proof (Z.div_mod i0 4).
    apply binaryOf_local; apply get_paint_other; lia.
Qed.

End PixelLoop.

(** ** Binarization *)

Lemma ofZ_lt (a b : Z) : (Num.ofZ a < Num.ofZ b)%Qc ↔ a < b.
Proof.
  unfold Num.ofZ, Qclt. simpl. rewrite !Qred_correct.
  unfold Qlt. simpl. lia.
Qed.

Lemma ofZ_inj (a b : Z) : Num.ofZ a = Num.ofZ b → a = b.
Proof.
  intros Heq. apply (f_equal this) in Heq. unfold Num.ofZ in Heq.
  simpl in Heq. apply Qred_eq_iff in Heq. by apply inject_Z_injective.
Qed.

(** What a binarization loop leaves at pixel [p], for any rule [binaryOf]
    that reads only the color entries of the pixel it is given. *)
Lemma paint_pixel (binaryOf : list Z → Z → Z) (d : list Z) (p : Z) :
  (∀ d d' i, get d i = get d' i → get d (i + 1) = get d' (i + 1) →
             get d (i + 2) = get d' (i + 2) → binaryOf d i = binaryOf d' i) →
  0 ≤ p → 4 * p + 3 < len d →
  let out := foldl (paint binaryOf) d (Preprocessor.pixelOffsets d) in
  pixelIs out p (binaryOf d (4 * p))
  ∧ get out (4 * p + 3) = get d (4 * p + 3).
Proof.
  intros Hlocal Hp Hlen out.
  assert (∀ i, i ∈ Preprocessor.pixelOffsets d → 0 ≤ i ∧ i mod 4 = 0) as Hoff.
  { intros i Hi. apply elem_of_pixelOffsets in Hi. lia. }
  assert (4 * p ∈ Preprocessor.pixelOffsets d) as Hin.
  { apply elem_of_pixelOffsets. split; [lia|].
    rewrite Z.mul_comm. apply Z.mod_mul. lia. }
  assert (NoDup (Preprocessor.pixelOffsets d)) as Hnodup
    by (apply NoDup_range; lia).
  split; [split; [|split]|].
  - rewrite <- (Z.add_0_r (4 * p)) at 1.
    apply get_foldl_paint_color; auto with lia.
  - apply get_foldl_paint_color; auto with lia.
  - apply get_foldl_paint_color; auto with lia.
  - apply get_foldl_paint_other. intros i Hi. apply Hoff in Hi.
    pose proof (Z.div_mod i 4). lia.
Qed.

Lemma luma_local (d d' : list Z) (i : Z) :
  get d i = get d' i → get d (i + 1) = get d' (i + 1) →
  get d (i + 2) = get d' (i + 2) → Preprocessor.luma d i = Preprocessor.luma d' i.
Proof. unfold Preprocessor.luma. by intros -> -> ->. Qed.

Lemma grayAt_local (d d' : list Z) (i : Z) :
  get d i = get d' i → get d (i + 1) = get d' (i + 1) →
  get d (i + 2) = get d' (i + 2) → Detector.grayAt d i = Detector.grayAt d' i.
Proof. unfold Detector.grayAt. by intros -> -> ->. Qed.

Lemma preprocessor_applyThreshold_pixel (threshold : Z) (d : list Z) (p : Z) :
  0 ≤ p → 4 * p + 3 < len d →
  let out := Preprocessor.applyThreshold threshold d in
  pixelIs out p (if threshold <? Preprocessor.luma d (4 * p) then 255 else 0)
  ∧ get out (4 * p + 3) = get d (4 * p + 3).
Proof.
  intros Hp Hlen.
  apply (paint_pixel
           (λ d i, if threshold <? Preprocessor.luma d i then 255 else 0));
    [|done|done].
  intros d1 d2 i H0 H1 H2. by rewrite (luma_local d1 d2).
Qed.

Lemma detector_applyThreshold_pixel (threshold : Z) (d : list Z) (p : Z) :
  0 ≤ p → 4 * p + 3 < len d →
  let out := Detector.applyThreshold threshold d in
  pixelIs out p (if Num.gtb (Detector.grayAt d (4 * p)) (Num.ofZ threshold)
                 then 255 else 0)
  ∧ get out (4 * p + 3) = get d (4 * p + 3).
Proof.
  intros Hp Hlen.
  apply (paint_pixel
           (λ d i, if Num.gtb (Detector.grayAt d i) (Num.ofZ threshold)
                   then 255 else 0));
    [|done|done].
  intros d1 d2 i H0 H1 H2. by rewrite (grayAt_local d1 d2).
Qed.

Lemma preprocessor_binarizedAt (threshold : Z) (d : list Z) (p : Z) :
  0 ≤ p → 4 * p + 3 < len d →
  binarizedAt d (Preprocessor.applyThreshold threshold d) p
              (Num.ofZ (Preprocessor.luma d (4 * p))) (Num.ofZ threshold).
Proof.
  intros Hp Hlen.
  destruct (preprocessor_applyThreshold_pixel threshold d p Hp Hlen)
    as [Hpix Halpha].
  unfold binarizedAt. rewrite !ofZ_lt.
  destruct (Z.ltb_spec threshold (Preprocessor.luma d (4 * p)));
    (split; [auto|]); (split; [intros; (done || lia)|]);
    (split; [intros; (done || lia)|]); done.
Qed.

Lemma detector_binarizedAt (threshold : Z) (d : list Z) (p : Z) :
  0 ≤ p → 4 * p + 3 < len d →
  binarizedAt d (Detector.applyThreshold threshold d) p
              (Detector.grayAt d (4 * p)) (Num.ofZ threshold).
Proof.
  intros Hp Hlen.
  destruct (detector_applyThreshold_pixel threshold d p Hp Hlen)
    as [Hpix Halpha].
  unfold binarizedAt.
  destruct (Num.gtb _ _) eqn:Hgt.
  - apply gtb_spec in Hgt.
    split; [auto|]. split; [|done].
    intros Hlt. exfalso. apply (Qclt_not_le _ _ Hlt). by apply Qclt_le_weak.
  - apply bool_decide_eq_false in Hgt.
    split; [auto|]. split; [done|]. split; [done|done].
Qed.

(** C8: for every buffer, every threshold and every pixel of the buffer,
    both binarization loops leave the three color entries of the pixel all 0
    or all 255 (0 for a gray value below the threshold, 255 above it), and
    leave its alpha entry as it was; so do [binarize] and [binarizeForText]
    with the thresholds they compute. *)
Theorem binarize_black_or_white (img : ImageData) (threshold p : Z) :
  0 ≤ p → 4 * p + 3 < len (data img) →
  let d := data img in
  binarizedAt d (Preprocessor.applyThreshold threshold d) p
              (Num.ofZ (Preprocessor.luma d (4 * p))) (Num.ofZ threshold)
  ∧ binarizedAt d (Detector.applyThreshold threshold d) p
                (Detector.grayAt d (4 * p)) (Num.ofZ threshold)
  ∧ binarizedAt d (data (Preprocessor.binarize img)) p
      (Num.ofZ (Preprocessor.luma d (4 * p)))
      (Num.ofZ (Preprocessor.calculateOtsuThreshold
                  (Preprocessor.buildHistogram d) (Preprocessor.pixelCount d)))
  ∧ binarizedAt d (data (Detector.binarizeForText img)) p
      (Detector.grayAt d (4 * p))
      (Num.ofZ (Detector.calculateAdaptiveThreshold img)).
Proof.
  intros Hp Hlen d.
  split; [by apply preprocessor_binarizedAt|].
  split; [by apply detector_binarizedAt|].
  split; [by apply preprocessor_binarizedAt | by apply detector_binarizedAt].
Qed.

Lemma binarize_black_or_white_witness :
  let d := data twoPixels in
  0 ≤ 1 ∧ 4 * 1 + 3 < len d
  ∧ binarizedAt d (Preprocessor.applyThreshold 100 d) 1
                (Num.ofZ (Preprocessor.luma d (4 * 1))) (Num.ofZ 100)
  ∧ binarizedAt d (Detector.applyThreshold 100 d) 1
                (Detector.grayAt d (4 * 1)) (Num.ofZ 100)
  ∧ binarizedAt d (data (Preprocessor.binarize twoPixels)) 1
      (Num.ofZ (Preprocessor.luma d (4 * 1)))
      (Num.ofZ (Preprocessor.calculateOtsuThreshold
                  (Preprocessor.buildHistogram d) (Preprocessor.pixelCount d)))
  ∧ binarizedAt d (data (Detector.binarizeForText twoPixels)) 1
      (Detector.grayAt d (4 * 1))
      (Num.ofZ (Detector.calculateAdaptiveThreshold twoPixels)).
Proof.
  intros d.
  assert (0 ≤ 1) as Hp by lia.
  assert (4 * 1 + 3 < len d) as Hlen by (vm_compute; reflexivity).
  split; [exact Hp|]. split; [exact Hlen|].
  exact (binarize_black_or_white twoPixels 100 1 Hp Hlen).
Defined.

(** C9: in both binarization routines a pixel whose gray value equals the
    threshold becomes black: the test is [gray > threshold]. *)
Theorem gray_equal_threshold_is_black (img : ImageData) (threshold p : Z) :
  0 ≤ p → 4 * p + 3 < len (data img) →
  let d := data img in
  (Preprocessor.luma d (4 * p) = threshold →
   pixelIs (Preprocessor.applyThreshold threshold d) p 0)
  ∧ (Detector.grayAt d (4 * p) = Num.ofZ threshold →
     pixelIs (Detector.applyThreshold threshold d) p 0)
  ∧ (Preprocessor.luma d (4 * p)
     = Preprocessor.calculateOtsuThreshold
         (Preprocessor.buildHistogram d) (Preprocessor.pixelCount d) →
     pixelIs (data (Preprocessor.binarize img)) p 0)
  ∧ (Detector.grayAt d (4 * p)
     = Num.ofZ (Detector.calculateAdaptiveThreshold img) →
     pixelIs (data (Detector.binarizeForText img)) p 0).
Proof.
  intros Hp Hlen d.
  assert (∀ t, Preprocessor.luma d (4 * p) = t →
               pixelIs (Preprocessor.applyThreshold t d) p 0) as Hpre.
  { intros t Heq.
    destruct (preprocessor_applyThreshold_pixel t d p Hp Hlen) as [Hpix _].
    by rewrite Heq, Z.ltb_irrefl in Hpix. }
  assert (∀ t, Detector.grayAt d (4 * p) = Num.ofZ t →
               pixelIs (Detector.applyThreshold t d) p 0) as Hdet.
  { intros t Heq.
    destruct (detector_applyThreshold_pixel t d p Hp Hlen) as [Hpix _].
    rewrite Heq in Hpix. unfold Num.gtb in Hpix.
    rewrite bool_decide_eq_false_2 in Hpix; [done|].
    apply Qcle_not_lt, Qcle_refl. }
  split; [apply Hpre|]. split; [apply Hdet|].
  split; [apply Hpre | apply Hdet].
Qed.

Lemma gray_equal_threshold_is_black_witness :
  let d := data twoPixels in
  0 ≤ 0 ∧ 4 * 0 + 3 < len d
  ∧ Preprocessor.luma d (4 * 0) = 20
  ∧ pixelIs (Preprocessor.applyThreshold 20 d) 0 0
  ∧ Detector.grayAt d (4 * 0) = Num.ofZ 20
  ∧ pixelIs (Detector.applyThreshold 20 d) 0 0
  ∧ Preprocessor.luma d (4 * 0)
    = Preprocessor.calculateOtsuThreshold
        (Preprocessor.buildHistogram d) (Preprocessor.pixelCount d)
  ∧ pixelIs (data (Preprocessor.binarize twoPixels)) 0 0
  ∧ Detector.grayAt d (4 * 0)
    = Num.ofZ (Detector.calculateAdaptiveThreshold twoPixels)
  ∧ pixelIs (data (Detector.binarizeForText twoPixels)) 0 0.
Proof.
  intros d.
  assert (0 ≤ 0) as Hp by lia.
  assert (4 * 0 + 3 < len d) as Hlen by (vm_compute; reflexivity).
  assert (Preprocessor.luma d (4 * 0) = 20) as H1 by (vm_compute; reflexivity).
  assert (Detector.grayAt d (4 * 0) = Num.ofZ 20) as H2
    by (apply Qc_is_canon; vm_compute; reflexivity).
  assert (Preprocessor.luma d (4 * 0)
          = Preprocessor.calculateOtsuThreshold
              (Preprocessor.buildHistogram d) (Preprocessor.pixelCount d))
    as H3 by (vm_compute; reflexivity).
  assert (Detector.grayAt d (4 * 0)
          = Num.ofZ (Detector.calculateAdaptiveThreshold twoPixels)) as H4
    by (apply Qc_is_canon; vm_compute; reflexivity).
  destruct (gray_equal_threshold_is_black twoPixels 20 0 Hp Hlen)
    as (G1 & G2 & G3 & G4).
  split; [exact Hp|]. split; [exact Hlen|].
  split; [exact H1|]. split; [exact (G1 H1)|].
  split; [exact H2|]. split; [exact (G2 H2)|].
  split; [exact H3|]. split; [exact (G3 H3)|].
  split; [exact H4 | exact (G4 H4)].
Defined.

(** ** Histograms *)

Lemma len_incr (histogram : list Z) (gray : Z) :
  len (Preprocessor.incr histogram gray) = len histogram.
Proof. apply len_store. Qed.

Lemma get_incr (histogram : list Z) (gray level : Z) :
  0 ≤ level < len histogram →
  get (Preprocessor.incr histogram gray) level
  = if gray =? level then get histogram level + 1 else get histogram level.
Proof.
  intros Hlevel. unfold Preprocessor.incr.
  destruct (Z.eqb_spec gray level) as [->|Hne].
  - by apply get_store_eq.
  - by apply get_store_ne.
Qed.

(** After the histogram loop, a bin within the array has grown by the
    number of offsets whose gray value is its level. *)
Lemma histogram_count (gray : Z → Z) (offsets : list Z) (histogram : list Z)
    (level : Z) :
  0 ≤ level < len histogram →
  get (foldl (λ histogram i, Preprocessor.incr histogram (gray i))
             histogram offsets) level
  = get histogram level
    + Z.of_nat (length (List.filter (λ i, gray i =? level) offsets)).
Proof.
  revert histogram. induction offsets as [|i offsets IH];
    intros histogram Hlevel; simpl; [lia|].
  rewrite IH by (by rewrite len_incr). rewrite get_incr by done.
  destruct (gray i =? level); simpl; lia.
Qed.

Lemma get_zeros (n : nat) (level : Z) : get (replicate n 0) level = 0.
Proof.
  unfold get. destruct (level <? 0); [done|].
  rewrite nth_lookup. destruct (replicate n 0 !! Z.to_nat level) eqn:Hl;
    [|done].
  by apply lookup_replicate in Hl as [-> _].
Qed.

(** ** Image statistics *)

(** The three accumulators of the statistics loop, as sums over the
    offsets the loop visits. *)
Lemma imageStats_sums (w : Z) (d : list Z) (offsets : list Z)
    (st : Double.t * Double.t * Z) :
  foldl (Preprocessor.statsStep w d) st offsets
  = let counted :=
      List.filter (Preprocessor.hasVerticalNeighbours w d) offsets in
    (foldl Double.add st.1.1 (Preprocessor.brightness d <$> offsets),
     foldl Double.add st.1.2 (Preprocessor.verticalDiff w d <$> counted),
     st.2
     + Z.of_nat (length (List.filter
         (λ i, Double.gtb (Preprocessor.verticalDiff w d i) (Double.ofZ 30))
         counted))).
Proof.
  revert st. induction offsets as [|i offsets IH]; intros [[tb cs] ep].
  - cbn [foldl fmap list_fmap List.filter length fst snd]. cbv zeta.
    by rewrite Z.add_0_r.
  - cbn [foldl]. rewrite IH. cbv zeta.
    cbn [fmap list_fmap List.filter].
    unfold Preprocessor.statsStep.
    destruct (Preprocessor.hasVerticalNeighbours w d i).
    + cbn [fmap list_fmap List.filter fst snd foldl].
      destruct (Double.gtb _ _); cbn [length]; f_equal; lia.
    + cbn [fst snd foldl]. done.
Qed.

Lemma filter_none {A : Type} (P : A → bool) (l : list A) :
  (∀ a, a ∈ l → P a = false) → List.filter P l = [].
Proof.
  induction l as [|a l IH]; intros Hall; [done|]. cbn [List.filter].
  rewrite (Hall a) by apply list_elem_of_here.
  apply IH. intros b Hb. apply Hall. by apply list_elem_of_further.
Qed.

(** The offsets of the pixels of a buffer of [n] pixels. *)
Lemma pixelOffsets_pixels (d : list Z) (n : Z) :
  len d = 4 * n →
  Preprocessor.pixelOffsets d = (λ p, 4 * p) <$> Num.range 0 n 1.
Proof.
  intros Hlen. unfold Preprocessor.pixelOffsets.
  rewrite !range_spec by lia. rewrite <- list_fmap_compose.
  replace ((len d - 0 + 4 - 1) / 4) with n.
  2:{ rewrite Hlen. apply Z.div_unique with 3; lia. }
  replace ((n - 0 + 1 - 1) / 1) with n by (rewrite Z.div_1_r; lia).
  apply list_fmap_ext. intros _ k _. simpl. lia.
Qed.

(** The offsets that pass the guard of [analyzeImage] are those of the
    interior pixels but the first. *)
Lemma counted_offsets (img : ImageData) :
  wf_image img →
  List.filter (Preprocessor.hasVerticalNeighbours (width img) (data img))
              (Preprocessor.pixelOffsets (data img))
  = (λ p, 4 * p) <$> tail (interiorPixels img).
Proof.
  intros (Hw & Hh & Hlen & _).
  set (w := width img) in *. set (h := height img) in *.
  assert (∀ i, Preprocessor.hasVerticalNeighbours w (data img) i
               = (w * 4 <? i) && (i <? 4 * (w * h - w))) as Hguard.
  { intros i. unfold Preprocessor.hasVerticalNeighbours. rewrite Hlen.
    f_equal. f_equal. lia. }
  rewrite (pixelOffsets_pixels (data img) (w * h)) by lia.
  unfold interiorPixels. fold w h.
  destruct (decide (h ≤ 2)) as [Hflat|Hhigh].
  - assert (Num.range w (w * h - w) 1 = []) as ->.
    { unfold Num.range. by replace (Z.to_nat (w * h - w - w)) with 0%nat by nia. }
    cbn [tail fmap list_fmap].
    apply filter_none. intros i Hi.
    apply list_elem_of_fmap in Hi as (p & -> & Hp).
    apply elem_of_range in Hp; [|lia]. rewrite Hguard.
    destruct (Z.ltb_spec (w * 4) (4 * p)), (Z.ltb_spec (4 * p) (4 * (w * h - w)));
      try done; nia.
  - rewrite !range_spec by lia. rewrite !Z.sub_0_r, !Z.div_1_r.
    replace (w * h + 1 - 1) with (w * h) by lia.
    replace (w * h - w - w + 1 - 1) with (w * h - 2 * w) by lia.
    assert (Z.to_nat (w * h)
            = (S (Z.to_nat w) + (Z.to_nat (w * h - 2 * w - 1) + Z.to_nat w))%nat)
      as -> by nia.
    assert (Z.to_nat (w * h - 2 * w) = S (Z.to_nat (w * h - 2 * w - 1)))
      as -> by nia.
    rewrite !seq_app, !fmap_app, !filter_app.
    rewrite (filter_none _ (_ <$> (_ <$> seq 0 _))).
    2:{ intros i Hi. apply list_elem_of_fmap in Hi as (p & -> & Hp).
        apply list_elem_of_fmap in Hp as (k & -> & Hk).
        apply elem_of_seq in Hk. rewrite Hguard.
        destruct (Z.ltb_spec (w * 4) (4 * (0 + Z.of_nat k * 1))); [lia|done]. }
    rewrite (filter_none _ (_ <$> (_ <$> seq (_ + _ + _) _))).
    2:{ intros i Hi. apply list_elem_of_fmap in Hi as (p & -> & Hp).
        apply list_elem_of_fmap in Hp as (k & -> & Hk).
        apply elem_of_seq in Hk. rewrite Hguard.
        destruct (Z.ltb_spec (4 * (0 + Z.of_nat k * 1)) (4 * (w * h - w)));
          [nia|]. by rewrite andb_false_r. }
    rewrite filter_all.
    2:{ apply list.Forall_forall. intros i Hi.
        apply list_elem_of_fmap in Hi as (p & -> & Hp).
        apply list_elem_of_fmap in Hp as (k & -> & Hk).
        apply elem_of_seq in Hk. rewrite Hguard.
        destruct (Z.ltb_spec (w * 4) (4 * (0 + Z.of_nat k * 1))); [|lia].
        destruct (Z.ltb_spec (4 * (0 + Z.of_nat k * 1)) (4 * (w * h - w)));
          [done|nia]. }
    rewrite app_nil_r. cbn [app seq fmap list_fmap tail].
    replace (0 + S (Z.to_nat w))%nat with (S (Z.to_nat w) + 0)%nat by lia.
    change 1%nat with (1 + 0)%nat.
    rewrite <- !fmap_add_seq, <- !list_fmap_compose.
    apply list_fmap_ext. intros _ k _. simpl. lia.
Qed.

Lemma brightness_pixel (img : ImageData) (p : Z) :
  Preprocessor.brightness (data img) (4 * p) = meanOfChannels img p.
Proof. reflexivity. Qed.

Lemma verticalDiff_pixel (img : ImageData) (p : Z) :
  Preprocessor.verticalDiff (width img) (data img) (4 * p)
  = localContrast img p.
Proof.
  unfold Preprocessor.verticalDiff, localContrast, brightnessGap. cbv zeta.
  rewrite brightness_pixel.
  replace (4 * p - width img * 4) with (4 * (p - width img)) by lia.
  replace (4 * p + width img * 4) with (4 * (p + width img)) by lia.
  by rewrite !brightness_pixel.
Qed.

(** What [analyzeImage] computes: the contrast and the edges are taken
    over the interior pixels but the first. *)
Lemma analyzeImage_counted (img : ImageData) :
  wf_image img →
  let counted := tail (interiorPixels img) in
  Preprocessor.analyzeImage img
  = flagsOf img (averageBrightness img) (averageContrastOver img counted)
            (edgePixelRatioOver img counted).
Proof.
  intros Hwf counted.
  unfold Preprocessor.analyzeImage, Preprocessor.imageStats.
  rewrite imageStats_sums. cbv zeta. cbn [fst snd].
  rewrite counted_offsets by done. fold counted.
  destruct Hwf as (Hw & Hh & Hlen & _).
  rewrite (pixelOffsets_pixels (data img) (width img * height img)) by lia.
  fold (pixelsOf img).
  rewrite <- !list_fmap_compose.
  rewrite (list_fmap_ext (Preprocessor.brightness (data img) ∘ (λ p, 4 * p))
             (meanOfChannels img) (pixelsOf img))
    by (intros; reflexivity).
  rewrite (list_fmap_ext
             (Preprocessor.verticalDiff (width img) (data img) ∘ (λ p, 4 * p))
             (localContrast img) counted)
    by (intros; apply verticalDiff_pixel).
  assert (∀ l : list Z,
    length (List.filter
      (λ i, Double.gtb (Preprocessor.verticalDiff (width img) (data img) i)
                       (Double.ofZ 30)) ((λ p, 4 * p) <$> l))
    = length (List.filter (λ p, isEdge (localContrast img p)) l)) as Hedges.
  { induction l as [|p l IH]; [done|]. cbn [fmap list_fmap List.filter].
    rewrite verticalDiff_pixel. unfold isEdge at 1.
    destruct (Double.gtb _ _); cbn [length]; by rewrite IH. }
  rewrite Hedges, Z.add_0_l. reflexivity.
Qed.

Lemma add_zero_zero : Double.add Double.zero Double.zero = Double.zero.
Proof. reflexivity. Qed.

Lemma isEdge_zero : isEdge Double.zero = false.
Proof. reflexivity. Qed.

(** Leaving out a first pixel of no local contrast changes neither the sum
    nor the number of edges. *)
Lemma skip_flat_pixel (contrast : Z → Double.t) (pixels : list Z) :
  (∀ p rest, pixels = p :: rest → contrast p = Double.zero) →
  sumDoubles (contrast <$> tail pixels) = sumDoubles (contrast <$> pixels)
  ∧ length (List.filter (λ p, isEdge (contrast p)) (tail pixels))
    = length (List.filter (λ p, isEdge (contrast p)) pixels).
Proof.
  destruct pixels as [|p rest]; [done|]. intros Hflat.
  specialize (Hflat p rest eq_refl).
  cbn [tail fmap list_fmap List.filter]. unfold sumDoubles. cbn [foldl].
  by rewrite Hflat, add_zero_zero, isEdge_zero.
Qed.

Lemma interiorPixels_first (img : ImageData) (p : Z) (rest : list Z) :
  0 < width img →
  interiorPixels img = p :: rest → p = width img ∧ 2 < height img.
Proof.
  unfold interiorPixels. intros Hw Heq.
  assert (p ∈ Num.range (width img) (width img * height img - width img) 1)
    as Hp by (rewrite Heq; apply list_elem_of_here).
  apply elem_of_range in Hp; [|lia].
  rewrite range_spec in Heq by lia.
  destruct (Z.to_nat _) as [|n]; [done|].
  cbn [seq fmap list_fmap] in Heq. injection Heq as Hfirst _.
  split; [lia | nia].
Qed.

(** C7, amended: the flags of [analyzeImage] are these comparisons of the
    average brightness (over the whole image), the average local contrast
    (the brightness gaps to the two vertical neighbours, added up over the
    pixels that have both, divided by the number of pixels of the image) and
    the edge-pixel ratio (the number of those pixels of local contrast above
    30, divided by the number of pixels of the image), the first pixel of
    the second row being counted or not; [binarize] is always set and
    [deskew] never.  For an image in which that pixel has no local contrast
    the two statistics are those over all the pixels that have both
    vertical neighbours. *)
Theorem analyzeImage_flags (img : ImageData) :
  wf_image img →
  (∃ counted,
     (counted = interiorPixels img ∨ counted = tail (interiorPixels img))
     ∧ Preprocessor.analyzeImage img
       = flagsOf img (averageBrightness img)
                 (averageContrastOver img counted)
                 (edgePixelRatioOver img counted))
  ∧ ((2 < height img → localContrast img (width img) = Double.zero) →
     Preprocessor.analyzeImage img
     = flagsOf img (averageBrightness img) (averageContrast img)
               (edgePixelRatio img)).
Proof.
  intros Hwf. split.
  - exists (tail (interiorPixels img)). split; [by right|].
    by apply analyzeImage_counted.
  - intros Hflat. rewrite analyzeImage_counted by done. cbv zeta.
    destruct (skip_flat_pixel (localContrast img) (interiorPixels img))
      as [Hsum Hedges].
    { intros p rest Heq.
      apply interiorPixels_first in Heq as [-> Hhigh]; [|apply Hwf].
      by apply Hflat. }
    unfold averageContrast, edgePixelRatio, averageContrastOver,
      edgePixelRatioOver.
    by rewrite Hsum, Hedges.
Qed.

Lemma sideEdge_wf : wf_image sideEdge.
Proof.
  split; [reflexivity|]. split; [reflexivity|]. split; [reflexivity|].
  apply (bool_decide_unpack _). vm_compute. reflexivity.
Defined.

Lemma analyzeImage_flags_witness :
  wf_image sideEdge
  ∧ (2 < height sideEdge
     → localContrast sideEdge (width sideEdge) = Double.zero)
  ∧ (∃ counted,
       (counted = interiorPixels sideEdge
        ∨ counted = tail (interiorPixels sideEdge))
       ∧ Preprocessor.analyzeImage sideEdge
         = flagsOf sideEdge (averageBrightness sideEdge)
                   (averageContrastOver sideEdge counted)
                   (edgePixelRatioOver sideEdge counted))
  ∧ Preprocessor.analyzeImage sideEdge
    = flagsOf sideEdge (averageBrightness sideEdge) (averageContrast sideEdge)
              (edgePixelRatio sideEdge).
Proof.
  assert (2 < height sideEdge
          → localContrast sideEdge (width sideEdge) = Double.zero) as Hflat
    by (intros _; vm_compute; reflexivity).
  split; [exact sideEdge_wf|]. split; [exact Hflat|].
  destruct (analyzeImage_flags sideEdge sideEdge_wf) as [Hcounted Hinterior].
  split; [exact Hcounted | exact (Hinterior Hflat)].
Defined.

(** C7 fails as stated: in [sideEdge] two of the twelve pixels differ by
    255 from a vertical neighbour and the gaps add up to 510 over the whole
    image, an edge-pixel ratio of 1/6 and an average contrast of 42.5; but
    [analyzeImage], which passes over the first and the last row, counts one
    and 255, and sets [removeNoise] to false and [sharpen] to true.  The
    first pixel of the second row has no local contrast here. *)
Lemma analyzeImage_skips_border_rows :
  wf_image sideEdge
  ∧ Double.gtb (wholeImageEdgeRatio sideEdge) (Double.dec 1 10) = true
  ∧ PreprocessingOptions.removeNoise (Preprocessor.analyzeImage sideEdge)
    = false
  ∧ Double.ltb (wholeImageAverageContrast sideEdge) (Double.ofZ 30) = false
  ∧ PreprocessingOptions.sharpen (Preprocessor.analyzeImage sideEdge) = true
  ∧ localContrast sideEdge (width sideEdge) = Double.zero
  ∧ Preprocessor.analyzeImage sideEdge
    ≠ flagsOf sideEdge (averageBrightness sideEdge)
              (wholeImageAverageContrast sideEdge)
              (wholeImageEdgeRatio sideEdge).
Proof.
  split; [exact sideEdge_wf|].
  split; [vm_compute; reflexivity|]. split; [vm_compute; reflexivity|].
  split; [vm_compute; reflexivity|]. split; [vm_compute; reflexivity|].
  split; [vm_compute; reflexivity|].
  vm_compute. discriminate.
Qed.

(** ** Otsu's threshold *)

(** *** The order of the doubles *)

Lemma rankLt_irrefl (a : Z * Z * Z) : ¬ rankLt a a.
Proof. unfold rankLt. lia. Qed.

Lemma rankLt_trans (a b c : Z * Z * Z) : rankLt a b → rankLt b c → rankLt a c.
Proof. unfold rankLt. lia. Qed.

Lemma rankLt_total (a b : Z * Z * Z) : rankLt a b ∨ a = b ∨ rankLt b a.
Proof.
  destruct a as [[a1 a2] a3], b as [[b1 b2] b3]. unfold rankLt. simpl.
  destruct (decide (a1 = b1)) as [->|]; [|lia].
  destruct (decide (a2 = b2)) as [->|]; [|lia].
  destruct (decide (a3 = b3)) as [->|]; [|lia].
  right. by left.
Qed.

Lemma SFcompare_finite (s1 s2 : bool) (m1 m2 : positive) (e1 e2 : Z) :
  SFcompare (S754_finite s1 m1 e1) (S754_finite s2 m2 e2)
  = Some (if s1
          then if s2
               then match e1 ?= e2 with
                    | Eq => Zneg m1 ?= Zneg m2
                    | Lt => Gt
                    | Gt => Lt
                    end
               else Lt
          else if s2
               then Gt
               else match e1 ?= e2 with
                    | Eq => Zpos m1 ?= Zpos m2
                    | Lt => Lt
                    | Gt => Gt
                    end).
Proof. reflexivity. Qed.

Lemma ltb_rank (x y : Double.t) :
  Double.ltb x y = true
  ↔ ∃ a b, rank x = Some a ∧ rank y = Some b ∧ rankLt a b.
Proof.
  unfold Double.ltb, SFltb.
  destruct x as [sx|sx| |sx mx ex], y as [sy|sy| |sy my ey];
    try rewrite SFcompare_finite;
    try (destruct sx); try (destruct sy); cbn [SFcompare rank];
    (split; [intros H | intros (a & b & Ha & Hb & Hlt)]);
    try discriminate;
    try (injection Ha as <-; injection Hb as <-;
         unfold rankLt in Hlt; cbn [fst snd] in Hlt);
    try reflexivity;
    try (eexists _, _; split; [reflexivity|]; split; [reflexivity|];
         unfold rankLt; cbn [fst snd]);
    try lia.
  - destruct (Z.compare_spec ex ey); try discriminate; try lia.
    destruct (Z.compare_spec (Zneg mx) (Zneg my)); try discriminate; lia.
  - destruct (Z.compare_spec ex ey); try lia.
    destruct (Z.compare_spec (Zneg mx) (Zneg my)); try reflexivity; lia.
  - destruct (Z.compare_spec ex ey); try discriminate; try lia.
    destruct (Z.compare_spec (Zpos mx) (Zpos my)); try discriminate; lia.
  - destruct (Z.compare_spec ex ey); try lia.
    destruct (Z.compare_spec (Zpos mx) (Zpos my)); try reflexivity; lia.
Qed.

Lemma leb_rank (x y : Double.t) :
  Double.leb x y = true
  ↔ ∃ a b, rank x = Some a ∧ rank y = Some b ∧ ¬ rankLt b a.
Proof.
  unfold Double.leb, SFleb.
  destruct x as [sx|sx| |sx mx ex], y as [sy|sy| |sy my ey];
    try rewrite SFcompare_finite;
    try (destruct sx); try (destruct sy); cbn [SFcompare rank];
    (split; [intros H | intros (a & b & Ha & Hb & Hlt)]);
    try discriminate;
    try (injection Ha as <-; injection Hb as <-;
         unfold rankLt in Hlt; cbn [fst snd] in Hlt);
    try reflexivity;
    try (eexists _, _; split; [reflexivity|]; split; [reflexivity|];
         unfold rankLt; cbn [fst snd]);
    try lia.
  - destruct (Z.compare_spec ex ey); try discriminate; try lia.
    destruct (Z.compare_spec (Zneg mx) (Zneg my)); try discriminate; lia.
  - destruct (Z.compare_spec ex ey); try lia.
    destruct (Z.compare_spec (Zneg mx) (Zneg my)); try reflexivity; lia.
  - destruct (Z.compare_spec ex ey); try discriminate; try lia.
    destruct (Z.compare_spec (Zpos mx) (Zpos my)); try discriminate; lia.
  - destruct (Z.compare_spec ex ey); try lia.
    destruct (Z.compare_spec (Zpos mx) (Zpos my)); try reflexivity; lia.
Qed.

Lemma ltb_false_rank (x y : Double.t) (a b : Z * Z * Z) :
  rank x = Some a → rank y = Some b → Double.ltb x y = false → ¬ rankLt a b.
Proof.
  intros Ha Hb H Hlt.
  assert (Double.ltb x y = true) as H'; [|congruence].
  apply ltb_rank. by exists a, b.
Qed.

Lemma ltb_irrefl (x : Double.t) : Double.ltb x x = false.
Proof.
  destruct (Double.ltb x x) eqn:H; [|done].
  apply ltb_rank in H as (a & b & Ha & Hb & Hlt).
  rewrite Ha in Hb. injection Hb as <-. by apply rankLt_irrefl in Hlt.
Qed.

(** When [x < y] and not [x < z], then [z < y] unless [z] is NaN; so: *)
Lemma ltb_above (x y z : Double.t) :
  Double.ltb x y = true → Double.ltb x z = false →
  Double.ltb y z = false ∧ Double.leb y z = false.
Proof.
  intros Hxy Hxz. apply ltb_rank in Hxy as (a & b & Ha & Hb & Hab).
  split.
  - destruct (Double.ltb y z) eqn:H; [|done].
    apply ltb_rank in H as (b' & c & Hb' & Hc & Hbc).
    rewrite Hb in Hb'. injection Hb' as <-.
    destruct (ltb_false_rank _ _ _ _ Ha Hc Hxz).
    by apply rankLt_trans with b.
  - destruct (Double.leb y z) eqn:H; [|done].
    apply leb_rank in H as (b' & c & Hb' & Hc & Hbc).
    rewrite Hb in Hb'. injection Hb' as <-.
    pose proof (ltb_false_rank _ _ _ _ Ha Hc Hxz) as Hac.
    destruct (rankLt_total b c) as [Hlt|[->|Hlt]].
    + destruct Hac. by apply rankLt_trans with b.
    + by destruct Hac.
    + by destruct Hbc.
Qed.

(** The same rank gives the same comparisons. *)
Lemma ltb_same_rank (x x' y : Double.t) :
  rank x = rank x' → Double.ltb x y = Double.ltb x' y.
Proof.
  intros Hr. apply eq_true_iff_eq. rewrite !ltb_rank, Hr. done.
Qed.

Lemma binary_round_aux_sign (prec emax : Z) (s : bool) (m e : Z) (l : location) :
  sign (binary_round_aux prec emax s m e l) = None
  ∨ sign (binary_round_aux prec emax s m e l) = Some s.
Proof.
  unfold binary_round_aux.
  destruct (shr_fexp prec emax m e l) as [mrs' e'].
  destruct (shr_fexp prec emax _ e' loc_Exact) as [mrs'' e''].
  destruct (shr_m mrs''); [by right| |by left].
  destruct (e'' <=? emax - prec); by right.
Qed.

Lemma binary_normalize_sign (prec emax : Z) (m e : Z) :
  0 ≤ m →
  sign (binary_normalize prec emax m e false) = None
  ∨ sign (binary_normalize prec emax m e false) = Some false.
Proof.
  intros Hm. destruct m as [|p|p]; [by right| |lia].
  unfold binary_normalize, binary_round.
  destruct (shl_align _ _ _). apply binary_round_aux_sign.
Qed.

Lemma ofZ_sign (n : Z) :
  0 ≤ n → sign (Double.ofZ n) = None ∨ sign (Double.ofZ n) = Some false.
Proof. apply binary_normalize_sign. Qed.

Lemma mul_sign (x y : Double.t) :
  sign (Double.mul x y) = None
  ∨ ∃ sx sy, sign x = Some sx ∧ sign y = Some sy
             ∧ sign (Double.mul x y) = Some (xorb sx sy).
Proof.
  unfold Double.mul.
  destruct x as [sx|sx| |sx mx ex], y as [sy|sy| |sy my ey];
    try (by left); try (right; by exists sx, sy).
  unfold SFmul.
  destruct (binary_round_aux_sign 53 1024 (xorb sx sy) (Zpos (mx * my))
              (ex + ey) loc_Exact) as [H|H]; [by left|].
  right. by exists sx, sy.
Qed.

Lemma div_sign (x y : Double.t) :
  sign (Double.div x y) = None
  ∨ ∃ sx sy, sign x = Some sx ∧ sign y = Some sy
             ∧ sign (Double.div x y) = Some (xorb sx sy).
Proof.
  unfold Double.div.
  destruct x as [sx|sx| |sx mx ex], y as [sy|sy| |sy my ey];
    try (by left); try (right; by exists sx, sy).
  unfold SFdiv.
  destruct (SFdiv_core_binary 53 1024 (Zpos mx) ex (Zpos my) ey) as [[mz ez] lz].
  destruct (binary_round_aux_sign 53 1024 (xorb sx sy) mz ez lz) as [H|H];
    [by left|].
  right. by exists sx, sy.
Qed.

(** A double that is not negative is not below zero. *)
Lemma sign_false_not_below (x y : Double.t) :
  sign x = None ∨ sign x = Some false → rank y = Some (0, 0, 0) →
  Double.ltb x y = false.
Proof.
  intros Hs Hy. destruct (Double.ltb x y) eqn:H; [|done].
  apply ltb_rank in H as (a & b & Ha & Hb & Hlt).
  rewrite Hy in Hb. injection Hb as <-.
  destruct x as [s|s| |s m e]; simpl in *; destruct Hs as [Hs|Hs];
    try discriminate; injection Hs as ->; injection Ha as <-;
    unfold rankLt in Hlt; simpl in Hlt; lia.
Qed.

(** A double that is not negative and not above zero is a zero or a NaN:
    nothing that zero is not below is above it. *)
Lemma not_above_zero (x y : Double.t) :
  sign x = None ∨ sign x = Some false →
  Double.ltb Double.zero x = false → Double.ltb Double.zero y = false →
  Double.ltb x y = false.
Proof.
  intros Hs Hx Hy. destruct x as [s|s| |s m e]; [| | done |].
  - by rewrite (ltb_same_rank _ Double.zero).
  - destruct Hs as [Hs|Hs]; [done|]. injection Hs as ->. done.
  - destruct Hs as [Hs|Hs]; [done|]. injection Hs as ->. done.
Qed.

Lemma Qnum_nonneg (q : Qc) : (0 ≤ q)%Qc → 0 ≤ Qnum q.
Proof. unfold Qcle, Qle. simpl. lia. Qed.

Lemma ofQc_sign (q : Qc) :
  (0 ≤ q)%Qc → sign (Double.ofQc q) = None ∨ sign (Double.ofQc q) = Some false.
Proof.
  intros Hq. unfold Double.ofQc.
  destruct (div_sign (Double.ofZ (Qnum q)) (Double.ofZ (Zpos (Qden q))))
    as [H|(sx & sy & Hx & Hy & H)]; [by left|].
  destruct (ofZ_sign (Qnum q) (Qnum_nonneg q Hq)) as [Hx'|Hx']; [congruence|].
  destruct (ofZ_sign (Zpos (Qden q))) as [Hy'|Hy']; [lia|congruence|].
  right. rewrite H.
  assert (sx = false) as -> by congruence.
  assert (sy = false) as -> by congruence.
  reflexivity.
Qed.

(** [a * b * d * d] is not negative when [a] and [b] are not. *)
Lemma square_weighted_sign (a b d : Double.t) :
  sign a = None ∨ sign a = Some false →
  sign b = None ∨ sign b = Some false →
  sign (Double.mul (Double.mul (Double.mul a b) d) d) = None
  ∨ sign (Double.mul (Double.mul (Double.mul a b) d) d) = Some false.
Proof.
  intros Ha Hb.
  destruct (mul_sign (Double.mul (Double.mul a b) d) d)
    as [H|(s1 & sd & H1 & Hd & H)]; [by left|].
  destruct (mul_sign (Double.mul a b) d) as [H'|(s2 & sd' & H2 & Hd' & H')];
    [congruence|].
  destruct (mul_sign a b) as [H''|(sa & sb & Ha' & Hb' & H'')]; [congruence|].
  right. rewrite H.
  assert (sa = false) as -> by (destruct Ha; congruence).
  assert (sb = false) as -> by (destruct Hb; congruence).
  assert (s2 = false) as -> by (simpl in H''; congruence).
  assert (sd' = sd) as -> by congruence.
  assert (s1 = sd) as -> by (rewrite H' in H1; simpl in H1; congruence).
  by destruct sd.
Qed.

(** *** The loop of [calculateOtsuThreshold] *)

Lemma range_levels : Num.range 0 256 1 = Z.of_nat <$> seq 0 256.
Proof. vm_compute. reflexivity. Qed.

Lemma foldl_prefixSum (f : Z → Z) (n : nat) (a : Z) :
  foldl (λ sum i, sum + f i) a (Z.of_nat <$> seq 0 n) = a + prefixSum f n.
Proof.
  induction n as [|n IH]; [simpl; lia|].
  rewrite seq_S, fmap_app, foldl_app, IH. simpl. lia.
Qed.

Lemma weightedSum_prefixSum (histogram : list Z) :
  Preprocessor.weightedSum histogram
  = prefixSum (λ j, j * get histogram j) 256.
Proof.
  unfold Preprocessor.weightedSum.
  by rewrite range_levels, (foldl_prefixSum (λ j, j * get histogram j)).
Qed.

Lemma prefixSum_mono (f : Z → Z) (n m : nat) :
  (∀ j, 0 ≤ f j) → (n ≤ m)%nat → prefixSum f n ≤ prefixSum f m.
Proof.
  intros Hf. induction 1 as [|m _ IH]; simpl; [lia|].
  specialize (Hf (Z.of_nat m)). lia.
Qed.

Lemma prefixSum_nonneg (f : Z → Z) (n : nat) :
  (∀ j, 0 ≤ f j) → 0 ≤ prefixSum f n.
Proof. intros Hf. apply (prefixSum_mono f 0 n Hf). lia. Qed.

Lemma get_nonneg (histogram : list Z) (j : Z) :
  Forall (λ c, 0 ≤ c) histogram → 0 ≤ get histogram j.
Proof.
  intros Hall. unfold get. destruct (j <? 0); [done|].
  rewrite nth_lookup.
  destruct (histogram !! Z.to_nat j) as [c|] eqn:Hc; simpl; [|done].
  by eapply (Forall_lookup_1 _ _ _ _ Hall).
Qed.

Lemma ofZ_le (a b : Z) : (Num.ofZ a ≤ Num.ofZ b)%Qc ↔ a ≤ b.
Proof.
  unfold Num.ofZ, Qcle. simpl. rewrite !Qred_correct.
  unfold Qle. simpl. lia.
Qed.

Lemma ofZ_eq_0 (a : Z) : Num.ofZ a = 0%Qc ↔ a = 0.
Proof. split; [apply (ofZ_inj a 0) | by intros ->]. Qed.

Lemma Qc_sub_eq_0 (a b : Qc) : (a - b)%Qc = 0%Qc ↔ a = b.
Proof.
  split.
  - intros H. rewrite <- (Qcplus_0_l b), <- H. ring.
  - intros ->. ring.
Qed.

Lemma Qc_sub_nonneg (a b : Qc) : (b ≤ a)%Qc → (0 ≤ a - b)%Qc.
Proof.
  unfold Qcle, Qcminus. simpl. rewrite !Qred_correct. intros. lra.
Qed.

Section Otsu.

Variable histogram : list Z.
Hypothesis histogram_nonneg : Forall (λ c, 0 ≤ c) histogram.

Local Abbreviation W := (prefixSum (get histogram)).
Local Abbreviation M := (prefixSum (λ j, j * get histogram j)).
Local Abbreviation T := (Num.ofZ (prefixSum (get histogram) 256)).
Local Abbreviation V j :=
  (betweenClassVariance histogram
     (Num.ofZ (prefixSum (get histogram) 256)) (Z.of_nat j)).

Lemma W_mono (n m : nat) : (n ≤ m)%nat → W n ≤ W m.
Proof.
  apply prefixSum_mono. intros j. by apply get_nonneg.
Qed.

Lemma V_unfold (k : nat) :
  V k = if decide (W (S k) = 0) then Double.zero
        else if decide ((T - Num.ofZ (W (S k)))%Qc = 0%Qc) then Double.zero
        else
          let meanB :=
            Double.div (Double.ofZ (M (S k))) (Double.ofZ (W (S k))) in
          let meanF :=
            Double.div (Double.ofZ (M 256 - M (S k)))
                       (Double.ofQc (T - Num.ofZ (W (S k)))%Qc) in
          Double.mul
            (Double.mul
               (Double.mul (Double.ofZ (W (S k)))
                           (Double.ofQc (T - Num.ofZ (W (S k)))%Qc))
               (Double.sub meanB meanF))
            (Double.sub meanB meanF).
Proof.
  unfold betweenClassVariance, weightUpTo, massUpTo.
  by replace (Z.to_nat (Z.of_nat k + 1)) with (S k) by lia.
Qed.

(** The variance of a level is not negative. *)
Lemma V_sign (k : nat) :
  (k < 256)%nat → sign (V k) = None ∨ sign (V k) = Some false.
Proof.
  intros Hk. rewrite V_unfold.
  destruct (decide _); [by right|].
  destruct (decide _); [by right|].
  apply square_weighted_sign.
  - apply ofZ_sign, prefixSum_nonneg. intros j. by apply get_nonneg.
  - apply ofQc_sign, Qc_sub_nonneg, ofZ_le, W_mono. lia.
Qed.

(** Once the foreground class is empty it stays empty, and the variance
    is [0] from then on. *)
Lemma V_tail_zero (k j : nat) :
  W (S k) = W 256 → (k ≤ j < 256)%nat → V j = Double.zero.
Proof.
  intros Hfull Hj. rewrite V_unfold.
  destruct (decide _); [done|].
  assert (W (S j) = W 256) as ->.
  { pose proof (W_mono (S k) (S j)). pose proof (W_mono (S j) 256). lia. }
  destruct (decide _) as [|Hne]; [done|].
  destruct Hne. by apply Qc_sub_eq_0.
Qed.

Local Abbreviation otsuInv := (otsuInv histogram T).
Local Abbreviation firstMaximum := (firstMaximum histogram T).

Lemma otsuInv_final (k : nat) (varMax : Double.t) (threshold : nat) :
  (k ≤ 256)%nat → otsuInv k varMax threshold →
  (∀ j, (k ≤ j < 256)%nat → V j = Double.zero) →
  firstMaximum (Z.of_nat threshold).
Proof.
  intros Hk (Hle & Hpos & Hcases) Htail.
  assert (∀ j, (j < 256)%nat → Double.ltb varMax (V j) = false) as Hall.
  { intros j Hj. destruct (decide (j < k)%nat); [by apply Hle|].
    rewrite Htail by lia. done. }
  destruct Hcases as [(Hthr & Heq & Hfirst) | [-> ->]].
  - split; [lia|]. rewrite Heq. split.
    + intros i Hi. rewrite <- (Z2Nat.id i) by lia. apply Hall. lia.
    + intros i Hi. rewrite <- (Z2Nat.id i) by lia. apply Hfirst. lia.
  - split; [lia|]. split; [|intros; lia].
    intros i Hi. rewrite <- (Z2Nat.id i) by lia.
    apply not_above_zero; [apply (V_sign 0); lia | apply (Hall 0%nat); lia |].
    apply Hall. lia.
Qed.

Lemma otsuLoop_firstMaximum (n : nat) :
  ∀ (k : nat) (varMax : Double.t) (threshold : nat),
    (k + n = 256)%nat → otsuInv k varMax threshold →
    ∃ t : nat,
      Preprocessor.otsuLoop histogram (M 256) T (Z.of_nat <$> seq k n)
        (M k) (W k) varMax (Z.of_nat threshold) = Z.of_nat t
      ∧ firstMaximum (Z.of_nat t).
Proof.
  induction n as [|n IH]; intros k varMax threshold Hk Hinv.
  - exists threshold. split; [done|].
    apply (otsuInv_final k varMax); [lia | done | intros; lia].
  - cbn [seq fmap list_fmap Preprocessor.otsuLoop].
    change (W k + get histogram (Z.of_nat k)) with (W (S k)).
    pose proof (V_unfold k) as HV. cbv zeta in HV.
    assert (0 ≤ get histogram (Z.of_nat k)) as Hget by (by apply get_nonneg).
    assert (0 ≤ W k) as HWk.
    { apply prefixSum_nonneg. intros j. by apply get_nonneg. }
    destruct (Z.eqb_spec (W (S k)) 0) as [Hzero|Hnonzero].
    + (* [continue] *)
      assert (W (S k) = W k + get histogram (Z.of_nat k)) as HWS
        by reflexivity.
      assert (M (S k) = M k + Z.of_nat k * get histogram (Z.of_nat k))
        as HMS by reflexivity.
      assert (get histogram (Z.of_nat k) = 0) as Hget0 by lia.
      assert (M (S k) = M k) as HM by (rewrite HMS, Hget0; lia).
      rewrite <- HM.
      rewrite decide_True in HV by done.
      apply IH; [lia|]. destruct Hinv as (Hle & Hpos & Hcases).
      split; [|split; [done|]].
      * intros j Hj. destruct (decide (j = k)) as [->|]; [|apply Hle; lia].
        by rewrite HV.
      * destruct Hcases as [(Hthr & Heq & Hfirst) | ?]; [left|by right].
        split; [lia | done].
    + rewrite decide_False in HV by done.
      destruct (decide ((T - Num.ofZ (W (S k)))%Qc = 0%Qc)) as [Hfull|Hpart].
      * (* [break] *)
        exists threshold. split; [done|].
        apply (otsuInv_final k varMax); [lia | done |].
        intros j Hj. apply (V_tail_zero k); [|done].
        apply (proj1 (Qc_sub_eq_0 _ _)) in Hfull. symmetry.
        exact (ofZ_inj _ _ Hfull).
      * change (M k + Z.of_nat k * get histogram (Z.of_nat k))
          with (M (S k)).
        rewrite <- HV. destruct Hinv as (Hle & Hpos & Hcases).
        unfold Double.gtb. fold (Double.ltb varMax (V k)).
        destruct (Double.ltb varMax (V k)) eqn:Hgt.
        -- apply IH; [lia|]. split; [|split].
           ++ intros j Hj. destruct (decide (j = k)) as [->|];
                [apply ltb_irrefl|].
              apply (ltb_above varMax); [done | apply Hle; lia].
           ++ by apply (ltb_above varMax).
           ++ left. split; [lia|]. split; [done|].
              intros j Hj. apply (ltb_above varMax); [done | by apply Hle].
        -- apply IH; [lia|]. split; [|split; [done|]].
           ++ intros j Hj. destruct (decide (j = k)) as [->|];
                [done | apply Hle; lia].
           ++ destruct Hcases as [(Hthr & Heq & Hfirst) | ?];
                [left | by right].
              split; [lia | done].
Qed.

End Otsu.

(** C2 fails as stated: on the two-peak histogram the threshold is not
    strictly between the peaks. *)
Lemma otsu_two_peaks_not_between :
  get twoPeak 20 = 1000 ∧ get twoPeak 220 = 1000
  ∧ weightUpTo twoPeak 255 = 2000
  ∧ ¬ (20 < Preprocessor.calculateOtsuThreshold twoPeak (Num.ofZ 2000) < 220).
Proof.
  split; [reflexivity|]. split; [reflexivity|].
  split; [vm_compute; reflexivity|].
  assert (Preprocessor.calculateOtsuThreshold twoPeak (Num.ofZ 2000) = 20)
    as -> by (vm_compute; reflexivity).
  lia.
Qed.

(** C2, amended: on the two-peak histogram (1000 pixels at gray level 20,
    1000 at 220) the Otsu threshold is 20, the lower peak itself; in
    general, for a histogram of 256 non-negative counts and their sum as the
    number of pixels, it is the first gray level at which
    [w_B * w_F * (mean_B - mean_F)^2], as the doubles give it, is largest
    (the product being [0] where a class is empty).  The two copies of the
    function agree. *)
Theorem otsu_returns_first_maximum :
  Preprocessor.calculateOtsuThreshold twoPeak (Num.ofZ 2000) = 20
  ∧ ∀ histogram : list Z,
      length histogram = 256%nat → Forall (λ c, 0 ≤ c) histogram →
      let totalPixels := Num.ofZ (weightUpTo histogram 255) in
      firstMaximum histogram totalPixels
        (Preprocessor.calculateOtsuThreshold histogram totalPixels)
      ∧ Detector.calculateOtsuThreshold histogram totalPixels
        = Preprocessor.calculateOtsuThreshold histogram totalPixels.
Proof.
  split; [vm_compute; reflexivity|].
  intros histogram Hlen Hnonneg totalPixels. split; [|reflexivity].
  unfold Preprocessor.calculateOtsuThreshold, len. rewrite Hlen.
  change (Z.of_nat 256 <? 256) with false. cbv iota.
  rewrite weightedSum_prefixSum, range_levels.
  destruct (otsuLoop_firstMaximum histogram Hnonneg 256 0 Double.zero 0)
    as (t & Heq & Hfirst); [lia | |].
  { split; [intros; lia|]. split; [done | by right]. }
  rewrite <- Heq in Hfirst. exact Hfirst.
Qed.

Lemma otsu_returns_first_maximum_witness :
  length twoPeak = 256%nat ∧ Forall (λ c, 0 ≤ c) twoPeak
  ∧ firstMaximum twoPeak (Num.ofZ (weightUpTo twoPeak 255))
      (Preprocessor.calculateOtsuThreshold twoPeak
         (Num.ofZ (weightUpTo twoPeak 255))).
Proof.
  assert (length twoPeak = 256%nat) as Hlen by reflexivity.
  assert (Forall (λ c, 0 ≤ c) twoPeak) as Hnonneg.
  { apply (bool_decide_unpack _). vm_compute. reflexivity. }
  split; [exact Hlen|]. split; [exact Hnonneg|].
  exact (proj1 (proj2 otsu_returns_first_maximum twoPeak Hlen Hnonneg)).
Defined.

(** * Further properties of the detector *)

(** ** What the scanners can return *)

(** The stroke scanner returns no candidate, whatever the image: the score
    of a block is its dark ratio when that lies in (0.1, 0.4) and 0
    otherwise, and a block is pushed only for a score above 0.4. *)
Theorem stroke_scanner_never_emits (img : ImageData) :
  Detector.detectTextByStroke img = [].
Proof. apply detectTextByStroke_nil. Qed.

Lemma elem_of_edgeCandidates (img : ImageData) (r : TextRegion) :
  r ∈ Detector.edgeCandidates img
  ↔ ∃ x y, y ∈ Num.range 0 (height img - 20) 20
           ∧ x ∈ Num.range 0 (width img - 20) 20
           ∧ Num.gtb (Detector.calculateEdgeScore
                        (Detector.sobelEdgeDetection img) x y 20 (width img))
                     (Num.dec 3 10) = true
           ∧ r = mkRegion x y 20 20
                   (Detector.calculateEdgeScore
                      (Detector.sobelEdgeDetection img) x y 20 (width img)).
Proof.
  unfold Detector.edgeCandidates. cbv zeta. rewrite elem_of_scanBlocks.
  split; intros (x & y & Hy & Hx & Hc); exists x, y;
    (split; [exact Hy|]); (split; [exact Hx|]).
  - destruct (Num.gtb _ _) eqn:Hgt; [|discriminate Hc].
    injection Hc as <-. split; reflexivity.
  - destruct Hc as [-> ->]. reflexivity.
Qed.

Lemma elem_of_colorCandidates (img : ImageData) (r : TextRegion) :
  r ∈ Detector.colorCandidates img
  ↔ ∃ x y, y ∈ Num.range 0 (height img - 30) 30
           ∧ x ∈ Num.range 0 (width img - 30) 30
           ∧ (Detector.analyzeColorBlock (data img) x y 30 (width img)).1
             = true
           ∧ r = mkRegion x y 30 30
                   (Detector.analyzeColorBlock (data img) x y 30 (width img)).2.
Proof.
  unfold Detector.colorCandidates. cbv zeta. rewrite elem_of_scanBlocks.
  split; intros (x & y & Hy & Hx & Hc); exists x, y;
    (split; [exact Hy|]); (split; [exact Hx|]).
  - destruct (Detector.analyzeColorBlock _ _ _ _ _) as [like conf].
    cbn [fst snd] in *. destruct like; [|discriminate Hc].
    injection Hc as <-. split; reflexivity.
  - destruct Hc as [-> ->]. reflexivity.
Qed.

(** An edge candidate is a 20 x 20 block on the grid of multiples of 20
    that ends strictly before the right and bottom borders of the image (a
    block that exactly reaches a border is not scanned), and its confidence,
    the edge score, exceeds 0.3. *)
Theorem edge_candidates_are_inner_blocks (img : ImageData) (r : TextRegion) :
  In r (Detector.edgeCandidates img) →
  rwidth r = 20 ∧ rheight r = 20
  ∧ 0 ≤ rx r ∧ rx r mod 20 = 0 ∧ rx r + 20 < width img
  ∧ 0 ≤ ry r ∧ ry r mod 20 = 0 ∧ ry r + 20 < height img
  ∧ (Num.dec 3 10 < confidence r)%Qc.
Proof.
  intros Hr. apply list_elem_of_In, elem_of_edgeCandidates in Hr
    as (x & y & Hy & Hx & Hgt & ->).
  apply elem_of_range in Hy, Hx; [|lia..]. apply gtb_spec in Hgt.
  rewrite Z.sub_0_r in Hy, Hx. cbn [rx ry rwidth rheight confidence].
  split; [reflexivity|]. split; [reflexivity|].
  split; [lia|]. split; [lia|]. split; [lia|].
  split; [lia|]. split; [lia|]. split; [lia|]. exact Hgt.
Qed.

Lemma edge_candidates_are_inner_blocks_witness :
  let block := mkRegion 20 0 20 20 (Num.dec 209 400) in
  In block (Detector.edgeCandidates stripedMargin)
  ∧ rwidth block = 20 ∧ rheight block = 20
  ∧ 0 ≤ rx block ∧ rx block mod 20 = 0 ∧ rx block + 20 < width stripedMargin
  ∧ 0 ≤ ry block ∧ ry block mod 20 = 0 ∧ ry block + 20 < height stripedMargin
  ∧ (Num.dec 3 10 < confidence block)%Qc.
Proof.
  intros block.
  assert (In block (Detector.edgeCandidates stripedMargin)) as Hblock.
  { rewrite stripedMargin_edgeCandidates. left. reflexivity. }
  split; [exact Hblock|].
  exact (edge_candidates_are_inner_blocks stripedMargin block Hblock).
Defined.

Lemma signal_weights (low few contrast : bool) :
  low && few && contrast = true →
  ((if low then Num.dec 4 10 else 0)
   + (if few then Num.dec 3 10 else 0)
   + (if contrast then Num.dec 3 10 else 0))%Qc = Num.ofZ 1.
Proof.
  destruct low, few, contrast; cbn [andb]; intros H; try discriminate H.
  apply Qc_is_canon. reflexivity.
Qed.

Lemma analyzeColorBlock_like (d : list Z) (x y size w : Z) :
  (Detector.analyzeColorBlock d x y size w).1 = true →
  (Detector.analyzeColorBlock d x y size w).2 = Num.ofZ 1.
Proof.
  unfold Detector.analyzeColorBlock. cbv zeta. cbn [fst snd].
  apply signal_weights.
Qed.

(** A color candidate is a 30 x 30 block on the grid of multiples of 30
    that ends strictly before the right and bottom borders, and its
    confidence is always exactly 1: a block is pushed only when all three
    signals hold, and their weights 0.4, 0.3 and 0.3 add up to 1. *)
Theorem color_candidates_are_inner_blocks (img : ImageData) (r : TextRegion) :
  In r (Detector.colorCandidates img) →
  rwidth r = 30 ∧ rheight r = 30
  ∧ 0 ≤ rx r ∧ rx r mod 30 = 0 ∧ rx r + 30 < width img
  ∧ 0 ≤ ry r ∧ ry r mod 30 = 0 ∧ ry r + 30 < height img
  ∧ confidence r = Num.ofZ 1.
Proof.
  intros Hr. apply list_elem_of_In, elem_of_colorCandidates in Hr
    as (x & y & Hy & Hx & Hlike & ->).
  apply elem_of_range in Hy, Hx; [|lia..].
  rewrite Z.sub_0_r in Hy, Hx. cbn [rx ry rwidth rheight confidence].
  split; [reflexivity|]. split; [reflexivity|].
  split; [lia|]. split; [lia|]. split; [lia|].
  split; [lia|]. split; [lia|]. split; [lia|].
  by apply analyzeColorBlock_like.
Qed.

Lemma color_candidates_are_inner_blocks_witness :
  let block := mkRegion 0 0 30 30 (Num.ofZ 1) in
  In block (Detector.colorCandidates stripedMargin)
  ∧ rwidth block = 30 ∧ rheight block = 30
  ∧ 0 ≤ rx block ∧ rx block mod 30 = 0 ∧ rx block + 30 < width stripedMargin
  ∧ 0 ≤ ry block ∧ ry block mod 30 = 0 ∧ ry block + 30 < height stripedMargin
  ∧ confidence block = Num.ofZ 1.
Proof.
  intros block.
  assert (In block (Detector.colorCandidates stripedMargin)) as Hblock.
  { rewrite stripedMargin_colorCandidates. left. reflexivity. }
  split; [exact Hblock|].
  exact (color_candidates_are_inner_blocks stripedMargin block Hblock).
Defined.

Lemma range_nil (start limit step : Z) :
  limit ≤ start → Num.range start limit step = [].
Proof.
  intros Hle. unfold Num.range.
  by replace (Z.to_nat (limit - start)) with 0%nat by lia.
Qed.

(** An image that is not both wider than 30 and higher than 30 has no
    color block, and one that is not both wider than 20 and higher than 20
    has no edge block either: on an image at most 20 wide or at most 20 high
    detection finds nothing, and the pipeline returns no region and the
    globally enhanced image alone, whatever the other options. *)
Theorem small_image_gives_global_only (img : ImageData)
    (options : Detector.SmartOCROptions) :
  width img ≤ 20 ∨ height img ≤ 20 →
  Detector.edgeCandidates img = []
  ∧ Detector.colorCandidates img = []
  ∧ Detector.regions (Detector.detectAndExtractText img options) = []
  ∧ Detector.processedImages (Detector.detectAndExtractText img options)
    = [Detector.enhanced_global].
Proof.
  intros Hsmall.
  assert (Detector.edgeCandidates img = []) as Hedge.
  { apply elem_of_nil_inv. intros r Hr.
    apply elem_of_edgeCandidates in Hr as (x & y & Hy & Hx & _).
    apply elem_of_range in Hy, Hx; lia. }
  assert (Detector.colorCandidates img = []) as Hcolor.
  { apply elem_of_nil_inv. intros r Hr.
    apply elem_of_colorCandidates in Hr as (x & y & Hy & Hx & _).
    apply elem_of_range in Hy, Hx; lia. }
  assert (Detector.detectRegions img = []) as Hnone.
  { unfold Detector.detectRegions, Detector.detectTextByEdges,
      Detector.detectTextByColor.
    rewrite Hedge, Hcolor, detectTextByStroke_nil. reflexivity. }
  split; [done|]. split; [done|].
  unfold Detector.detectAndExtractText. rewrite Hnone.
  destruct (Detector.useTextDetection options); simpl;
    by rewrite orb_true_r.
Qed.

Lemma small_image_gives_global_only_witness :
  let options := Detector.getDefaultOptions in
  (width zebraColumn ≤ 20 ∨ height zebraColumn ≤ 20)
  ∧ Detector.edgeCandidates zebraColumn = []
  ∧ Detector.colorCandidates zebraColumn = []
  ∧ Detector.regions (Detector.detectAndExtractText zebraColumn options) = []
  ∧ Detector.processedImages (Detector.detectAndExtractText zebraColumn options)
    = [Detector.enhanced_global].
Proof.
  intros options.
  assert (width zebraColumn ≤ 20 ∨ height zebraColumn ≤ 20) as Hsmall
    by (left; simpl; lia).
  split; [exact Hsmall|].
  exact (small_image_gives_global_only zebraColumn options Hsmall).
Defined.

(** ** The files the pipeline returns *)

(** The processed images are the region images, in region order, when
    [enhanceTextRegions] is set, followed by the global image when
    [fallbackToOriginal] is set or no region was found.  So the pipeline
    returns no image at all exactly when regions were found and both
    options are off. *)
Theorem processedImages_empty_iff (img : ImageData)
    (options : Detector.SmartOCROptions) :
  let result := Detector.detectAndExtractText img options in
  Detector.processedImages result
  = (if Detector.enhanceTextRegions options
     then Detector.text_region <$> Detector.regions result else [])
    ++ (if Detector.fallbackToOriginal options
           || bool_decide (Detector.regions result = [])
        then [Detector.enhanced_global] else [])
  ∧ (Detector.processedImages result = []
     ↔ Detector.regions result ≠ []
       ∧ Detector.enhanceTextRegions options = false
       ∧ Detector.fallbackToOriginal options = false).
Proof.
  unfold Detector.detectAndExtractText. cbv zeta.
  cbn [Detector.regions Detector.processedImages].
  set (textRegions :=
         if Detector.useTextDetection options
         then Detector.detectRegions img else []).
  destruct textRegions as [|r rest];
    destruct (Detector.enhanceTextRegions options),
             (Detector.fallbackToOriginal options); simpl;
    rewrite ?app_nil_r;
    (split; [reflexivity|]); split; intros H; try done;
    destruct H as (? & ? & ?); done.
Qed.

(** ** More on the region merger *)

Lemma anchor_length (regions : list TextRegion)
    (st : list TextRegion * gset nat) (i : nat) :
  (length (Detector.anchor regions st i).1 ≤ S (length st.1))%nat.
Proof.
  destruct st as [merged used]. unfold Detector.anchor.
  destruct (decide (i ∈ used)); [simpl; lia|].
  destruct (regions !! i); [|simpl; lia].
  destruct (foldl _ _ _) as [cur used']. simpl.
  rewrite length_app. simpl. lia.
Qed.

Lemma foldl_anchor_length (regions : list TextRegion) (l : list nat)
    (st : list TextRegion * gset nat) :
  (length (foldl (Detector.anchor regions) st l).1
   ≤ length st.1 + length l)%nat.
Proof.
  revert st. induction l as [|i l IH]; intros st; simpl; [lia|].
  specialize (IH (Detector.anchor regions st i)).
  pose proof (anchor_length regions st i). lia.
Qed.

(** The merger never returns more regions than it is given; in
    particular it returns none for none. *)
Theorem merge_returns_no_more_regions (regions : list TextRegion) :
  (length (Detector.mergeNearbyRegions regions) ≤ length regions)%nat.
Proof.
  unfold Detector.mergeNearbyRegions.
  etransitivity; [apply filter_length_le|].
  pose proof (foldl_anchor_length regions (seq 0 (length regions)) ([], ∅))
    as Hlen.
  rewrite length_seq in Hlen. exact Hlen.
Qed.

(** A list of regions that all pass the size filter and whose top-left
    corners are pairwise at distance 50 or more is returned as it is, in
    the same order. *)
Theorem far_apart_regions_are_kept (regions : list TextRegion) :
  pairwiseFar regions = true →
  Forall (λ r, Detector.bigEnough r = true) regions →
  Detector.mergeNearbyRegions regions = regions.
Proof. apply mergeNearbyRegions_fixed. Qed.

Lemma far_apart_regions_are_kept_witness :
  let regions := [ mkRegion 0 0 30 30 (Num.dec 1 2);
                   mkRegion 60 0 21 11 (Num.dec 1 4);
                   mkRegion 0 50 40 40 (Num.dec 3 4) ] in
  pairwiseFar regions = true
  ∧ Forall (λ r, Detector.bigEnough r = true) regions
  ∧ Detector.mergeNearbyRegions regions = regions.
Proof.
  intros regions.
  assert (pairwiseFar regions = true) as Hfar by reflexivity.
  assert (Forall (λ r, Detector.bigEnough r = true) regions) as Hbig.
  { repeat (constructor; [reflexivity|]). constructor. }
  split; [exact Hfar|]. split; [exact Hbig|].
  exact (far_apart_regions_are_kept regions Hfar Hbig).
Defined.

Lemma max_ge_l (a b : Qc) : (a ≤ Num.max a b)%Qc.
Proof.
  unfold Num.max. destruct (Num.ltb a b) eqn:Hlt.
  - apply ltb_spec in Hlt. by apply Qclt_le_weak.
  - apply Qcle_refl.
Qed.

Lemma covers_refl (a : TextRegion) : covers a a.
Proof. unfold covers. repeat split; try lia. apply Qcle_refl. Qed.

Lemma covers_trans (a b c : TextRegion) : covers a b → covers b c → covers a c.
Proof.
  unfold covers. intros (? & ? & ? & ? & ?) (? & ? & ? & ? & ?).
  repeat split; try lia. by eapply Qcle_trans.
Qed.

Lemma expand_covers (cur other : TextRegion) :
  covers (Detector.expand cur other) cur.
Proof.
  unfold covers, Detector.expand. simpl. repeat split; try lia.
  apply max_ge_l.
Qed.

Lemma absorb_covers (regions : list TextRegion) (js : list nat)
    (cur : TextRegion) (used : gset nat) :
  covers (foldl (Detector.absorb regions) (cur, used) js).1 cur.
Proof.
  revert cur used. induction js as [|j js IH]; intros cur used; simpl;
    [apply covers_refl|].
  destruct (decide (j ∈ used)); [apply IH|].
  destruct (regions !! j) as [other|]; [|apply IH].
  destruct (Detector.near cur other); [|apply IH].
  eapply covers_trans; [apply IH | apply expand_covers].
Qed.

Lemma foldl_anchor_covers (regions : list TextRegion) (l : list nat)
    (st : list TextRegion * gset nat) :
  Forall (λ out, ∃ r, r ∈ regions ∧ covers out r) st.1 →
  Forall (λ out, ∃ r, r ∈ regions ∧ covers out r)
         (foldl (Detector.anchor regions) st l).1.
Proof.
  revert st. induction l as [|i l IH]; intros [merged used] Hst; simpl;
    [done|].
  apply IH. destruct (decide (i ∈ used)); [done|].
  destruct (regions !! i) as [r|] eqn:Hr; [|done].
  pose proof (absorb_covers regions (seq (S i) (length regions - S i)) r
                ({[i]} ∪ used)) as Hcov.
  destruct (foldl _ _ _) as [cur used']. simpl in *.
  apply Forall_app. split; [done|]. constructor; [|constructor].
  exists r. split; [by eapply list_elem_of_lookup_2 | done].
Qed.

(** Every region the merger returns covers at least one of the regions it
    was given (the one that anchored it): its box contains that region's
    box and its confidence is at least that region's. *)
Theorem merged_region_covers_a_candidate (regions : list TextRegion)
    (out : TextRegion) :
  In out (Detector.mergeNearbyRegions regions) →
  ∃ r, In r regions ∧ covers out r.
Proof.
  intros Hout. unfold Detector.mergeNearbyRegions in Hout.
  apply filter_In in Hout as [Hout _]. apply list_elem_of_In in Hout.
  pose proof (foldl_anchor_covers regions (seq 0 (length regions)) ([], ∅)
                (Forall_nil _)) as Hall.
  rewrite list.Forall_forall in Hall.
  destruct (Hall out Hout) as (r & Hr & Hcov).
  exists r. split; [by apply list_elem_of_In | done].
Qed.

Lemma merged_region_covers_a_candidate_witness :
  let regions := [ mkRegion 0 0 20 20 (Num.dec 1 2);
                   mkRegion 20 10 20 20 (Num.dec 3 4) ] in
  let out := mkRegion 0 0 40 30 (Num.dec 3 4) in
  In out (Detector.mergeNearbyRegions regions)
  ∧ ∃ r, In r regions ∧ covers out r.
Proof.
  intros regions out.
  assert (In out (Detector.mergeNearbyRegions regions)) as Hout.
  { left. apply region_eq. vm_compute. reflexivity. }
  split; [exact Hout|].
  exact (merged_region_covers_a_candidate regions out Hout).
Defined.

(** ** More on Otsu's threshold *)

Lemma otsuLoop_range (histogram : list Z) (sum : Z) (totalPixels : Qc)
    (levels : list Z) :
  Forall (λ i, 0 ≤ i ≤ 255) levels →
  ∀ (sumB wB : Z) (varMax : Double.t) (threshold : Z),
    0 ≤ threshold ≤ 255 →
    0 ≤ Preprocessor.otsuLoop histogram sum totalPixels levels
          sumB wB varMax threshold ≤ 255.
Proof.
  induction 1 as [|i levels Hi _ IH]; intros sumB wB varMax threshold Hthr;
    cbn [Preprocessor.otsuLoop]; [done|].
  cbv zeta. destruct (_ =? 0); [by apply IH|].
  destruct (decide _); [done|].
  destruct (Double.gtb _ _); by apply IH.
Qed.

(** Whatever the histogram and the pixel count it is given,
    [calculateOtsuThreshold] returns a gray level between 0 and 255. *)
Theorem otsu_threshold_is_a_gray_level (histogram : list Z)
    (totalPixels : Qc) :
  0 ≤ Preprocessor.calculateOtsuThreshold histogram totalPixels ≤ 255
  ∧ 0 ≤ Detector.calculateOtsuThreshold histogram totalPixels ≤ 255.
Proof.
  assert (0 ≤ Preprocessor.calculateOtsuThreshold histogram totalPixels ≤ 255)
    as Hrange; [|by split].
  unfold Preprocessor.calculateOtsuThreshold.
  destruct (len histogram <? 256); [lia|].
  apply otsuLoop_range; [|lia].
  apply list.Forall_forall. intros i Hi. apply elem_of_range in Hi; lia.
Qed.

Lemma otsuLoop_skip_empty (histogram : list Z) (sum : Z) (totalPixels : Qc)
    (empty rest : list Z) (sumB : Z) (varMax : Double.t) (threshold : Z) :
  Forall (λ i, get histogram i = 0) empty →
  Preprocessor.otsuLoop histogram sum totalPixels (empty ++ rest)
    sumB 0 varMax threshold
  = Preprocessor.otsuLoop histogram sum totalPixels rest
      sumB 0 varMax threshold.
Proof.
  induction 1 as [|i empty Hi _ IH]; [done|].
  cbn [app Preprocessor.otsuLoop]. cbv zeta. rewrite Hi. exact IH.
Qed.

Lemma get_singleLevel (level count i : Z) :
  0 ≤ level < 256 →
  get (singleLevel level count) i = if i =? level then count else 0.
Proof.
  intros Hlevel. unfold singleLevel.
  destruct (Z.eqb_spec i level) as [->|Hne].
  - apply get_store_eq. unfold len. rewrite length_replicate. lia.
  - rewrite get_store_ne by done. apply get_zeros.
Qed.

(** When all the pixels have one gray level, the foreground class is
    empty as soon as the background is not: the loop breaks before any
    comparison and the threshold is 0, whatever that gray level. *)
Theorem otsu_single_level_is_zero (level count : Z) :
  0 ≤ level < 256 → 0 < count →
  Preprocessor.calculateOtsuThreshold (singleLevel level count)
    (Num.ofZ count) = 0.
Proof.
  intros Hlevel Hcount. unfold Preprocessor.calculateOtsuThreshold.
  assert (len (singleLevel level count) = 256) as ->
    by (unfold singleLevel; by rewrite len_store).
  change (256 <? 256) with false. cbv iota.
  rewrite range_levels.
  replace 256%nat with (Z.to_nat level + S (255 - Z.to_nat level))%nat by lia.
  rewrite seq_app, fmap_app, otsuLoop_skip_empty.
  - change (0 + Z.to_nat level)%nat with (Z.to_nat level).
    cbn [seq fmap list_fmap Preprocessor.otsuLoop]. cbv zeta.
    rewrite Z2Nat.id by lia. rewrite get_singleLevel by done.
    rewrite Z.eqb_refl, Z.add_0_l.
    destruct (Z.eqb_spec count 0); [lia|].
    rewrite decide_True; [done|]. by apply Qc_sub_eq_0.
  - apply list.Forall_forall. intros i Hi.
    apply list_elem_of_fmap in Hi as (k & -> & Hk). apply elem_of_seq in Hk.
    rewrite get_singleLevel by done.
    destruct (Z.eqb_spec (Z.of_nat k) level); [lia | done].
Qed.

Lemma otsu_single_level_is_zero_witness :
  0 ≤ 200 < 256 ∧ 0 < 7
  ∧ Preprocessor.calculateOtsuThreshold (singleLevel 200 7) (Num.ofZ 7) = 0.
Proof.
  assert (0 ≤ 200 < 256) as Hlevel by lia.
  assert (0 < 7) as Hcount by lia.
  split; [exact Hlevel|]. split; [exact Hcount|].
  exact (otsu_single_level_is_zero 200 7 Hlevel Hcount).
Defined.

(** ** The color scanner on a block of one color *)

Lemma ofZ_mul (a b : Z) : Num.ofZ (a * b) = (Num.ofZ a * Num.ofZ b)%Qc.
Proof.
  apply Qc_is_canon. unfold Num.ofZ. simpl.
  rewrite !Qred_correct. by rewrite inject_Z_mult.
Qed.

Lemma ofZ_mul_div (m a : Z) :
  m ≠ 0 → (Num.ofZ (m * a) / Num.ofZ m)%Qc = Num.ofZ a.
Proof.
  intros Hm. rewrite ofZ_mul. field. by rewrite ofZ_eq_0.
Qed.

Lemma channelSum_replicate (channel : Detector.Color → Z) (k : nat)
    (c : Detector.Color) :
  Detector.channelSum channel (replicate k c) = Z.of_nat k * channel c.
Proof.
  unfold Detector.channelSum.
  assert (∀ a, foldl (λ sum c0, sum + channel c0) a (replicate k c)
               = a + Z.of_nat k * channel c) as Hgen; [|by rewrite Hgen].
  induction k as [|k IH]; intros a; simpl; [lia|]. rewrite IH. lia.
Qed.

Lemma colorVarianceSquared_replicate (k : nat) (c : Detector.Color) :
  Detector.colorVarianceSquared (replicate k c) = 0%Qc.
Proof.
  destruct k as [|k]; [done|].
  unfold Detector.colorVarianceSquared.
  change (replicate (S k) c) with (c :: replicate k c) at 1.
  cbv beta iota zeta.
  rewrite !channelSum_replicate, length_replicate.
  rewrite !ofZ_mul_div by lia.
  assert (∀ a, foldl (λ sum c0,
      sum + (Num.ofZ (Detector.r c0) - Num.ofZ (Detector.r c))
            * (Num.ofZ (Detector.r c0) - Num.ofZ (Detector.r c))
          + (Num.ofZ (Detector.g c0) - Num.ofZ (Detector.g c))
            * (Num.ofZ (Detector.g c0) - Num.ofZ (Detector.g c))
          + (Num.ofZ (Detector.b c0) - Num.ofZ (Detector.b c))
            * (Num.ofZ (Detector.b c0) - Num.ofZ (Detector.b c)))%Qc
      a (replicate (S k) c) = a) as ->.
  { generalize (S k). intros m. induction m as [|m IH]; intros a; [done|].
    cbn [replicate foldl]. rewrite IH. ring. }
  unfold Qcdiv. ring.
Qed.

Lemma findDominantColors_replicate (k : nat) (c : Detector.Color) :
  (length (Detector.findDominantColors (replicate k c) 3) ≤ 1)%nat.
Proof.
  unfold Detector.findDominantColors.
  set (q := {| Detector.r := Detector.quantize32 (Detector.r c);
               Detector.g := Detector.quantize32 (Detector.g c);
               Detector.b := Detector.quantize32 (Detector.b c) |}).
  assert (∀ m n, foldl (λ colorMap color,
      Detector.countColor
        {| Detector.r := Detector.quantize32 (Detector.r color);
           Detector.g := Detector.quantize32 (Detector.g color);
           Detector.b := Detector.quantize32 (Detector.b color) |} colorMap)
      [(q, n)] (replicate m c) = [(q, n + Z.of_nat m)]) as Hone.
  { induction m as [|m IH]; intros n; cbn [replicate foldl].
    - by rewrite Z.add_0_r.
    - fold q. cbn [Detector.countColor]. rewrite decide_True by done.
      rewrite IH. do 2 f_equal. lia. }
  destruct k as [|k]; [simpl; lia|].
  cbn [replicate foldl Detector.countColor]. fold q. rewrite Hone.
  simpl. lia.
Qed.

Lemma hasHighContrast_short (colors : list (Detector.Color * Z)) :
  (length colors ≤ 1)%nat → Detector.hasHighContrast colors = false.
Proof.
  destruct colors as [|[c1 n1] [|[c2 n2] rest]]; simpl; [done | done | lia].
Qed.

Lemma replicate_snoc {A : Type} (k : nat) (a : A) :
  replicate k a ++ [a] = replicate (S k) a.
Proof. by rewrite replicate_S_end. Qed.

Lemma block_colors_uniform (d : list Z) (x y w : Z) (c : Detector.Color)
    (offsets : list (Z * Z)) (k0 : nat) :
  (∀ dy dx, (dy, dx) ∈ offsets →
     let idx := ((y + dy) * w + (x + dx)) * 4 in
     idx < len d →
     get d idx = Detector.r c ∧ get d (idx + 1) = Detector.g c
     ∧ get d (idx + 2) = Detector.b c) →
  ∃ k, foldl (λ colors '(dy, dx),
                let idx := ((y + dy) * w + (x + dx)) * 4 in
                if idx <? len d
                then colors ++ [ {| Detector.r := get d idx;
                                    Detector.g := get d (idx + 1);
                                    Detector.b := get d (idx + 2) |} ]
                else colors) (replicate k0 c) offsets
       = replicate k c.
Proof.
  revert k0. induction offsets as [|[dy dx] offsets IH]; intros k0 Hsame.
  - by exists k0.
  - cbn [foldl]. cbv zeta.
    destruct (Z.ltb_spec (((y + dy) * w + (x + dx)) * 4) (len d)) as [Hin|_].
    + destruct (Hsame dy dx) as (-> & -> & ->); [by left | done |].
      replace {| Detector.r := Detector.r c; Detector.g := Detector.g c;
                 Detector.b := Detector.b c |} with c by (by destruct c).
      rewrite replicate_snoc. apply IH.
      intros dy' dx' Hin' idx' Hlt'. apply Hsame; [by right | done].
    + apply IH. intros dy' dx' Hin' idx' Hlt'. apply Hsame; [by right | done].
Qed.

(** A block whose pixels all have one color is not text-like for the
    color scanner: its variance is 0 and it has few colors, but with a
    single dominant color there is no contrast, so [analyzeColorBlock]
    answers [(false, 0.7)]. *)
Theorem uniform_block_is_not_text_like (d : list Z) (x y size w : Z)
    (c : Detector.Color) :
  (∀ dy dx, 0 ≤ dy < size → 0 ≤ dx < size →
     let idx := ((y + dy) * w + (x + dx)) * 4 in
     idx < len d →
     get d idx = Detector.r c ∧ get d (idx + 1) = Detector.g c
     ∧ get d (idx + 2) = Detector.b c) →
  Detector.analyzeColorBlock d x y size w = (false, Num.dec 7 10).
Proof.
  intros Hsame. unfold Detector.analyzeColorBlock.
  destruct (block_colors_uniform d x y w c (Detector.blockOffsets size) 0)
    as [k Hk].
  { intros dy dx Hin. apply Hsame.
    - unfold Detector.blockOffsets in Hin.
      apply list_elem_of_bind in Hin as (dy' & Hin & Hdy).
      apply list_elem_of_bind in Hin as (dx' & Hin & Hdx).
      apply list_elem_of_singleton in Hin as [= -> ->].
      apply elem_of_range in Hdy; lia.
    - unfold Detector.blockOffsets in Hin.
      apply list_elem_of_bind in Hin as (dy' & Hin & Hdy).
      apply list_elem_of_bind in Hin as (dx' & Hin & Hdx).
      apply list_elem_of_singleton in Hin as [= -> ->].
      apply elem_of_range in Hdx; lia. }
  cbv zeta. cbn [replicate] in Hk. rewrite Hk.
  rewrite colorVarianceSquared_replicate,
    (hasHighContrast_short _ (findDominantColors_replicate k c)).
  rewrite bool_decide_eq_true_2
    by (pose proof (findDominantColors_replicate k c); lia).
  reflexivity.
Qed.

Lemma uniform_block_is_not_text_like_witness :
  let d := replicate 16 7 in
  let c := Detector.mkColor 7 7 7 in
  (∀ dy dx, 0 ≤ dy < 2 → 0 ≤ dx < 2 →
     let idx := ((0 + dy) * 2 + (0 + dx)) * 4 in
     idx < len d →
     get d idx = Detector.r c ∧ get d (idx + 1) = Detector.g c
     ∧ get d (idx + 2) = Detector.b c)
  ∧ Detector.analyzeColorBlock d 0 0 2 2 = (false, Num.dec 7 10).
Proof.
  intros d c.
  assert (∀ dy dx, 0 ≤ dy < 2 → 0 ≤ dx < 2 →
     let idx := ((0 + dy) * 2 + (0 + dx)) * 4 in
     idx < len d →
     get d idx = Detector.r c ∧ get d (idx + 1) = Detector.g c
     ∧ get d (idx + 2) = Detector.b c) as Hsame.
  { intros dy dx Hdy Hdx idx _.
    assert (dy = 0 ∨ dy = 1) as Hy by lia.
    assert (dx = 0 ∨ dx = 1) as Hx by lia.
    destruct Hy as [-> | ->], Hx as [-> | ->];
      (split; [reflexivity | split; reflexivity]). }
  split; [exact Hsame|].
  exact (uniform_block_is_not_text_like d 0 0 2 2 c Hsame).
Defined.

(** ** The bimodal-peak threshold *)

Lemma insertByCount_perm {A : Type} (e : A * Z) (sorted : list (A * Z)) :
  Detector.insertByCount e sorted ≡ₚ e :: sorted.
Proof.
  induction sorted as [|e' sorted IH]; simpl; [done|].
  destruct (e'.2 <? e.2); [done|]. rewrite IH. apply perm_swap.
Qed.

Lemma sortByCount_perm {A : Type} (entries : list (A * Z)) :
  Detector.sortByCount entries ≡ₚ entries.
Proof.
  unfold Detector.sortByCount.
  assert (∀ acc, foldl (λ sorted e, Detector.insertByCount e sorted)
                       acc entries ≡ₚ acc ++ entries) as Hgen;
    [|by rewrite Hgen].
  induction entries as [|e entries IH]; intros acc; simpl.
  - by rewrite app_nil_r.
  - rewrite IH, insertByCount_perm. simpl. apply Permutation_middle.
Qed.

Lemma omap_fst_sublist (cond : Z → bool) (value : Z → Z) (l : list Z) :
  (omap (λ i, if cond i then Some (i, value i) else None) l).*1
  `sublist_of` l.
Proof.
  induction l as [|i l IH]; simpl; [done|].
  destruct (cond i); simpl; [by apply sublist_skip | by apply sublist_cons].
Qed.

(** The raw list of peaks of [findHistogramPeaks], before sorting. *)
Lemma peaks_before_sorting (histogram : list Z) :
  foldl (λ peaks i,
           if (get histogram (i - 1) <? get histogram i)
              && (get histogram (i + 1) <? get histogram i)
              && (100 <? get histogram i)
           then peaks ++ [(i, get histogram i)] else peaks)
        [] (Num.range 1 (len histogram - 1) 1)
  = omap (λ i, if (get histogram (i - 1) <? get histogram i)
                  && (get histogram (i + 1) <? get histogram i)
                  && (100 <? get histogram i)
               then Some (i, get histogram i) else None)
         (Num.range 1 (len histogram - 1) 1).
Proof.
  rewrite <- (app_nil_l (omap _ _)), <- foldl_push.
  apply foldl_ext_in. intros acc i _. by destruct (_ && _).
Qed.

(** [findHistogramPeaks] returns at most two levels, all different; each
    is an inner level whose count exceeds 100 and the counts of both its
    neighbours. *)
Theorem histogram_peaks_are_local_maxima (histogram : list Z) :
  (length (Detector.findHistogramPeaks histogram) ≤ 2)%nat
  ∧ NoDup (Detector.findHistogramPeaks histogram)
  ∧ ∀ p, In p (Detector.findHistogramPeaks histogram) →
         1 ≤ p < len histogram - 1
         ∧ get histogram (p - 1) < get histogram p
         ∧ get histogram (p + 1) < get histogram p
         ∧ 100 < get histogram p.
Proof.
  unfold Detector.findHistogramPeaks. cbv zeta.
  rewrite peaks_before_sorting.
  set (peaks := omap _ _). split; [|split].
  - rewrite length_fmap, length_take. lia.
  - rewrite fmap_take. eapply sublist_NoDup; [|apply sublist_take].
    rewrite (sortByCount_perm peaks).
    eapply sublist_NoDup; [|apply omap_fst_sublist].
    apply NoDup_range. lia.
  - intros p Hp. apply list_elem_of_In, list_elem_of_fmap in Hp
      as ([p' count] & -> & Hp).
    apply (λ H, elem_of_sublist _ _ _ H (sublist_take _ 2)) in Hp.
    rewrite (sortByCount_perm peaks) in Hp.
    apply list_elem_of_omap in Hp as (i & Hi & Hsome).
    apply elem_of_range in Hi; [|lia].
    destruct (_ && _) eqn:Hcond; [|done]. injection Hsome as <- <-.
    apply andb_prop in Hcond as [Hcond H100].
    apply andb_prop in Hcond as [Hprev Hnext].
    apply Z.ltb_lt in Hprev, Hnext, H100. simpl. lia.
Qed.

Lemma round_half (a : Z) : Num.round (Num.ofZ a / Num.ofZ 2)%Qc = (a + 1) / 2.
Proof.
  unfold Num.round. rewrite (Zdiv_Qdiv (a + 1) 2).
  apply Qfloor_comp. unfold Num.dec, Num.ofZ, Qcplus, Qcdiv, Qcmult, Qcinv, Q2Qc.
  cbn [this]. rewrite !Qred_correct. rewrite inject_Z_plus. field.
Qed.

(** When the histogram has two peaks, [calculateAdaptiveThreshold] returns
    the rounded mean of the two levels, and since two local maxima are
    never neighbours this lies strictly between them. *)
Theorem adaptive_threshold_between_peaks (img : ImageData) (p0 p1 : Z)
    (rest : list Z) :
  Detector.findHistogramPeaks (Detector.buildHistogram (data img))
  = p0 :: p1 :: rest →
  rest = []
  ∧ Detector.calculateAdaptiveThreshold img = (p0 + p1 + 1) / 2
  ∧ Z.min p0 p1 < Detector.calculateAdaptiveThreshold img < Z.max p0 p1.
Proof.
  intros Hpeaks.
  destruct (histogram_peaks_are_local_maxima
              (Detector.buildHistogram (data img))) as (Hlen & Hnodup & Hmax).
  rewrite Hpeaks in Hlen, Hnodup, Hmax.
  assert (rest = []) as ->.
  { destruct rest; [done | simpl in Hlen; lia]. }
  assert (Detector.calculateAdaptiveThreshold img = (p0 + p1 + 1) / 2) as Ht.
  { unfold Detector.calculateAdaptiveThreshold. cbv zeta.
    rewrite Hpeaks. apply round_half. }
  split; [done|]. split; [done|]. rewrite Ht.
  assert (p0 ≠ p1) as Hne.
  { apply list.NoDup_cons in Hnodup as [Hnotin _]. intros ->. apply Hnotin. by left. }
  destruct (Hmax p0) as (_ & Hprev0 & Hnext0 & _); [by left|].
  destruct (Hmax p1) as (_ & Hprev1 & Hnext1 & _); [right; by left|].
  assert (p1 ≠ p0 + 1).
  { intros ->. replace (p0 + 1 - 1) with p0 in Hprev1 by lia. lia. }
  assert (p0 ≠ p1 + 1).
  { intros ->. replace (p1 + 1 - 1) with p1 in Hprev0 by lia. lia. }
  pose proof (Z.div_mod (p0 + p1 + 1) 2).
  pose proof (Z.mod_pos_bound (p0 + p1 + 1) 2). lia.
Qed.

Lemma adaptive_threshold_between_peaks_witness :
  Detector.findHistogramPeaks (Detector.buildHistogram (data twoTone))
  = [50; 200]
  ∧ Detector.calculateAdaptiveThreshold twoTone = (50 + 200 + 1) / 2
  ∧ Z.min 50 200 < Detector.calculateAdaptiveThreshold twoTone < Z.max 50 200.
Proof.
  assert (Detector.findHistogramPeaks (Detector.buildHistogram (data twoTone))
          = [50; 200]) as Hpeaks by (vm_compute; reflexivity).
  split; [exact Hpeaks|].
  exact (proj2 (adaptive_threshold_between_peaks twoTone 50 200 [] Hpeaks)).
Defined.

(** * The enhancement filters *)

(** ** Loops over the pixels of a buffer

    Every filter loop visits the pixel offsets 0, 4, 8, ... and writes the
    three color entries of the pixel it is at.  [step] is one turn of such a
    loop and [value d i c] the value it writes to entry [i + c]. *)

Section PixelStep.

Variable step : list Z → Z → list Z.
Variable value : list Z → Z → Z → Z.

Hypothesis len_step : ∀ d i, len (step d i) = len d.
Hypothesis get_step_other : ∀ d i j,
  ¬ (i ≤ j ≤ i + 2) → get (step d i) j = get d j.
Hypothesis get_step_color : ∀ d i c,
  0 ≤ i → 0 ≤ c ≤ 2 → i + c < len d → get (step d i) (i + c) = value d i c.
Hypothesis value_local : ∀ d d' i c,
  0 ≤ c ≤ 2 →
  get d i = get d' i → get d (i + 1) = get d' (i + 1) →
  get d (i + 2) = get d' (i + 2) → value d i c = value d' i c.

Lemma len_foldl_step (offsets : list Z) (d : list Z) :
  len (foldl step d offsets) = len d.
Proof.
  revert d. induction offsets as [|i offsets IH]; intros d; simpl; [done|].
  by rewrite IH, len_step.
Qed.

Lemma get_foldl_step_other (offsets : list Z) (d : list Z) (j : Z) :
  (∀ i, i ∈ offsets → ¬ (i ≤ j ≤ i + 2)) →
  get (foldl step d offsets) j = get d j.
Proof.
  revert d. induction offsets as [|i offsets IH]; intros d Hj; simpl; [done|].
  rewrite IH by (intros; apply Hj; by right).
  apply get_step_other, Hj. by left.
Qed.

Lemma get_foldl_step_color (offsets : list Z) (d : list Z) (i c : Z) :
  NoDup offsets → (∀ i', i' ∈ offsets → 0 ≤ i' ∧ i' mod 4 = 0) →
  i ∈ offsets → 0 ≤ c ≤ 2 → i + c < len d →
  get (foldl step d offsets) (i + c) = value d i c.
Proof.
  revert d. induction offsets as [|i0 offsets IH];
    intros d Hnodup Hoff Hi Hc Hlen; [by apply elem_of_nil in Hi|].
  apply list.NoDup_cons in Hnodup as [Hi0 Hnodup]. simpl.
  assert (0 ≤ i ∧ i mod 4 = 0) as [Hi_pos Hi_mod] by (by apply Hoff).
  assert (0 ≤ i0 ∧ i0 mod 4 = 0) as [Hi0_pos Hi0_mod]
    by (apply Hoff; by left).
  destruct (decide (i = i0)) as [->|Hne].
  - rewrite get_foldl_step_other.
    + by apply get_step_color.
    + intros i' Hi'.
      assert (0 ≤ i' ∧ i' mod 4 = 0) as [? ?] by (apply Hoff; by right).
      assert (i' ≠ i0) by (intros ->; done).
      pose proof (Z.div_mod i' 4). pose proof (Z.div_mod i0 4). lia.
  - apply elem_of_cons in Hi as [?|Hi]; [done|].
    rewrite IH; [| done | intros; apply Hoff; by right | done | done
                 | by rewrite len_step].
    pose proof (Z.div_mod i 4). pose proof (Z.div_mod i0 4).
    apply value_local; [done | apply get_step_other; lia..].
Qed.

(** After the loop, a color entry within the buffer holds the value
    computed from its pixel as it was before the loop, and the alpha entries
    hold what they held. *)
Lemma pixel_loop_color (d : list Z) (p c : Z) :
  0 ≤ p → 0 ≤ c ≤ 2 → 4 * p + c < len d →
  get (foldl step d (Preprocessor.pixelOffsets d)) (4 * p + c)
  = value d (4 * p) c.
Proof.
  intros Hp Hc Hlen. apply get_foldl_step_color; [| | |done|done].
  - apply NoDup_range. lia.
  - intros i Hi. apply elem_of_pixelOffsets in Hi. lia.
  - apply elem_of_pixelOffsets. split; [lia|].
    rewrite Z.mul_comm. apply Z.mod_mul. lia.
Qed.

Lemma pixel_loop_alpha (d : list Z) (p : Z) :
  get (foldl step d (Preprocessor.pixelOffsets d)) (4 * p + 3)
  = get d (4 * p + 3).
Proof.
  apply get_foldl_step_other. intros i Hi.
  apply elem_of_pixelOffsets in Hi. pose proof (Z.div_mod i 4). lia.
Qed.

End PixelStep.

Lemma len_mapChannels (f : Z → Z) (d : list Z) (i : Z) :
  len (mapChannels f d i) = len d.
Proof. unfold mapChannels. by rewrite !len_store. Qed.

Lemma get_mapChannels_other (f : Z → Z) (d : list Z) (i j : Z) :
  ¬ (i ≤ j ≤ i + 2) → get (mapChannels f d i) j = get d j.
Proof. intros Hj. unfold mapChannels. by rewrite !get_store_ne by lia. Qed.

Lemma get_mapChannels_color (f : Z → Z) (d : list Z) (i c : Z) :
  0 ≤ i → 0 ≤ c ≤ 2 → i + c < len d →
  get (mapChannels f d i) (i + c) = f (get d (i + c)).
Proof.
  intros Hi Hc Hlen. unfold mapChannels.
  assert (c = 0 ∨ c = 1 ∨ c = 2) as [-> | [-> | ->]] by lia.
  - rewrite Z.add_0_r, !get_store_ne, get_store_eq by lia. done.
  - rewrite get_store_ne, get_store_eq by (rewrite ?len_store; lia).
    by rewrite get_store_ne by lia.
  - rewrite get_store_eq by (rewrite ?len_store; lia).
    by rewrite !get_store_ne by lia.
Qed.

(** What a loop of [mapChannels] leaves in the buffer. *)
Lemma mapChannels_loop (f : Z → Z) (d : list Z) :
  let out := foldl (mapChannels f) d (Preprocessor.pixelOffsets d) in
  len out = len d
  ∧ (∀ p c, 0 ≤ p → 0 ≤ c ≤ 2 → 4 * p + c < len d →
            get out (4 * p + c) = f (get d (4 * p + c)))
  ∧ (∀ p, get out (4 * p + 3) = get d (4 * p + 3)).
Proof.
  split; [apply len_foldl_step, len_mapChannels|]. split.
  - intros p c Hp Hc Hlen.
    apply (pixel_loop_color (mapChannels f) (λ d i c, f (get d (i + c))));
      try done.
    + apply len_mapChannels.
    + apply get_mapChannels_other.
    + apply get_mapChannels_color.
    + intros d1 d2 i c' Hc' H0 H1 H2. cbv beta.
      assert (c' = 0 ∨ c' = 1 ∨ c' = 2) as [-> | [-> | ->]] by lia;
        [rewrite Z.add_0_r| |]; congruence.
  - intros p. apply pixel_loop_alpha. apply get_mapChannels_other.
Qed.

(** ** Contrast *)

Lemma Qfloor_unique (x : Q) (n : Z) :
  (inject_Z n <= x)%Q → (x < inject_Z (n + 1))%Q → Qfloor x = n.
Proof.
  intros Hle Hlt.
  pose proof (Qfloor_le x) as Hf1. pose proof (Qlt_floor x) as Hf2.
  assert (inject_Z (Qfloor x) < inject_Z (n + 1))%Q as H1
    by (eapply Qle_lt_trans; eauto).
  assert (inject_Z n < inject_Z (Qfloor x + 1))%Q as H2
    by (eapply Qle_lt_trans; eauto).
  rewrite <- Zlt_Qlt in H1, H2. lia.
Qed.

Lemma this_ofZ (n : Z) : (this (Num.ofZ n) == inject_Z n)%Q.
Proof. unfold Num.ofZ. simpl. apply Qred_correct. Qed.


Lemma half_above (n : Z) : (Num.ofZ n < Num.ofZ n + Num.dec 1 2)%Qc.
Proof.
  unfold Qclt, Qcplus, Num.dec, Num.ofZ, Qcdiv, Qcmult, Qcinv, Q2Qc.
  cbn [this]. rewrite !Qred_correct. unfold Qlt. simpl. lia.
Qed.

Lemma toUint8Clamp_byte (n : Z) :
  0 ≤ n ≤ 255 → toUint8Clamp (Num.ofZ n) = n.
Proof.
  intros Hn. unfold toUint8Clamp.
  destruct (Num.ltb 0 (Num.ofZ n)) eqn:Hpos.
  - apply ltb_spec, (ofZ_lt 0) in Hpos.
    destruct (Num.ltb (Num.ofZ n) (Num.ofZ 255)) eqn:Hlt.
    + cbv zeta.
      assert (Qfloor (Num.ofZ n) = n) as ->.
      { rewrite (Qfloor_comp _ _ (this_ofZ n)). apply Qfloor_Z. }
      destruct (Num.ltb (Num.ofZ n + Num.dec 1 2) (Num.ofZ n)) eqn:Habove.
      { apply ltb_spec in Habove. exfalso.
        apply (Qclt_not_le _ _ Habove), Qclt_le_weak, half_above. }
      by rewrite (proj2 (ltb_spec _ _) (half_above n)).
    + apply bool_decide_eq_false in Hlt. rewrite ofZ_lt in Hlt. lia.
  - apply bool_decide_eq_false in Hpos. rewrite (ofZ_lt 0) in Hpos. lia.
Qed.

Lemma contrastEntry_one (v : Z) :
  0 ≤ v ≤ 255 → Preprocessor.contrastEntry 1%Qc v = v.
Proof.
  intros Hv. unfold Preprocessor.contrastEntry.
  replace ((Num.ofZ v - Num.ofZ 128) * 1 + Num.ofZ 128)%Qc with (Num.ofZ v)
    by ring.
  assert (Num.max 0 (Num.ofZ v) = Num.ofZ v) as ->.
  { unfold Num.max. destruct (Num.ltb 0 (Num.ofZ v)) eqn:Hpos; [done|].
    apply bool_decide_eq_false in Hpos. rewrite (ofZ_lt 0) in Hpos.
    by replace v with 0 by lia. }
  assert (Num.min (Num.ofZ 255) (Num.ofZ v) = Num.ofZ v) as ->.
  { unfold Num.min. destruct (Num.ltb (Num.ofZ v) (Num.ofZ 255)) eqn:Hlt;
      [done|].
    apply bool_decide_eq_false in Hlt. rewrite ofZ_lt in Hlt.
    by replace v with 255 by lia. }
  by apply toUint8Clamp_byte.
Qed.

Lemma contrastEntry_middle (factor : Qc) :
  Preprocessor.contrastEntry factor 128 = 128.
Proof.
  unfold Preprocessor.contrastEntry.
  replace ((Num.ofZ 128 - Num.ofZ 128) * factor + Num.ofZ 128)%Qc
    with (Num.ofZ 128) by ring.
  reflexivity.
Qed.



Lemma get_ext (a b : list Z) :
  len a = len b → (∀ j, 0 ≤ j < len a → get a j = get b j) → a = b.
Proof.
  unfold len, get. intros Hlen Hget.
  apply (nth_ext a b 0 0); [lia|]. intros n Hn.
  specialize (Hget (Z.of_nat n)).
  destruct (Z.ltb_spec (Z.of_nat n) 0); [lia|].
  rewrite Nat2Z.id in Hget. apply Hget. lia.
Qed.

(** At factor 1 [increaseContrast] returns a buffer of channel values as
    it is, and at every factor a color entry 128 stays 128. *)
Theorem contrast_factor_one_is_identity (img : ImageData) (factor : Qc) :
  Forall (λ v, 0 ≤ v ≤ 255) (data img) →
  data (Detector.increaseContrast img 1%Qc) = data img
  ∧ Preprocessor.contrastEntry factor 128 = 128.
Proof.
  intros Hbytes. split; [|apply contrastEntry_middle].
  destruct (mapChannels_loop (Preprocessor.contrastEntry 1%Qc) (data img))
    as (Hsize & Hcolor & Halpha).
  apply get_ext; [exact Hsize|]. intros j Hj.
  unfold Detector.increaseContrast in *. cbn [data] in *.
  rewrite Hsize in Hj.
  pose proof (Z.div_mod j 4) as Hdiv. pose proof (Z.mod_pos_bound j 4) as Hmod.
  replace j with (4 * (j / 4) + j mod 4) by lia.
  destruct (decide (j mod 4 = 3)) as [->|Hne].
  - apply Halpha.
  - rewrite Hcolor by lia. apply contrastEntry_one.
    replace (4 * (j / 4) + j mod 4) with j by lia.
    unfold get. destruct (Z.ltb_spec j 0); [lia|].
    rewrite list.Forall_forall in Hbytes. apply Hbytes.
    rewrite nth_lookup.
    destruct (lookup_lt_is_Some_2 (data img) (Z.to_nat j)) as [v Hv];
      [unfold len in Hj; lia|].
    rewrite Hv. simpl. by eapply list_elem_of_lookup_2.
Qed.

Lemma contrast_factor_one_is_identity_witness :
  Forall (λ v, 0 ≤ v ≤ 255) (data twoPixels)
  ∧ data (Detector.increaseContrast twoPixels 1%Qc) = data twoPixels
  ∧ Preprocessor.contrastEntry (Num.dec 18 10) 128 = 128.
Proof.
  assert (Forall (λ v, 0 ≤ v ≤ 255) (data twoPixels)) as Hbytes.
  { repeat (constructor; [lia|]). constructor. }
  split; [exact Hbytes|].
  exact (contrast_factor_one_is_identity twoPixels (Num.dec 18 10) Hbytes).
Defined.

(** ** Grayscale and color reduction *)

Lemma round_ofZ (n : Z) : Num.round (Num.ofZ n) = n.
Proof.
  unfold Num.round. apply Qfloor_unique.
  - unfold Qcplus, Num.dec, Num.ofZ, Qcdiv, Qcmult, Qcinv, Q2Qc.
    cbn [this]. rewrite !Qred_correct. unfold Qle. simpl. lia.
  - unfold Qcplus, Num.dec, Num.ofZ, Qcdiv, Qcmult, Qcinv, Q2Qc.
    cbn [this]. rewrite !Qred_correct. unfold Qlt. simpl. lia.
Qed.

Lemma luma_lumaAt (d : list Z) (i : Z) : Preprocessor.luma d i = lumaAt d i.
Proof. reflexivity. Qed.

(** The luma of a gray pixel is its gray value: for each of the 256 bytes,
    the three products add up to the byte or to a double that rounds to
    it. *)
Lemma lumaOf_gray (gray : Z) : 0 ≤ gray ≤ 255 → lumaOf gray gray gray = gray.
Proof.
  intros Hgray.
  assert (forallb (λ g, lumaOf g g g =? g) (Num.range 0 256 1) = true) as Hall
    by (vm_compute; reflexivity).
  rewrite forallb_forall in Hall. apply Z.eqb_eq, Hall.
  apply list_elem_of_In, elem_of_range; [lia|]. rewrite Z.mod_1_r. lia.
Qed.

Lemma lumaAt_gray (d : list Z) (p gray : Z) :
  0 ≤ gray ≤ 255 → pixelIs d p gray → lumaAt d (4 * p) = gray.
Proof.
  intros Hgray (H0 & H1 & H2). unfold lumaAt. rewrite H0, H1, H2.
  by apply lumaOf_gray.
Qed.

Lemma clampByte_range (v : Z) : 0 ≤ clampByte v ≤ 255.
Proof. unfold clampByte. lia. Qed.

Lemma clampByte_byte (v : Z) : 0 ≤ v ≤ 255 → clampByte v = v.
Proof. unfold clampByte. lia. Qed.

Lemma removeColorNoise_pixel (img : ImageData) (p : Z) :
  0 ≤ p → 4 * p + 3 < len (data img) →
  let out := data (Detector.removeColorNoise img) in
  len out = len (data img)
  ∧ pixelIs out p (clampByte (lumaAt (data img) (4 * p)))
  ∧ get out (4 * p + 3) = get (data img) (4 * p + 3).
Proof.
  intros Hp Hlen. unfold Detector.removeColorNoise. cbn [data].
  split; [apply (len_foldl_paint (λ d i, clampByte (Preprocessor.luma d i)))|].
  rewrite <- luma_lumaAt.
  apply (paint_pixel (λ d i, clampByte (Preprocessor.luma d i)));
    [|done|done].
  intros d1 d2 i H0 H1 H2. by rewrite (luma_local d1 d2).
Qed.

(** [removeColorNoise] gives the three color entries of every pixel the
    rounded luma of the pixel, [round(0.299 R + 0.587 G + 0.114 B)] in
    doubles, as the array keeps it, and leaves its alpha entry; applied
    again it changes nothing at that pixel, because the luma of a gray pixel
    is its gray value. *)
Theorem grayscale_twice_is_grayscale (img : ImageData) (p : Z) :
  0 ≤ p → 4 * p + 3 < len (data img) →
  let d := data img in
  let gray := clampByte (lumaAt d (4 * p)) in
  let once := Detector.removeColorNoise img in
  let twice := Detector.removeColorNoise once in
  pixelIs (data once) p gray
  ∧ get (data once) (4 * p + 3) = get d (4 * p + 3)
  ∧ pixelIs (data twice) p gray
  ∧ get (data twice) (4 * p + 3) = get d (4 * p + 3).
Proof.
  intros Hp Hlen d gray once twice.
  destruct (removeColorNoise_pixel img p Hp Hlen) as (Hsize & Hpix & Halpha).
  destruct (removeColorNoise_pixel once p Hp) as (_ & Hpix2 & Halpha2).
  { unfold once. by rewrite Hsize. }
  fold once in Hpix, Halpha. fold gray in Hpix.
  split; [exact Hpix|]. split; [exact Halpha|].
  rewrite (lumaAt_gray (data once) p gray (clampByte_range _) Hpix) in Hpix2.
  rewrite (clampByte_byte gray) in Hpix2 by apply clampByte_range.
  split; [exact Hpix2 | exact (eq_trans Halpha2 Halpha)].
Qed.

Lemma grayscale_twice_is_grayscale_witness :
  let img := mkImage 1 1 [0; 36; 12; 255] in
  let d := data img in
  let gray := clampByte (lumaAt d (4 * 0)) in
  let once := Detector.removeColorNoise img in
  let twice := Detector.removeColorNoise once in
  0 ≤ 0 ∧ 4 * 0 + 3 < len d
  ∧ pixelIs (data once) 0 gray
  ∧ get (data once) (4 * 0 + 3) = get d (4 * 0 + 3)
  ∧ pixelIs (data twice) 0 gray
  ∧ get (data twice) (4 * 0 + 3) = get d (4 * 0 + 3).
Proof.
  intros img d gray once twice.
  assert (0 ≤ 0) as Hp by lia.
  assert (4 * 0 + 3 < len d) as Hlen by (vm_compute; reflexivity).
  split; [exact Hp|]. split; [exact Hlen|].
  exact (grayscale_twice_is_grayscale img 0 Hp Hlen).
Defined.

Lemma round_div_64 (a : Z) :
  Num.round (Num.ofZ a / Num.ofZ 64)%Qc = (a + 32) / 64.
Proof.
  unfold Num.round. rewrite (Zdiv_Qdiv (a + 32) 64).
  apply Qfloor_comp. unfold Num.dec, Num.ofZ, Qcplus, Qcdiv, Qcmult, Qcinv, Q2Qc.
  cbn [this]. rewrite !Qred_correct. rewrite inject_Z_plus. field.
Qed.

Lemma quantize64_levels (v : Z) :
  In (Detector.quantize64 v) [0; 64; 128; 192; 255].
Proof.
  unfold Detector.quantize64. rewrite round_div_64.
  set (q := (v + 32) / 64). unfold clampByte.
  assert (q ≤ 0 ∨ q = 1 ∨ q = 2 ∨ q = 3 ∨ 4 ≤ q) as Hq by lia.
  destruct Hq as [Hq | [-> | [-> | [-> | Hq]]]]; simpl.
  - left. lia.
  - right. left. reflexivity.
  - right. right. left. reflexivity.
  - right. right. right. left. reflexivity.
  - right. right. right. right. left. lia.
Qed.




(** ** The 3 x 3 filters *)

Lemma foldl_bind {A B C : Type} (f : B → A → B) (g : C → list A)
    (l : list C) (acc : B) :
  foldl f acc (l ≫= g) = foldl (λ acc c, foldl f acc (g c)) acc l.
Proof.
  revert acc. induction l as [|c l IH]; intros acc; [done|].
  change ((c :: l) ≫= g) with (g c ++ (l ≫= g)).
  rewrite foldl_app. apply IH.
Qed.

Lemma rewriteInner_writes (entry : Z → Z → Z → Z) (img : ImageData) :
  data (rewriteInner entry img)
  = foldl (λ newData write, store newData write.1 write.2) (data img)
          (innerWrites entry img).
Proof.
  unfold rewriteInner, innerWrites. cbn [data].
  rewrite foldl_bind. apply foldl_ext_in. intros acc y _.
  rewrite foldl_bind. apply foldl_ext_in. intros acc' x _.
  rewrite foldl_bind. reflexivity.
Qed.

Lemma elem_of_innerWrites (entry : Z → Z → Z → Z) (img : ImageData)
    (i v : Z) :
  (i, v) ∈ innerWrites entry img
  ↔ ∃ x y c, innerEntry img x y c
             ∧ i = (y * width img + x) * 4 + c ∧ v = entry x y c.
Proof.
  unfold innerWrites, innerEntry. rewrite list_elem_of_bind. split.
  - intros (y & Hin & Hy). apply list_elem_of_bind in Hin as (x & Hin & Hx).
    apply list_elem_of_bind in Hin as (c & Hin & Hc).
    apply list_elem_of_singleton in Hin. injection Hin as -> ->.
    apply elem_of_range in Hy, Hx, Hc; [|lia..].
    exists x, y, c. repeat split; lia.
  - intros (x & y & c & (Hx & Hy & Hc) & -> & ->).
    exists y. split; [|apply elem_of_range; [lia|]; split; [lia|]; apply Z.mod_1_r].
    apply list_elem_of_bind. exists x.
    split; [|apply elem_of_range; [lia|]; split; [lia|]; apply Z.mod_1_r].
    apply list_elem_of_bind. exists c.
    split; [|apply elem_of_range; [lia|]; split; [lia|]; apply Z.mod_1_r].
    apply list_elem_of_singleton. reflexivity.
Qed.

Lemma len_foldl_store (writes : list (Z * Z)) (d : list Z) :
  len (foldl (λ newData write, store newData write.1 write.2) d writes)
  = len d.
Proof.
  revert d. induction writes as [|w writes IH]; intros d; simpl; [done|].
  by rewrite IH, len_store.
Qed.

Lemma get_foldl_store_other (writes : list (Z * Z)) (d : list Z) (j : Z) :
  (∀ v, (j, v) ∉ writes) →
  get (foldl (λ newData write, store newData write.1 write.2) d writes) j
  = get d j.
Proof.
  revert d. induction writes as [|[i u] writes IH]; intros d Hj; simpl; [done|].
  rewrite IH by (intros v Hv; apply (Hj v); by right).
  apply get_store_ne. intros ->. apply (Hj u). by left.
Qed.

Lemma get_foldl_store (writes : list (Z * Z)) (d : list Z) (i v : Z) :
  (∀ v', (i, v') ∈ writes → v' = v) → (i, v) ∈ writes → 0 ≤ i < len d →
  get (foldl (λ newData write, store newData write.1 write.2) d writes) i = v.
Proof.
  induction writes as [|[j u] writes IH] using rev_ind; intros Hfun Hin Hi.
  - by apply elem_of_nil in Hin.
  - rewrite foldl_app. cbn [foldl fst snd].
    destruct (decide (j = i)) as [->|Hne].
    + rewrite get_store_eq by (by rewrite len_foldl_store).
      apply Hfun. apply elem_of_app. right. by left.
    + rewrite get_store_ne by done. apply IH; [| |done].
      * intros v' Hv'. apply Hfun. apply elem_of_app. by left.
      * apply elem_of_app in Hin as [Hin|Hin]; [done|].
        apply list_elem_of_singleton in Hin. congruence.
Qed.

(** An index determines the pixel and the channel it belongs to. *)
Lemma entry_index_inj (w x y c x' y' c' : Z) :
  0 ≤ x < w → 0 ≤ x' < w → 0 ≤ c < 4 → 0 ≤ c' < 4 →
  (y * w + x) * 4 + c = (y' * w + x') * 4 + c' →
  x = x' ∧ y = y' ∧ c = c'.
Proof.
  intros Hx Hx' Hc Hc' Heq.
  destruct (Z.div_mod_unique 4 (y * w + x) (y' * w + x') c c')
    as [Hq Hr]; [lia | lia | lia |].
  destruct (Z.div_mod_unique w y y' x x') as [Hy Hxx]; [lia | lia | lia |].
  done.
Qed.

(** What [rewriteInner] returns: an image of the same size, whose inner
    color entries are the values [entry x y c], and whose alpha entries and
    border pixels are those of the input. *)
Lemma rewriteInner_spec (entry : Z → Z → Z → Z) (img : ImageData) :
  len (data img) = 4 * width img * height img →
  let out := rewriteInner entry img in
  width out = width img ∧ height out = height img
  ∧ len (data out) = len (data img)
  ∧ (∀ x y c, innerEntry img x y c →
       get (data out) ((y * width img + x) * 4 + c) = entry x y c)
  ∧ (∀ p, get (data out) (4 * p + 3) = get (data img) (4 * p + 3))
  ∧ (∀ x y c, 0 ≤ x < width img → 0 ≤ c ≤ 2 →
       x = 0 ∨ x = width img - 1 ∨ y ≤ 0 ∨ height img - 1 ≤ y →
       get (data out) ((y * width img + x) * 4 + c)
       = get (data img) ((y * width img + x) * 4 + c)).
Proof.
  intros Hlen out. unfold out. rewrite rewriteInner_writes.
  split; [done|]. split; [done|]. split; [apply len_foldl_store|].
  split; [|split].
  - intros x y c (Hx & Hy & Hc). apply get_foldl_store.
    + intros v' Hv'.
      apply elem_of_innerWrites in Hv' as (x' & y' & c' & (Hx' & Hy' & Hc') & Hi & ->).
      destruct (entry_index_inj (width img) x y c x' y' c')
        as (-> & -> & ->); [lia..|done|done].
    + apply elem_of_innerWrites. by exists x, y, c.
    + nia.
  - intros p. apply get_foldl_store_other. intros v Hv.
    apply elem_of_innerWrites in Hv as (x & y & c & (Hx & Hy & Hc) & Hi & _).
    lia.
  - intros x y c Hx Hc Hborder. apply get_foldl_store_other. intros v Hv.
    apply elem_of_innerWrites in Hv as (x' & y' & c' & (Hx' & Hy' & Hc') & Hi & _).
    destruct (entry_index_inj (width img) x y c x' y' c')
      as (-> & -> & ->); [lia..|done|lia].
Qed.

Lemma get_outside (d : list Z) (i : Z) : i < 0 ∨ len d ≤ i → get d i = 0.
Proof.
  unfold get, len. intros Hi. destruct (Z.ltb_spec i 0); [done|].
  apply nth_overflow. lia.
Qed.

Lemma store_get (d : list Z) (i : Z) : store d i (get d i) = d.
Proof.
  unfold store, get. destruct (Z.ltb_spec i 0); [done|].
  apply list_insert_id'. intros Hi. rewrite nth_lookup.
  destruct (lookup_lt_is_Some_2 d (Z.to_nat i) Hi) as [v ->]. done.
Qed.

Lemma foldl_store_id (writes : list (Z * Z)) (d : list Z) :
  (∀ i v, (i, v) ∈ writes → get d i = v) →
  foldl (λ newData write, store newData write.1 write.2) d writes = d.
Proof.
  induction writes as [|[i v] writes IH]; intros Hsame; simpl; [done|].
  rewrite <- (Hsame i v) by left. rewrite store_get.
  apply IH. intros j u Hj. apply Hsame. by right.
Qed.

Lemma blackAndWhite_get (d : list Z) (q c : Z) :
  blackAndWhite d → 0 ≤ c ≤ 2 →
  get d (q * 4 + c) = 0 ∨ get d (q * 4 + c) = 255.
Proof.
  intros Hbw Hc.
  destruct (decide (0 ≤ q ∧ q * 4 + c < len d)) as [[Hq Hlt]|Hout].
  - replace (q * 4 + c) with (4 * q + c) by lia. apply Hbw; lia.
  - left. apply get_outside. lia.
Qed.

(** The sum of a 3 x 3 kernel, term by term. *)
Lemma kernelSum_terms (k0 k1 k2 k3 k4 k5 k6 k7 k8 : Z) (d : list Z)
    (w x y c : Z) :
  kernelSum [k0; k1; k2; k3; k4; k5; k6; k7; k8] d w x y c
  = 0 + get d (((y + -1) * w + (x + -1)) * 4 + c) * k0
      + get d (((y + -1) * w + (x + 0)) * 4 + c) * k1
      + get d (((y + -1) * w + (x + 1)) * 4 + c) * k2
      + get d (((y + 0) * w + (x + -1)) * 4 + c) * k3
      + get d (((y + 0) * w + (x + 0)) * 4 + c) * k4
      + get d (((y + 0) * w + (x + 1)) * 4 + c) * k5
      + get d (((y + 1) * w + (x + -1)) * 4 + c) * k6
      + get d (((y + 1) * w + (x + 0)) * 4 + c) * k7
      + get d (((y + 1) * w + (x + 1)) * 4 + c) * k8.
Proof. reflexivity. Qed.

(** A kernel [0 -1 0 / -1 k -1 / 0 -1 0]: the sum is [k] times the entry
    less its four neighbours. *)
Lemma kernelSum_cross (k : Z) (d : list Z) (w x y c : Z) :
  kernelSum [0; -1; 0; -1; k; -1; 0; -1; 0] d w x y c
  = k * get d ((y * w + x) * 4 + c)
    - get d (((y - 1) * w + x) * 4 + c) - get d ((y * w + (x - 1)) * 4 + c)
    - get d ((y * w + (x + 1)) * 4 + c) - get d (((y + 1) * w + x) * 4 + c).
Proof.
  rewrite kernelSum_terms. rewrite !Z.add_0_r.
  change (y + -1) with (y - 1). change (x + -1) with (x - 1). lia.
Qed.

Lemma sharpenWith_black_and_white (k : Z) (img : ImageData) :
  5 ≤ k → blackAndWhite (data img) →
  sharpenWith [0; -1; 0; -1; k; -1; 0; -1; 0] img = img.
Proof.
  intros Hk Hbw.
  assert (data (sharpenWith [0; -1; 0; -1; k; -1; 0; -1; 0] img) = data img)
    as Hdata.
  { unfold sharpenWith. rewrite rewriteInner_writes.
    apply foldl_store_id. intros i v Hin.
    apply elem_of_innerWrites in Hin as (x & y & c & (Hx & Hy & Hc) & -> & ->).
    rewrite kernelSum_cross.
    destruct (blackAndWhite_get (data img) (y * width img + x) c Hbw Hc);
      destruct (blackAndWhite_get (data img) ((y - 1) * width img + x) c Hbw Hc);
      destruct (blackAndWhite_get (data img) (y * width img + (x - 1)) c Hbw Hc);
      destruct (blackAndWhite_get (data img) (y * width img + (x + 1)) c Hbw Hc);
      destruct (blackAndWhite_get (data img) ((y + 1) * width img + x) c Hbw Hc);
      lia. }
  destruct img as [w h d]. unfold sharpenWith, rewriteInner in *.
  cbn [data width height] in *. by rewrite Hdata.
Qed.

(** Sharpening changes nothing in an image whose color entries are all 0
    or 255: [sharpen] and [sharpenText] return it as it is. *)
Theorem sharpening_keeps_black_and_white (img : ImageData) :
  wf_image img → blackAndWhite (data img) →
  Preprocessor.sharpen img = img ∧ Detector.sharpenText img = img.
Proof.
  intros _ Hbw. split; apply sharpenWith_black_and_white; (lia || done).
Qed.

Lemma get_elem_of (d : list Z) (i : Z) : 0 ≤ i < len d → get d i ∈ d.
Proof.
  unfold get, len. intros Hi. destruct (Z.ltb_spec i 0); [lia|].
  rewrite nth_lookup.
  destruct (lookup_lt_is_Some_2 d (Z.to_nat i)) as [v Hv]; [lia|].
  rewrite Hv. by eapply list_elem_of_lookup_2.
Qed.

Lemma blackAndWhite_Forall (d : list Z) :
  Forall (λ v, v = 0 ∨ v = 255) d → blackAndWhite d.
Proof.
  intros Hall p c Hp Hc Hlen.
  apply (proj1 (list.Forall_forall _ d) Hall). apply get_elem_of. lia.
Qed.

Lemma wf_image_intro (w h : Z) (d : list Z) :
  0 < w → 0 < h → len d = 4 * w * h →
  forallb (λ v, (0 <=? v) && (v <=? 255)) d = true →
  wf_image (mkImage w h d).
Proof.
  intros Hw Hh Hlen Hbytes. split; [done|]. split; [done|]. split; [done|].
  cbn [data]. apply list.Forall_forall. intros v Hv.
  rewrite forallb_forall in Hbytes. apply list_elem_of_In in Hv.
  specialize (Hbytes v Hv). lia.
Qed.

Lemma blackDot_wf : wf_image blackDot.
Proof. apply wf_image_intro; [lia | lia | reflexivity | reflexivity]. Defined.

Lemma blackDot_blackAndWhite : blackAndWhite (data blackDot).
Proof.
  apply blackAndWhite_Forall. apply list.Forall_forall. intros v Hv.
  apply list_elem_of_In in Hv.
  assert (forallb (λ v, (v =? 0) || (v =? 255)) (data blackDot) = true) as Hall
    by reflexivity.
  rewrite forallb_forall in Hall. specialize (Hall v Hv). lia.
Defined.

Lemma sharpening_keeps_black_and_white_witness :
  wf_image blackDot ∧ blackAndWhite (data blackDot)
  ∧ Preprocessor.sharpen blackDot = blackDot
  ∧ Detector.sharpenText blackDot = blackDot.
Proof.
  split; [exact blackDot_wf|]. split; [exact blackDot_blackAndWhite|].
  exact (sharpening_keeps_black_and_white blackDot blackDot_wf
           blackDot_blackAndWhite).
Defined.

(** [sharpen] gives an inner color entry five times its value less its
    four neighbours, [sharpenText] six times its value less them, both cut
    to 0 .. 255.  So where the entry and its four neighbours agree,
    [sharpen] keeps the entry and [sharpenText] doubles it, up to 255. *)
Theorem sharpening_inner_entry (img : ImageData) (x y c : Z) :
  wf_image img → innerEntry img x y c →
  let cross k :=
    Z.min 255 (Z.max 0 (k * entryAt img x y c
                        - entryAt img x (y - 1) c - entryAt img (x - 1) y c
                        - entryAt img (x + 1) y c - entryAt img x (y + 1) c)) in
  entryAt (Preprocessor.sharpen img) x y c = cross 5
  ∧ entryAt (Detector.sharpenText img) x y c = cross 6
  ∧ (entryAt img x (y - 1) c = entryAt img x y c →
     entryAt img (x - 1) y c = entryAt img x y c →
     entryAt img (x + 1) y c = entryAt img x y c →
     entryAt img x (y + 1) c = entryAt img x y c →
     entryAt (Preprocessor.sharpen img) x y c = entryAt img x y c
     ∧ entryAt (Detector.sharpenText img) x y c
       = Z.min 255 (2 * entryAt img x y c)).
Proof.
  intros (Hw & Hh & Hlen & Hbytes) Hinner cross.
  assert (∀ k, entryAt (sharpenWith [0; -1; 0; -1; k; -1; 0; -1; 0] img) x y c
               = cross k) as Hentry.
  { intros k. unfold entryAt at 1.
    destruct (rewriteInner_spec
                (λ x y c, Z.min 255 (Z.max 0
                   (kernelSum [0; -1; 0; -1; k; -1; 0; -1; 0] (data img)
                              (width img) x y c))) img Hlen)
      as (Hwidth & _ & _ & Hwritten & _).
    unfold sharpenWith. rewrite Hwidth, (Hwritten x y c Hinner).
    by rewrite kernelSum_cross. }
  split; [apply Hentry|]. split; [apply Hentry|].
  intros Hup Hleft Hright Hdown.
  assert (0 ≤ entryAt img x y c ≤ 255) as Hbyte.
  { destruct Hinner as (Hx & Hy & Hc).
    apply (proj1 (list.Forall_forall _ _) Hbytes). apply get_elem_of. nia. }
  unfold Preprocessor.sharpen, Detector.sharpenText.
  rewrite !Hentry. unfold cross. rewrite Hup, Hleft, Hright, Hdown. lia.
Qed.

Lemma grayCard_wf : wf_image grayCard.
Proof. apply wf_image_intro; [lia | lia | reflexivity | reflexivity]. Defined.

Lemma sharpening_inner_entry_witness :
  wf_image grayCard ∧ innerEntry grayCard 1 1 0
  ∧ entryAt (Preprocessor.sharpen grayCard) 1 1 0 = 200
  ∧ entryAt (Detector.sharpenText grayCard) 1 1 0 = 255.
Proof.
  assert (innerEntry grayCard 1 1 0) as Hinner by (vm_compute; intuition discriminate).
  split; [exact grayCard_wf|]. split; [exact Hinner|].
  destruct (sharpening_inner_entry grayCard 1 1 0 grayCard_wf Hinner)
    as (_ & _ & Hsame).
  apply Hsame; reflexivity.
Defined.

(** The three 3 x 3 filters return an image of the size of their input,
    with its alpha entries and with the pixels of its border. *)
Theorem filters_keep_border_and_alpha (img : ImageData) (x y c p : Z) :
  wf_image img → 0 ≤ x < width img → 0 ≤ c ≤ 2 →
  x = 0 ∨ x = width img - 1 ∨ y ≤ 0 ∨ height img - 1 ≤ y →
  Forall (λ out,
            width out = width img ∧ height out = height img
            ∧ len (data out) = len (data img)
            ∧ get (data out) (4 * p + 3) = get (data img) (4 * p + 3)
            ∧ entryAt out x y c = entryAt img x y c)
         [Preprocessor.removeNoise img; Preprocessor.sharpen img;
          Detector.sharpenText img].
Proof.
  intros (Hw & Hh & Hlen & Hbytes) Hx Hc Hborder.
  assert (∀ entry,
            let out := rewriteInner entry img in
            width out = width img ∧ height out = height img
            ∧ len (data out) = len (data img)
            ∧ get (data out) (4 * p + 3) = get (data img) (4 * p + 3)
            ∧ entryAt out x y c = entryAt img x y c) as Hany.
  { intros entry out.
    destruct (rewriteInner_spec entry img Hlen)
      as (Hwidth & Hheight & Hsize & _ & Halpha & Hkept).
    fold out in Hwidth, Hheight, Hsize, Halpha, Hkept.
    split; [done|]. split; [done|]. split; [done|]. split; [apply Halpha|].
    unfold entryAt. rewrite Hwidth. by apply Hkept. }
  unfold Preprocessor.removeNoise, Preprocessor.sharpen,
    Detector.sharpenText, sharpenWith.
  apply Forall_cons_2; [exact (Hany _)|].
  apply Forall_cons_2; [exact (Hany _)|].
  apply Forall_cons_2; [exact (Hany _)|]. apply Forall_nil_2.
Qed.

Lemma filters_keep_border_and_alpha_witness :
  wf_image blackDot ∧ 0 ≤ 2 < width blackDot ∧ 0 ≤ 1 ≤ 2
  ∧ Forall (λ out,
              width out = width blackDot ∧ height out = height blackDot
              ∧ len (data out) = len (data blackDot)
              ∧ get (data out) (4 * 4 + 3) = get (data blackDot) (4 * 4 + 3)
              ∧ entryAt out 2 1 1 = entryAt blackDot 2 1 1)
           [Preprocessor.removeNoise blackDot; Preprocessor.sharpen blackDot;
            Detector.sharpenText blackDot].
Proof.
  assert (0 ≤ 2 < width blackDot) as Hx by (vm_compute; intuition discriminate).
  assert (0 ≤ 1 ≤ 2) as Hc by lia.
  split; [exact blackDot_wf|]. split; [exact Hx|]. split; [exact Hc|].
  apply (filters_keep_border_and_alpha blackDot 2 1 1 4 blackDot_wf Hx Hc).
  right. left. reflexivity.
Defined.

(** ** The median filter *)

(** The middle one of nine values is one of them, with at least five of
    them on either side of it. *)
Lemma median_of_nine (neighbors : list Z) :
  length neighbors = 9%nat →
  let m := Preprocessor.median neighbors in
  m ∈ neighbors
  ∧ (5 ≤ length (filter (λ v, (v ≤ m)%Z) neighbors))%nat
  ∧ (5 ≤ length (filter (λ v, (m ≤ v)%Z) neighbors))%nat.
Proof.
  intros Hnine m.
  pose proof (sorting.merge_sort_Permutation Z.le neighbors) as Hperm.
  pose proof (sorting.Sorted_merge_sort Z.le neighbors) as Hsorted.
  assert (m = get (sorting.merge_sort Z.le neighbors) 4) as Hm.
  { unfold m, Preprocessor.median. by rewrite Hnine. }
  clearbody m. revert Hperm Hsorted Hm.
  generalize (sorting.merge_sort Z.le neighbors). intros sorted Hperm Hsorted Hm.
  rewrite <- Hperm. apply Permutation_length in Hperm. rewrite Hnine in Hperm.
  destruct sorted as [|s0 [|s1 [|s2 [|s3 [|s4 [|s5 [|s6 [|s7 [|s8 [|]]]]]]]]]];
    try discriminate Hperm.
  change (m = s4) in Hm. subst m.
  repeat match goal with
         | H : Sorted.Sorted _ (_ :: _) |- _ => apply Sorted.Sorted_inv in H as [? ?]
         end.
  repeat match goal with
         | H : Sorted.HdRel _ _ (_ :: _) |- _ => apply Sorted.HdRel_inv in H
         end.
  split; [set_solver|].
  split.
  - rewrite !filter_cons.
    rewrite (decide_True (P := s0 ≤ s4)), (decide_True (P := s1 ≤ s4)),
      (decide_True (P := s2 ≤ s4)), (decide_True (P := s3 ≤ s4)),
      (decide_True (P := s4 ≤ s4)) by lia.
    simpl. lia.
  - rewrite !filter_cons.
    rewrite (decide_True (P := s4 ≤ s4)), (decide_True (P := s4 ≤ s5)),
      (decide_True (P := s4 ≤ s6)), (decide_True (P := s4 ≤ s7)),
      (decide_True (P := s4 ≤ s8)) by lia.
    rewrite filter_nil.
    destruct (decide (s4 ≤ s0)), (decide (s4 ≤ s1)), (decide (s4 ≤ s2)),
      (decide (s4 ≤ s3)); simpl; lia.
Qed.

Lemma neighborhood_length (d : list Z) (w x y c : Z) :
  length (neighborhood d w x y c) = 9%nat.
Proof. reflexivity. Qed.

(** [removeNoise] gives an inner color entry the median of the nine
    entries of its channel around it: one of these nine, with at least five
    of them no larger and at least five no smaller.  So it stays a channel
    value, and an entry whose neighbourhood holds one value keeps it. *)
Theorem median_filter_inner_entry (img : ImageData) (x y c : Z) :
  wf_image img → innerEntry img x y c →
  let around := neighborhood (data img) (width img) x y c in
  let m := entryAt (Preprocessor.removeNoise img) x y c in
  around = [ entryAt img (x - 1) (y - 1) c; entryAt img x (y - 1) c;
             entryAt img (x + 1) (y - 1) c;
             entryAt img (x - 1) y c; entryAt img x y c;
             entryAt img (x + 1) y c;
             entryAt img (x - 1) (y + 1) c; entryAt img x (y + 1) c;
             entryAt img (x + 1) (y + 1) c ]
  ∧ m ∈ around
  ∧ (5 ≤ length (filter (λ v, (v ≤ m)%Z) around))%nat
  ∧ (5 ≤ length (filter (λ v, (m ≤ v)%Z) around))%nat
  ∧ 0 ≤ m ≤ 255
  ∧ (∀ v, Forall (λ u, u = v) around → m = v).
Proof.
  intros (Hw & Hh & Hlen & Hbytes) Hinner around m.
  assert (m = Preprocessor.median around) as Hm.
  { unfold m, entryAt, Preprocessor.removeNoise.
    destruct (rewriteInner_spec
                (λ x y c, Preprocessor.median
                            (neighborhood (data img) (width img) x y c))
                img Hlen) as (Hwidth & _ & _ & Hwritten & _).
    by rewrite Hwidth, (Hwritten x y c Hinner). }
  destruct (median_of_nine around (neighborhood_length _ _ _ _ _))
    as (Hin & Hlow & Hhigh).
  rewrite <- Hm in Hin, Hlow, Hhigh.
  assert (around
          = [ entryAt img (x - 1) (y - 1) c; entryAt img x (y - 1) c;
              entryAt img (x + 1) (y - 1) c;
              entryAt img (x - 1) y c; entryAt img x y c;
              entryAt img (x + 1) y c;
              entryAt img (x - 1) (y + 1) c; entryAt img x (y + 1) c;
              entryAt img (x + 1) (y + 1) c ]) as Haround.
  { unfold around, entryAt.
    change (neighborhood (data img) (width img) x y c)
      with [ get (data img) (((y + -1) * width img + (x + -1)) * 4 + c);
             get (data img) (((y + -1) * width img + (x + 0)) * 4 + c);
             get (data img) (((y + -1) * width img + (x + 1)) * 4 + c);
             get (data img) (((y + 0) * width img + (x + -1)) * 4 + c);
             get (data img) (((y + 0) * width img + (x + 0)) * 4 + c);
             get (data img) (((y + 0) * width img + (x + 1)) * 4 + c);
             get (data img) (((y + 1) * width img + (x + -1)) * 4 + c);
             get (data img) (((y + 1) * width img + (x + 0)) * 4 + c);
             get (data img) (((y + 1) * width img + (x + 1)) * 4 + c) ].
    rewrite !Z.add_0_r. reflexivity. }
  split; [exact Haround|]. split; [exact Hin|].
  split; [exact Hlow|]. split; [exact Hhigh|]. split.
  - destruct Hinner as (Hx & Hy & Hc).
    assert (Forall (λ v, 0 ≤ v ≤ 255) around) as Hall.
    { rewrite Haround. unfold entryAt.
      repeat (apply Forall_cons_2;
              [apply (proj1 (list.Forall_forall _ _) Hbytes);
               apply get_elem_of; nia|]).
      apply Forall_nil_2. }
    exact (proj1 (list.Forall_forall _ _) Hall m Hin).
  - intros v Hall. exact (proj1 (list.Forall_forall _ _) Hall m Hin).
Qed.

Lemma median_filter_inner_entry_witness :
  let img := blackDot in
  let around := neighborhood (data img) (width img) 1 1 0 in
  let m := entryAt (Preprocessor.removeNoise img) 1 1 0 in
  wf_image img ∧ innerEntry img 1 1 0
  ∧ m = 255 ∧ entryAt img 1 1 0 = 0
  ∧ m ∈ around
  ∧ (5 ≤ length (filter (λ v, (v ≤ m)%Z) around))%nat
  ∧ (5 ≤ length (filter (λ v, (m ≤ v)%Z) around))%nat.
Proof.
  intros img around m.
  assert (innerEntry img 1 1 0) as Hinner
    by (vm_compute; intuition discriminate).
  split; [exact blackDot_wf|]. split; [exact Hinner|].
  split; [reflexivity|]. split; [reflexivity|].
  destruct (median_filter_inner_entry img 1 1 0 blackDot_wf Hinner)
    as (_ & Hin & Hlow & Hhigh & _).
  split; [exact Hin|]. split; [exact Hlow | exact Hhigh].
Defined.

(** ** The most common color *)

#[local] Existing Instance Preprocessor.Color_eq_dec.
#[local] Existing Instance Detector.Color_eq_dec.

Section MostCommon.

Context {K : Type} `{EqDecision K}.
Variable quantize : K → K.
Variable white : K.

Lemma countOf_countKey (colorMap : list (K * Z)) (q k : K) :
  countOf (countKey q colorMap) k
  = if decide (k = q) then countOf colorMap q + 1 else countOf colorMap k.
Proof.
  induction colorMap as [|[k0 n] colorMap IH]; simpl.
  - destruct (decide (q = k)), (decide (k = q)); (congruence || lia).
  - destruct (decide (k0 = q)) as [->|Hne]; simpl.
    + destruct (decide (q = k)), (decide (k = q)); (congruence || lia).
    + destruct (decide (k0 = k)) as [->|Hne'].
      * destruct (decide (k = q)); (congruence || lia).
      * exact IH.
Qed.

Lemma occurrences_cons (colors : list K) (color q : K) :
  occurrences quantize (color :: colors) q
  = (if decide (q = quantize color) then 1 else 0)
    + occurrences quantize colors q.
Proof.
  unfold occurrences. rewrite filter_cons.
  destruct (decide (quantize color = q)), (decide (q = quantize color));
    try congruence; simpl; lia.
Qed.

Lemma countOf_colorMap (colors : list K) (colorMap : list (K * Z)) (q : K) :
  countOf (foldl (λ colorMap color, countKey (quantize color) colorMap)
                 colorMap colors) q
  = countOf colorMap q + occurrences quantize colors q.
Proof.
  revert colorMap. induction colors as [|color colors IH]; intros colorMap.
  - unfold occurrences. simpl. lia.
  - simpl. rewrite IH, countOf_countKey, occurrences_cons.
    destruct (decide (q = quantize color)) as [->|]; lia.
Qed.

Lemma elem_of_keys_countKey (colorMap : list (K * Z)) (q k : K) :
  k ∈ (countKey q colorMap).*1 ↔ k = q ∨ k ∈ colorMap.*1.
Proof.
  induction colorMap as [|[k0 n] colorMap IH]; simpl.
  - rewrite list_elem_of_singleton. split; [by left|].
    intros [?|Hin]; [done|]. by apply elem_of_nil in Hin.
  - destruct (decide (k0 = q)) as [->|Hne]; simpl.
    + rewrite !elem_of_cons. tauto.
    + rewrite !elem_of_cons, IH. tauto.
Qed.

Lemma NoDup_keys_countKey (colorMap : list (K * Z)) (q : K) :
  NoDup colorMap.*1 → NoDup (countKey q colorMap).*1.
Proof.
  induction colorMap as [|[k0 n] colorMap IH]; simpl; intros Hnodup.
  - apply NoDup_singleton.
  - destruct (decide (k0 = q)) as [->|Hne]; simpl; [done|].
    apply list.NoDup_cons in Hnodup as [Hnotin Hnodup].
    apply list.NoDup_cons. split; [|by apply IH].
    rewrite elem_of_keys_countKey. intros [?|?]; done.
Qed.

Lemma NoDup_keys_colorMap (colors : list K) (colorMap : list (K * Z)) :
  NoDup colorMap.*1 →
  NoDup (foldl (λ colorMap color, countKey (quantize color) colorMap)
               colorMap colors).*1.
Proof.
  revert colorMap. induction colors as [|color colors IH]; intros colorMap Hnodup;
    simpl; [done|].
  apply IH. by apply NoDup_keys_countKey.
Qed.

Lemma countOf_elem_of (colorMap : list (K * Z)) (q : K) (n : Z) :
  NoDup colorMap.*1 → (q, n) ∈ colorMap → countOf colorMap q = n.
Proof.
  induction colorMap as [|[k0 n0] colorMap IH]; simpl; intros Hnodup Hin.
  - by apply elem_of_nil in Hin.
  - apply list.NoDup_cons in Hnodup as [Hnotin Hnodup].
    apply elem_of_cons in Hin as [Heq|Hin].
    + injection Heq as -> ->. by rewrite decide_True.
    + destruct (decide (k0 = q)) as [->|Hne]; [|by apply IH].
      exfalso. apply Hnotin. apply list_elem_of_fmap. by exists (q, n).
Qed.

Lemma elem_of_countOf (colorMap : list (K * Z)) (q : K) :
  countOf colorMap q ≠ 0 → (q, countOf colorMap q) ∈ colorMap.
Proof.
  induction colorMap as [|[k0 n0] colorMap IH]; simpl; intros Hcount; [done|].
  destruct (decide (k0 = q)) as [->|Hne]; [by left|].
  right. by apply IH.
Qed.

Lemma foldl_mostCommon (colorMap : list (K * Z)) (start : K * Z) :
  let pick := λ (mostCommon entry : K * Z),
                if mostCommon.2 <? entry.2 then entry else mostCommon in
  let best := foldl pick start colorMap in
  (best = start ∨ best ∈ colorMap)
  ∧ start.2 ≤ best.2
  ∧ ∀ entry, entry ∈ colorMap → entry.2 ≤ best.2.
Proof.
  intros pick. revert start.
  induction colorMap as [|e colorMap IH]; intros start; simpl.
  - split; [by left|]. split; [lia|]. intros entry Hin.
    by apply elem_of_nil in Hin.
  - destruct (IH (pick start e)) as (Hwhere & Hstart & Hall).
    assert (start.2 ≤ (pick start e).2 ∧ e.2 ≤ (pick start e).2
            ∧ (pick start e = start ∨ pick start e = e)) as (H1 & H2 & H3).
    { unfold pick. destruct (Z.ltb_spec start.2 e.2); simpl; intuition lia. }
    split; [|split].
    + destruct Hwhere as [->|Hin]; [|right; by right].
      destruct H3 as [->| ->]; [by left | right; by left].
    + lia.
    + intros entry Hin. apply elem_of_cons in Hin as [->|Hin]; [lia|].
      by apply Hall.
Qed.

Lemma occurrences_pos (colors : list K) (color : K) :
  color ∈ colors → 0 < occurrences quantize colors (quantize color).
Proof.
  intros Hin. unfold occurrences.
  assert (color ∈ filter (λ c, quantize c = quantize color) colors) as Hf
    by (by apply list_elem_of_filter).
  destruct (filter _ colors); [by apply elem_of_nil in Hf | simpl; lia].
Qed.

Lemma occurrences_pos_inv (colors : list K) (q : K) :
  0 < occurrences quantize colors q →
  ∃ color, color ∈ colors ∧ q = quantize color.
Proof.
  unfold occurrences. intros Hpos.
  destruct (filter (λ c, quantize c = q) colors) as [|color rest] eqn:Hf;
    [simpl in Hpos; lia|].
  assert (color ∈ filter (λ c, quantize c = q) colors) as Hin
    by (rewrite Hf; by left).
  apply list_elem_of_filter in Hin as [Hq Hin]. by exists color.
Qed.

Lemma mostCommonOf_spec (colors : list K) :
  isMostCommon quantize white colors (mostCommonOf quantize white colors).
Proof.
  destruct colors as [|color0 colors0] eqn:Hcolors; [reflexivity|].
  rewrite <- Hcolors. assert (color0 ∈ colors) as Hin0 by (rewrite Hcolors; by left).
  clear Hcolors. unfold isMostCommon.
  assert (match colors with [] => False | _ => True end) as Hne
    by (destruct colors; [by apply elem_of_nil in Hin0 | done]).
  destruct colors as [|c1 rest] eqn:Hcolors; [done|]. rewrite <- Hcolors in *.
  clear Hcolors Hne c1 rest.
  unfold mostCommonOf.
  set (colorMap := foldl _ [] colors).
  assert (∀ q, countOf colorMap q = occurrences quantize colors q) as Hcount.
  { intros q. unfold colorMap. rewrite countOf_colorMap. simpl. lia. }
  assert (NoDup colorMap.*1) as Hnodup
    by (apply NoDup_keys_colorMap; constructor).
  destruct (foldl_mostCommon colorMap (white, 0)) as (Hwhere & Hstart & Hall).
  cbv zeta in Hwhere, Hstart, Hall.
  set (best := foldl _ (white, 0) colorMap) in *.
  assert (∀ color, color ∈ colors →
            occurrences quantize colors (quantize color) ≤ best.2) as Hmax.
  { intros color Hin. pose proof (occurrences_pos colors color Hin) as Hpos.
    rewrite <- Hcount in Hpos |- *.
    apply (Hall (quantize color, countOf colorMap (quantize color))).
    apply elem_of_countOf. lia. }
  assert (best ∈ colorMap) as Hbest.
  { destruct Hwhere as [Heq|Hin]; [|done].
    pose proof (Hmax color0 Hin0) as Hle.
    pose proof (occurrences_pos colors color0 Hin0) as Hpos.
    rewrite Heq in Hle. simpl in Hle. lia. }
  assert (best.2 = occurrences quantize colors best.1) as Hbest2.
  { rewrite <- Hcount. symmetry. apply countOf_elem_of; [done|].
    by destruct best. }
  split.
  - apply occurrences_pos_inv. rewrite <- Hbest2.
    pose proof (Hmax color0 Hin0). pose proof (occurrences_pos colors color0 Hin0).
    lia.
  - intros color Hin. rewrite <- Hbest2. by apply Hmax.
Qed.

End MostCommon.

(** [getMostCommonColor], of either class, returns white for no colors;
    for some colors it returns the quantization of one of them, and no
    quantized color is that of more of them. *)
Theorem most_common_color_is_most_common
    (samples : list (option Preprocessor.Color))
    (colors : list Detector.Color) :
  isMostCommon (fmap Preprocessor.quantizeColor) (Some Preprocessor.white)
               samples (Preprocessor.getMostCommonColor samples)
  ∧ isMostCommon Detector.quantizeColor Detector.white
                 colors (Detector.getMostCommonColor colors).
Proof. split; apply mostCommonOf_spec. Qed.

(** ** Background removal *)

Lemma len_whiten (d : list Z) (i : Z) : len (whiten d i) = len d.
Proof. unfold whiten. by rewrite !len_store. Qed.

Lemma get_whiten_other (d : list Z) (i j : Z) :
  ¬ (i ≤ j ≤ i + 2) → get (whiten d i) j = get d j.
Proof. intros Hj. unfold whiten. by rewrite !get_store_ne by lia. Qed.

Lemma get_whiten_color (d : list Z) (i c : Z) :
  0 ≤ i → 0 ≤ c ≤ 2 → i + c < len d → get (whiten d i) (i + c) = 255.
Proof.
  intros Hi Hc Hlen. unfold whiten.
  assert (c = 0 ∨ c = 1 ∨ c = 2) as [-> | [-> | ->]] by lia.
  - rewrite Z.add_0_r, !get_store_ne, get_store_eq by lia. done.
  - by rewrite get_store_ne, get_store_eq by (rewrite ?len_store; lia).
  - by rewrite get_store_eq by (rewrite ?len_store; lia).
Qed.

(** What a loop leaves that whitens the pixels chosen by [chosen], a test
    on the color entries of the pixel. *)
Lemma whiten_loop (chosen : list Z → Z → bool) (d : list Z) :
  (∀ d d' i, get d i = get d' i → get d (i + 1) = get d' (i + 1) →
             get d (i + 2) = get d' (i + 2) → chosen d i = chosen d' i) →
  let out := foldl (λ d i, if chosen d i then whiten d i else d) d
                   (Preprocessor.pixelOffsets d) in
  len out = len d
  ∧ (∀ p c, 0 ≤ p → 0 ≤ c ≤ 2 → 4 * p + c < len d →
            get out (4 * p + c)
            = if chosen d (4 * p) then 255 else get d (4 * p + c))
  ∧ (∀ p, get out (4 * p + 3) = get d (4 * p + 3)).
Proof.
  intros Hlocal.
  assert (∀ d i, len (if chosen d i then whiten d i else d) = len d) as Hlen.
  { intros d' i. destruct (chosen d' i); [apply len_whiten | done]. }
  assert (∀ d i j, ¬ (i ≤ j ≤ i + 2) →
            get (if chosen d i then whiten d i else d) j = get d j) as Hother.
  { intros d' i j Hj. destruct (chosen d' i); [by apply get_whiten_other | done]. }
  split; [apply len_foldl_step, Hlen|]. split.
  - intros p c Hp Hc Hin.
    apply (pixel_loop_color
             (λ d i, if chosen d i then whiten d i else d)
             (λ d i c, if chosen d i then 255 else get d (i + c)));
      try done.
    + intros d' i c' Hi Hc' Hlt. destruct (chosen d' i); [|done].
      by apply get_whiten_color.
    + intros d1 d2 i c' Hc' H0 H1 H2. rewrite (Hlocal d1 d2 i H0 H1 H2).
      destruct (chosen d2 i); [done|].
      assert (c' = 0 ∨ c' = 1 ∨ c' = 2) as [-> | [-> | ->]] by lia;
        [rewrite !Z.add_0_r| |]; done.
  - intros p. by apply pixel_loop_alpha.
Qed.

Lemma foldl_store_fmap (index value : Z → Z) (offsets : list Z)
    (mask : list Z) :
  foldl (λ mask i, store mask (index i) (value i)) mask offsets
  = foldl (λ newData write, store newData write.1 write.2) mask
          ((λ i, (index i, value i)) <$> offsets).
Proof. by rewrite foldl_fmap. Qed.

(** The mask holds, for each pixel of the image, its squared distance from
    the background color. *)
Lemma createTextMask_lookup (img : ImageData) (bgColor : Detector.Color)
    (p : Z) :
  len (data img) = 4 * width img * height img →
  0 ≤ p < width img * height img →
  Detector.createTextMask img bgColor !! Z.to_nat p
  = Some (Detector.distanceSquared (data img) (4 * p) bgColor).
Proof.
  intros Hlen Hp. unfold Detector.createTextMask.
  rewrite foldl_store_fmap.
  set (zeros := replicate (Z.to_nat (width img * height img)) 0).
  assert (len zeros = width img * height img) as Hzeros.
  { unfold zeros, len. rewrite length_replicate. lia. }
  set (writes := _ <$> Preprocessor.pixelOffsets (data img)).
  assert (get (foldl (λ newData write, store newData write.1 write.2)
                     zeros writes) p
          = Detector.distanceSquared (data img) (4 * p) bgColor) as Hget.
  { apply get_foldl_store; [| |lia].
    - intros v' Hv'. apply list_elem_of_fmap in Hv' as (i & Heq & Hi).
      apply elem_of_pixelOffsets in Hi. injection Heq as Hp' ->.
      pose proof (Z.div_mod i 4). replace i with (4 * p) by lia. done.
    - apply list_elem_of_fmap. exists (4 * p). split.
      + f_equal. rewrite Z.mul_comm. symmetry. apply Z.div_mul. lia.
      + apply elem_of_pixelOffsets. split; [lia|].
        rewrite Z.mul_comm. apply Z.mod_mul. lia. }
  rewrite <- Hget. unfold get.
  destruct (Z.ltb_spec p 0); [lia|]. rewrite nth_lookup.
  destruct (lookup_lt_is_Some_2
              (foldl (λ newData write, store newData write.1 write.2)
                     zeros writes) (Z.to_nat p)) as [v Hv].
  { pose proof (len_foldl_store writes zeros) as Hsize. unfold len in *. lia. }
  by rewrite Hv.
Qed.

Lemma removeComplexBackground_pixel (img : ImageData) (p c : Z) :
  len (data img) = 4 * width img * height img →
  0 ≤ p < width img * height img → 0 ≤ c ≤ 2 →
  let d := data img in
  let out := data (Detector.removeComplexBackground img) in
  let s := Detector.distanceSquared d (4 * p)
             (Detector.findBackgroundColor img) in
  len out = len d
  ∧ get out (4 * p + c) = (if s <? 2500 then 255 else get d (4 * p + c))
  ∧ get out (4 * p + 3) = get d (4 * p + 3).
Proof.
  intros Hlen Hp Hc d out s.
  destruct (whiten_loop
              (λ _ i, Detector.maskBelowHalf
                        (Detector.createTextMask img
                           (Detector.findBackgroundColor img)) (i / 4))
              d) as (Hsize & Hcolor & Halpha); [done|].
  split; [exact Hsize|]. split; [|apply Halpha].
  unfold out, Detector.removeComplexBackground. cbn [data]. fold d.
  rewrite Hcolor by (unfold d; lia).
  unfold Detector.maskBelowHalf.
  replace (4 * p / 4) with p by (rewrite Z.mul_comm, Z.div_mul; lia).
  by rewrite createTextMask_lookup.
Qed.

Lemma removeBackground_spec (img : ImageData) :
  let d := data img in
  let out := data (Preprocessor.removeBackground img) in
  len out = len d
  ∧ (∀ p c, 0 ≤ p → 0 ≤ c ≤ 2 → 4 * p + c < len d →
       get out (4 * p + c)
       = match Preprocessor.backgroundColor img with
         | Some bgColor =>
             if Preprocessor.distanceSquared d (4 * p) bgColor <? 900
             then 255 else get d (4 * p + c)
         | None => get d (4 * p + c)
         end)
  ∧ (∀ p, get out (4 * p + 3) = get d (4 * p + 3)).
Proof.
  intros d out.
  set (chosen := λ (d : list Z) (i : Z),
         match Preprocessor.backgroundColor img with
         | Some bgColor => Preprocessor.distanceSquared d i bgColor <? 900
         | None => false
         end).
  assert (out = foldl (λ d i, if chosen d i then whiten d i else d) d
                      (Preprocessor.pixelOffsets d)) as ->.
  { unfold out, Preprocessor.removeBackground. cbn [data]. fold d.
    apply foldl_ext_in. intros acc i _. unfold chosen.
    by destruct (Preprocessor.backgroundColor img). }
  destruct (whiten_loop chosen d) as (Hsize & Hcolor & Halpha).
  { intros d1 d2 i H0 H1 H2. unfold chosen, Preprocessor.distanceSquared.
    by rewrite H0, H1, H2. }
  split; [exact Hsize|]. split; [|apply Halpha].
  intros p c Hp Hc Hlen. rewrite Hcolor by done. unfold chosen.
  by destruct (Preprocessor.backgroundColor img).
Qed.

(** Both background removers turn white the pixels whose color is near
    the background color they found - within 50 of it for
    [removeComplexBackground], within 30 for [removeBackground] - and
    leave every other pixel, and every alpha entry, as it is. *)
Theorem background_removal_whitens_near_pixels (img : ImageData) (p c : Z) :
  wf_image img → 0 ≤ p < width img * height img → 0 ≤ c ≤ 2 →
  let d := data img in
  let near :=
    Detector.distanceSquared d (4 * p) (Detector.findBackgroundColor img)
    <? 50 ^ 2 in
  let near' :=
    match Preprocessor.backgroundColor img with
    | Some bgColor =>
        Preprocessor.distanceSquared d (4 * p) bgColor <? 30 ^ 2
    | None => false
    end in
  let out := data (Detector.removeComplexBackground img) in
  let out' := data (Preprocessor.removeBackground img) in
  len out = len d ∧ len out' = len d
  ∧ get out (4 * p + c) = (if near then 255 else get d (4 * p + c))
  ∧ get out' (4 * p + c) = (if near' then 255 else get d (4 * p + c))
  ∧ get out (4 * p + 3) = get d (4 * p + 3)
  ∧ get out' (4 * p + 3) = get d (4 * p + 3).
Proof.
  intros (Hw & Hh & Hlen & Hbytes) Hp Hc d near near' out out'.
  destruct (removeComplexBackground_pixel img p c Hlen Hp Hc)
    as (Hsize & Hcolor & Halpha).
  destruct (removeBackground_spec img) as (Hsize' & Hcolor' & Halpha').
  split; [exact Hsize|]. split; [exact Hsize'|].
  split; [exact Hcolor|]. split; [|split; [exact Halpha | apply Halpha']].
  unfold out', near'. rewrite Hcolor' by lia.
  by destruct (Preprocessor.backgroundColor img).
Qed.

Lemma background_removal_whitens_near_pixels_witness :
  let d := data blackDot in
  wf_image blackDot ∧ 0 ≤ 4 < width blackDot * height blackDot ∧ 0 ≤ 0 ≤ 2
  ∧ len (data (Detector.removeComplexBackground blackDot)) = len d
  ∧ get (data (Detector.removeComplexBackground blackDot)) (4 * 4 + 0)
    = (if Detector.distanceSquared d (4 * 4)
            (Detector.findBackgroundColor blackDot) <? 50 ^ 2
       then 255 else get d (4 * 4 + 0)).
Proof.
  intros d.
  assert (0 ≤ 4 < width blackDot * height blackDot) as Hp
    by (vm_compute; intuition discriminate).
  assert (0 ≤ 0 ≤ 2) as Hc by lia.
  split; [exact blackDot_wf|]. split; [exact Hp|]. split; [exact Hc|].
  destruct (background_removal_whitens_near_pixels blackDot 4 0
              blackDot_wf Hp Hc) as (Hsize & _ & Hcolor & _).
  split; [exact Hsize | exact Hcolor].
Defined.

Lemma round_div_16 (a : Z) :
  Num.round (Num.ofZ a / Num.ofZ 16)%Qc = (a + 8) / 16.
Proof.
  unfold Num.round. rewrite (Zdiv_Qdiv (a + 8) 16).
  apply Qfloor_comp. unfold Num.dec, Num.ofZ, Qcplus, Qcdiv, Qcmult, Qcinv, Q2Qc.
  cbn [this]. rewrite !Qred_correct. rewrite inject_Z_plus. field.
Qed.

(** Quantizing a channel moves it by 8 at most. *)
Lemma quantize16_near (v : Z) : (v - quantize16 v) ^ 2 ≤ 64.
Proof.
  unfold quantize16. rewrite round_div_16.
  pose proof (Z.div_mod (v + 8) 16). pose proof (Z.mod_pos_bound (v + 8) 16).
  nia.
Qed.

Lemma sampleArea_spec (d : list Z) (width x y w h : Z) :
  Preprocessor.sampleArea d width x y w h
  = Num.range 0 h 1 ≫= λ dy,
      omap (λ dx, let idx := ((y + dy) * width + (x + dx)) * 4 in
                  if idx <? len d
                  then Some (if idx <? 0 then None
                             else Some (Preprocessor.colorAt d idx))
                  else None)
           (Num.range 0 w 1).
Proof.
  unfold Preprocessor.sampleArea.
  rewrite <- (app_nil_l (_ ≫= _)), <- foldl_append.
  apply foldl_ext_in. intros acc dy _.
  rewrite <- foldl_push. apply foldl_ext_in. intros acc' dx _. cbv zeta.
  by destruct (_ <? len d).
Qed.

Lemma elem_of_sampleArea (d : list Z) (width x y w h : Z)
    (sample : option Preprocessor.Color) :
  sample ∈ Preprocessor.sampleArea d width x y w h
  ↔ ∃ dx dy, 0 ≤ dx < w ∧ 0 ≤ dy < h
      ∧ ((y + dy) * width + (x + dx)) * 4 < len d
      ∧ sample = if ((y + dy) * width + (x + dx)) * 4 <? 0 then None
                 else Some (Preprocessor.colorAt d
                              (((y + dy) * width + (x + dx)) * 4)).
Proof.
  rewrite sampleArea_spec, list_elem_of_bind. split.
  - intros (dy & Hin & Hdy). apply list_elem_of_omap in Hin as (dx & Hdx & Hs).
    apply elem_of_range in Hdy, Hdx; [|lia..]. cbv zeta in Hs.
    destruct (Z.ltb_spec (((y + dy) * width + (x + dx)) * 4) (len d));
      [|discriminate].
    injection Hs as <-. exists dx, dy. repeat split; (lia || done).
  - intros (dx & dy & Hdx & Hdy & Hlt & ->). exists dy.
    split; [|apply elem_of_range; [lia|]; split; [lia|]; apply Z.mod_1_r].
    apply list_elem_of_omap. exists dx.
    split; [apply elem_of_range; [lia|]; split; [lia|]; apply Z.mod_1_r|].
    cbv zeta.
    destruct (Z.ltb_spec (((y + dy) * width + (x + dx)) * 4) (len d));
      [done|lia].
Qed.

Lemma isMostCommon_uniform {K : Type} `{EqDecision K} (quantize : K → K)
    (white : K) (colors : list K) (color result : K) :
  isMostCommon quantize white colors result →
  color ∈ colors → (∀ c, c ∈ colors → c = color) →
  result = quantize color.
Proof.
  intros Hmost Hin Hall. destruct colors as [|c0 colors];
    [by apply elem_of_nil in Hin|].
  destruct Hmost as [(c & Hc & ->) _]. by rewrite (Hall c Hc).
Qed.

Lemma findBackgroundColor_uniform (img : ImageData) (r0 g0 b0 : Z) :
  wf_image img → uniformColor img r0 g0 b0 →
  Detector.findBackgroundColor img
  = Detector.quantizeColor (Detector.mkColor r0 g0 b0).
Proof.
  intros (Hw & Hh & Hlen & _) Huniform.
  assert (∀ q, 0 ≤ q < width img * height img →
            Detector.colorAt (data img) (q * 4) = Detector.mkColor r0 g0 b0)
    as Hcolor.
  { intros q Hq. destruct (Huniform q Hq) as (H0 & H1 & H2).
    unfold Detector.colorAt. replace (q * 4) with (4 * q) by lia.
    by rewrite H0, H1, H2. }
  unfold Detector.findBackgroundColor. cbv zeta.
  rewrite !foldl_append, app_nil_l.
  apply (isMostCommon_uniform _ Detector.white _ _ _
           (mostCommonOf_spec _ _ _)).
  - apply elem_of_app. left. apply list_elem_of_bind. exists 0. split.
    + apply elem_of_cons. left. symmetry. apply (Hcolor 0). nia.
    + apply elem_of_range; [lia|]. split; [lia | reflexivity].
  - intros c Hc. apply elem_of_app in Hc as [Hc|Hc];
      apply list_elem_of_bind in Hc as (v & Hc & Hv);
      apply elem_of_range in Hv as [Hv _]; try lia;
      apply elem_of_cons in Hc as [->|Hc];
      try (apply list_elem_of_singleton in Hc as ->);
      apply Hcolor; nia.
Qed.

Lemma backgroundColor_uniform (img : ImageData) (r0 g0 b0 : Z) :
  wf_image img → uniformColor img r0 g0 b0 →
  10 ≤ width img → 10 ≤ height img →
  Preprocessor.backgroundColor img
  = Some (Preprocessor.quantizeColor (Preprocessor.mkColor r0 g0 b0)).
Proof.
  intros (Hw & Hh & Hlen & _) Huniform Hwide Hhigh.
  assert (∀ x y sample,
            0 ≤ x → 0 ≤ y →
            sample ∈ Preprocessor.sampleArea (data img) (width img) x y 10 10 →
            sample = Some (Preprocessor.mkColor r0 g0 b0)) as Harea.
  { intros x y sample Hx Hy Hin.
    apply elem_of_sampleArea in Hin as (dx & dy & Hdx & Hdy & Hlt & ->).
    destruct (Z.ltb_spec (((y + dy) * width img + (x + dx)) * 4) 0); [nia|].
    destruct (Huniform ((y + dy) * width img + (x + dx))) as (H0 & H1 & H2);
      [nia|].
    unfold Preprocessor.colorAt.
    replace (((y + dy) * width img + (x + dx)) * 4)
      with (4 * ((y + dy) * width img + (x + dx))) by lia.
    by rewrite H0, H1, H2. }
  unfold Preprocessor.backgroundColor, Preprocessor.getMostCommonColor.
  change (Some (Preprocessor.quantizeColor (Preprocessor.mkColor r0 g0 b0)))
    with (Preprocessor.quantizeColor <$> Some (Preprocessor.mkColor r0 g0 b0)).
  apply (isMostCommon_uniform (fmap Preprocessor.quantizeColor)
           (Some Preprocessor.white) _
           (Some (Preprocessor.mkColor r0 g0 b0)) _
           (mostCommonOf_spec _ _ _)).
  - unfold Preprocessor.cornerSamples. apply elem_of_app. left.
    assert (Some (Preprocessor.colorAt (data img) (((0 + 0) * width img + (0 + 0)) * 4))
            ∈ Preprocessor.sampleArea (data img) (width img) 0 0 10 10) as Hin.
    { apply elem_of_sampleArea. exists 0, 0.
      split; [lia|]. split; [lia|]. split; [nia|].
      destruct (Z.ltb_spec (((0 + 0) * width img + (0 + 0)) * 4) 0); [lia|done]. }
    rewrite <- (Harea 0 0 _ ltac:(lia) ltac:(lia) Hin) at 1. exact Hin.
  - intros sample Hin. unfold Preprocessor.cornerSamples in Hin.
    rewrite !elem_of_app in Hin.
    destruct Hin as [Hin | [Hin | [Hin | Hin]]];
      (eapply Harea; [| |exact Hin]; lia).
Qed.

(** [removeComplexBackground] whitens every color entry of an image of one
    color. *)
Lemma uniform_whitened (img : ImageData) (r0 g0 b0 p : Z) :
  wf_image img → uniformColor img r0 g0 b0 →
  0 ≤ p < width img * height img →
  ∀ c, 0 ≤ c ≤ 2 →
    get (data (Detector.removeComplexBackground img)) (4 * p + c) = 255.
Proof.
  intros Hwf Huniform Hp c Hc.
  pose proof (findBackgroundColor_uniform img r0 g0 b0 Hwf Huniform) as Hbg.
  destruct (Huniform p Hp) as (H0 & H1 & H2).
  pose proof (quantize16_near r0). pose proof (quantize16_near g0).
  pose proof (quantize16_near b0).
  destruct Hwf as (Hw & Hh & Hlen & Hbytes).
  destruct (removeComplexBackground_pixel img p c Hlen Hp Hc) as (_ & -> & _).
  rewrite Hbg. unfold Detector.distanceSquared, Detector.quantizeColor.
  cbn [Detector.r Detector.g Detector.b]. rewrite H0, H1, H2.
  destruct (Z.ltb_spec ((r0 - quantize16 r0) ^ 2 + (g0 - quantize16 g0) ^ 2
                        + (b0 - quantize16 b0) ^ 2) 2500); [done|lia].
Qed.

(** An image of one color loses it: [removeComplexBackground] finds the
    quantized color as background and turns every pixel white, and so does
    [removeBackground] on an image at least 10 pixels wide and high. *)
Theorem uniform_image_becomes_white (img : ImageData) (r0 g0 b0 p : Z) :
  wf_image img → uniformColor img r0 g0 b0 →
  0 ≤ p < width img * height img →
  Detector.findBackgroundColor img
  = Detector.mkColor (quantize16 r0) (quantize16 g0) (quantize16 b0)
  ∧ pixelIs (data (Detector.removeComplexBackground img)) p 255
  ∧ (10 ≤ width img → 10 ≤ height img →
     Preprocessor.backgroundColor img
     = Some (Preprocessor.mkColor (quantize16 r0) (quantize16 g0)
                                   (quantize16 b0))
     ∧ pixelIs (data (Preprocessor.removeBackground img)) p 255).
Proof.
  intros Hwf Huniform Hp.
  pose proof (findBackgroundColor_uniform img r0 g0 b0 Hwf Huniform) as Hbg.
  destruct (Huniform p Hp) as (H0 & H1 & H2).
  pose proof (quantize16_near r0). pose proof (quantize16_near g0).
  pose proof (quantize16_near b0).
  destruct Hwf as (Hw & Hh & Hlen & Hbytes).
  split; [exact Hbg|]. split.
  - pose proof (uniform_whitened img r0 g0 b0 p
                  (conj Hw (conj Hh (conj Hlen Hbytes))) Huniform Hp) as Hwhite.
    unfold pixelIs. rewrite <- (Z.add_0_r (4 * p)) at 1.
    split; [|split]; apply Hwhite; lia.
  - intros Hwide Hhigh.
    pose proof (backgroundColor_uniform img r0 g0 b0
                  (conj Hw (conj Hh (conj Hlen Hbytes))) Huniform Hwide Hhigh)
      as Hbg'.
    split; [exact Hbg'|].
    assert (∀ c, 0 ≤ c ≤ 2 →
              get (data (Preprocessor.removeBackground img)) (4 * p + c)
              = 255) as Hwhite.
    { intros c Hc.
      destruct (removeBackground_spec img) as (_ & Hcolor & _).
      rewrite Hcolor by lia. rewrite Hbg'.
      unfold Preprocessor.distanceSquared, Preprocessor.quantizeColor.
      cbn [Preprocessor.r Preprocessor.g Preprocessor.b].
      rewrite H0, H1, H2.
      destruct (Z.ltb_spec ((r0 - quantize16 r0) ^ 2 + (g0 - quantize16 g0) ^ 2
                            + (b0 - quantize16 b0) ^ 2) 900); [done|lia]. }
    unfold pixelIs. rewrite <- (Z.add_0_r (4 * p)) at 1.
    split; [|split]; apply Hwhite; lia.
Qed.

Lemma uniformColor_intro (img : ImageData) (r0 g0 b0 : Z) :
  forallb (λ q, (get (data img) (4 * q) =? r0)
                && (get (data img) (4 * q + 1) =? g0)
                && (get (data img) (4 * q + 2) =? b0))
          (Num.range 0 (width img * height img) 1) = true →
  uniformColor img r0 g0 b0.
Proof.
  intros Hall q Hq. rewrite forallb_forall in Hall.
  specialize (Hall q). rewrite <- list_elem_of_In in Hall.
  rewrite elem_of_range in Hall by lia.
  assert (0 ≤ q < width img * height img ∧ (q - 0) mod 1 = 0) as Hin
    by (split; [lia | apply Z.mod_1_r]).
  specialize (Hall Hin). lia.
Qed.

Lemma orangeCard_wf : wf_image orangeCard.
Proof. apply wf_image_intro; [lia | lia | reflexivity | reflexivity]. Defined.

Lemma orangeCard_uniform : uniformColor orangeCard 200 120 40.
Proof. apply uniformColor_intro. reflexivity. Defined.

Lemma uniform_image_becomes_white_witness :
  wf_image orangeCard ∧ uniformColor orangeCard 200 120 40
  ∧ 0 ≤ 77 < width orangeCard * height orangeCard
  ∧ Detector.findBackgroundColor orangeCard = Detector.mkColor 208 128 48
  ∧ pixelIs (data (Detector.removeComplexBackground orangeCard)) 77 255
  ∧ pixelIs (data (Preprocessor.removeBackground orangeCard)) 77 255.
Proof.
  assert (0 ≤ 77 < width orangeCard * height orangeCard) as Hp
    by (vm_compute; intuition discriminate).
  split; [exact orangeCard_wf|]. split; [exact orangeCard_uniform|].
  split; [exact Hp|].
  destruct (uniform_image_becomes_white orangeCard 200 120 40 77
              orangeCard_wf orangeCard_uniform Hp) as (Hbg & Hwhite & Hpre).
  split; [exact Hbg|]. split; [exact Hwhite|].
  apply Hpre; vm_compute; discriminate.
Defined.

(** ** The histograms of the two threshold computations *)

Lemma grayAt_gray (d : list Z) (p gray : Z) :
  pixelIs d p gray → Detector.grayAt d (4 * p) = Num.ofZ gray.
Proof.
  intros (H0 & H1 & H2). unfold Detector.grayAt. rewrite H0, H1, H2.
  apply Qc_is_canon.
  unfold Num.ofZ, Qcdiv, Qcmult, Qcinv, Q2Qc. cbn [this].
  rewrite !Qred_correct. unfold Qeq, Qmult, Qinv, inject_Z. simpl. lia.
Qed.

(** On a gray pixel the mean of the channels, rounded, is the luma: both
    are the gray value. *)
Lemma averageGray_gray (d : list Z) (p gray : Z) :
  0 ≤ gray ≤ 255 → pixelIs d p gray →
  Detector.averageGray d (4 * p) = lumaAt d (4 * p).
Proof.
  intros Hgray Hpix. unfold Detector.averageGray.
  rewrite (grayAt_gray d p gray Hpix), round_ofZ.
  symmetry. by apply lumaAt_gray.
Qed.

Lemma countGray_ext (gray gray' : list Z → Z → Z) (d : list Z) (level : Z) :
  (∀ i, i ∈ Preprocessor.pixelOffsets d → gray d i = gray' d i) →
  countGray gray d level = countGray gray' d level.
Proof.
  intros Hext. unfold countGray. do 2 f_equal.
  apply List.filter_ext_in. intros i Hi. rewrite Hext; [done|].
  by apply list_elem_of_In.
Qed.

(** The bins of the two histograms: the number of pixels that the gray
    value of each loop sends there. *)
Lemma histogram_bins (d : list Z) (level : Z) :
  0 ≤ level < 256 →
  get (Preprocessor.buildHistogram d) level = countGray lumaAt d level
  ∧ get (Detector.buildHistogram d) level
    = countGray Detector.averageGray d level.
Proof.
  intros Hlevel. unfold Preprocessor.buildHistogram, Detector.buildHistogram.
  rewrite (histogram_count (Preprocessor.luma d)),
    (histogram_count (Detector.averageGray d));
    [| unfold len; rewrite length_replicate; lia
     | unfold len; rewrite length_replicate; lia ].
  by rewrite get_zeros.
Qed.

(** [removeColorNoise] leaves a buffer of gray pixels. *)
Lemma removeColorNoise_gray (img : ImageData) :
  (len (data img)) mod 4 = 0 →
  grayPixels (data (Detector.removeColorNoise img)).
Proof.
  intros Hmod p Hp Hlen.
  assert (len (data (Detector.removeColorNoise img)) = len (data img)) as Hsize
    by apply (len_foldl_paint (λ d i, clampByte (Preprocessor.luma d i))).
  rewrite Hsize in Hlen.
  assert (4 * p + 3 < len (data img)) as Hlen'.
  { pose proof (Z.div_mod (len (data img)) 4). lia. }
  destruct (removeColorNoise_pixel img p Hp Hlen') as (_ & Hpix & _).
  eexists. split; [|exact Hpix]. apply clampByte_range.
Qed.

Lemma pixel_coordinates (w h p : Z) :
  0 < w → 0 ≤ p < w * h →
  p = (p / w) * w + p mod w ∧ 0 ≤ p mod w < w ∧ 0 ≤ p / w < h.
Proof.
  intros Hw Hp. pose proof (Z.div_mod p w). pose proof (Z.mod_pos_bound p w Hw).
  split; [lia|]. split; [done|].
  split; [apply Z.div_pos; lia|]. apply Z.div_lt_upper_bound; lia.
Qed.

(** [sharpenText] keeps gray pixels gray: the three channels of a pixel
    get the same sum, and the border is not written. *)
Lemma sharpenText_gray (img : ImageData) :
  0 < width img → len (data img) = 4 * width img * height img →
  grayPixels (data img) → grayPixels (data (Detector.sharpenText img)).
Proof.
  intros Hw Hlen Hgray p Hp Hp'.
  set (w := width img) in *. set (h := height img) in *.
  set (entry := λ x y c,
         Z.min 255 (Z.max 0 (kernelSum [0; -1; 0; -1; 6; -1; 0; -1; 0]
                                       (data img) w x y c))).
  destruct (rewriteInner_spec entry img Hlen)
    as (_ & _ & Hsize & Hwritten & _ & Hborder).
  fold w h in Hwritten, Hborder.
  change (rewriteInner entry img) with (Detector.sharpenText img)
    in Hsize, Hwritten, Hborder.
  rewrite Hsize, Hlen in Hp'.
  destruct (pixel_coordinates w h p Hw) as (Hxy & Hx & Hy); [lia|].
  set (x := p mod w) in *. set (y := p / w) in *.
  assert (∀ c, 4 * p + c = (y * w + x) * 4 + c) as Hindex by (intros; lia).
  assert (∀ q c, 0 ≤ q < w * h → 0 ≤ c ≤ 2 →
            get (data img) (q * 4 + c) = get (data img) (q * 4)
            ∧ 0 ≤ get (data img) (q * 4) ≤ 255) as Hsame.
  { intros q c Hq Hc. destruct (Hgray q) as (g & Hg & H0 & H1 & H2);
      [lia | lia |].
    replace (q * 4) with (4 * q) by lia.
    assert (c = 0 ∨ c = 1 ∨ c = 2) as [-> | [-> | ->]] by lia;
      rewrite ?Z.add_0_r; split; congruence || lia. }
  destruct (decide (1 ≤ x < w - 1 ∧ 1 ≤ y < h - 1)) as [Hinner|Houter].
  - exists (entry x y 0). split; [unfold entry; lia|].
    assert (∀ c, 0 ≤ c ≤ 2 → entry x y c = entry x y 0) as Hentry.
    { intros c Hc. unfold entry. rewrite !kernelSum_cross.
      destruct (Hsame (y * w + x) c) as [-> _]; [nia | done |].
      destruct (Hsame ((y - 1) * w + x) c) as [-> _]; [nia | done |].
      destruct (Hsame (y * w + (x - 1)) c) as [-> _]; [nia | done |].
      destruct (Hsame (y * w + (x + 1)) c) as [-> _]; [nia | done |].
      destruct (Hsame ((y + 1) * w + x) c) as [-> _]; [nia | done |].
      by rewrite !Z.add_0_r. }
    assert (∀ c, 0 ≤ c ≤ 2 →
              get (data (Detector.sharpenText img)) (4 * p + c) = entry x y 0)
      as Hall.
    { intros c Hc. rewrite Hindex, Hwritten by (unfold innerEntry; lia).
      by apply Hentry. }
    split; [|split; apply Hall; lia].
    replace (4 * p) with (4 * p + 0) by lia. apply Hall. lia.
  - destruct (Hgray p) as (g & Hg & H0 & H1 & H2); [lia | lia |].
    exists g. split; [done|].
    assert (∀ c, 0 ≤ c ≤ 2 →
              get (data (Detector.sharpenText img)) (4 * p + c)
              = get (data img) (4 * p + c)) as Hall.
    { intros c Hc. rewrite Hindex. apply Hborder; lia. }
    split; [|split; rewrite Hall by lia; done].
    replace (4 * p) with (4 * p + 0) by lia. rewrite Hall by lia.
    by rewrite Z.add_0_r.
Qed.

(** The buffer that [binarizeForText], and [calculateAdaptiveThreshold]
    with it, is given has only gray pixels. *)
Lemma beforeBinarizeForText_gray (img : ImageData) :
  wf_image img → grayPixels (data (beforeBinarizeForText img)).
Proof.
  intros (Hw & Hh & Hlen & _). unfold beforeBinarizeForText.
  set (contrasted := Detector.increaseContrast img (Num.ofZ 2)).
  assert (len (data contrasted) = len (data img)) as Hsize.
  { apply (mapChannels_loop (Preprocessor.contrastEntry (Num.ofZ 2))). }
  apply sharpenText_gray.
  - done.
  - change (len (data (Detector.removeColorNoise contrasted))
            = 4 * width img * height img).
    rewrite <- Hlen, <- Hsize.
    apply (len_foldl_paint (λ d i, clampByte (Preprocessor.luma d i))).
  - apply removeColorNoise_gray. rewrite Hsize, Hlen.
    replace (4 * width img * height img) with (width img * height img * 4)
      by lia.
    apply Z.mod_mul. lia.
Qed.

(** C5: for every buffer, the histogram of the Otsu path of [binarize]
    counts in each bin [gray] the pixels of luma
    [gray = round(0.299 R + 0.587 G + 0.114 B)]; so does the histogram of
    [calculateAdaptiveThreshold] (the bimodal-peak path and its Otsu
    fallback) for every buffer of gray pixels, where the rounded mean of the
    channels that its loop takes is the luma; and the buffer that
    [enhanceTextRegion], its one caller, hands to it has only gray pixels,
    whatever the image. *)
Theorem histograms_count_luma (d : list Z) (img : ImageData) (level : Z) :
  0 ≤ level < 256 → wf_image img →
  let enhanced := beforeBinarizeForText img in
  get (Preprocessor.buildHistogram d) level = countGray lumaAt d level
  ∧ (grayPixels d →
     get (Detector.buildHistogram d) level = countGray lumaAt d level)
  ∧ Detector.enhanceTextRegion img = Detector.binarizeForText enhanced
  ∧ grayPixels (data enhanced)
  ∧ get (Detector.buildHistogram (data enhanced)) level
    = countGray lumaAt (data enhanced) level.
Proof.
  intros Hlevel Hwf enhanced.
  assert (∀ d, grayPixels d →
            get (Detector.buildHistogram d) level = countGray lumaAt d level)
    as Hgray.
  { intros d' Hd. rewrite (proj2 (histogram_bins d' level Hlevel)).
    apply countGray_ext. intros i Hi.
    apply elem_of_pixelOffsets in Hi as [Hi Hmod].
    apply Z.mod_divide in Hmod; [|lia]. destruct Hmod as [p ->].
    replace (p * 4) with (4 * p) in * by lia.
    destruct (Hd p) as (gray & Hbyte & Hpix); [lia | lia |].
    by apply (averageGray_gray d' p gray). }
  split; [apply (histogram_bins d level Hlevel)|].
  split; [apply Hgray|]. split; [reflexivity|].
  split; [by apply beforeBinarizeForText_gray|].
  by apply Hgray, beforeBinarizeForText_gray.
Qed.

Lemma histograms_count_luma_witness :
  let d := [7; 7; 7; 255] in
  let enhanced := beforeBinarizeForText blackDot in
  0 ≤ 7 < 256 ∧ wf_image blackDot ∧ grayPixels d
  ∧ get (Preprocessor.buildHistogram d) 7 = countGray lumaAt d 7
  ∧ get (Detector.buildHistogram d) 7 = countGray lumaAt d 7
  ∧ Detector.enhanceTextRegion blackDot = Detector.binarizeForText enhanced
  ∧ grayPixels (data enhanced)
  ∧ get (Detector.buildHistogram (data enhanced)) 7
    = countGray lumaAt (data enhanced) 7.
Proof.
  intros d enhanced.
  assert (0 ≤ 7 < 256) as Hlevel by lia.
  assert (grayPixels d) as Hgray.
  { intros p Hp Hlen. assert (p = 0) as -> by (unfold d, len in Hlen; simpl in Hlen; lia).
    exists 7. split; [lia|]. by repeat split. }
  destruct (histograms_count_luma d blackDot 7 Hlevel blackDot_wf)
    as (H1 & H2 & H3 & H4 & H5).
  split; [exact Hlevel|]. split; [exact blackDot_wf|]. split; [exact Hgray|].
  split; [exact H1|]. split; [exact (H2 Hgray)|]. split; [exact H3|].
  split; [exact H4 | exact H5].
Defined.

(** ** The pipelines *)

Lemma sameShape_refl (img : ImageData) : sameShape img img.
Proof. by repeat split. Qed.

Lemma sameShape_trans (a b c : ImageData) :
  sameShape a b → sameShape b c → sameShape a c.
Proof.
  intros (Hw & Hh & Hlen & Halpha) (Hw' & Hh' & Hlen' & Halpha').
  split; [congruence|]. split; [congruence|]. split; [congruence|].
  intros p Hp Hin. rewrite Halpha by lia. by apply Halpha'.
Qed.

Lemma rewriteInner_shape (entry : Z → Z → Z → Z) (img : ImageData) :
  len (data img) = 4 * width img * height img →
  sameShape (rewriteInner entry img) img.
Proof.
  intros Hlen.
  destruct (rewriteInner_spec entry img Hlen)
    as (Hwidth & Hheight & Hsize & _ & Halpha & _).
  split; [done|]. split; [done|]. split; [done|]. intros p _ _. apply Halpha.
Qed.

Lemma mapChannels_shape (f : Z → Z) (img : ImageData) :
  sameShape (mkImage (width img) (height img)
               (foldl (mapChannels f) (data img)
                      (Preprocessor.pixelOffsets (data img)))) img.
Proof.
  destruct (mapChannels_loop f (data img)) as (Hsize & _ & Halpha).
  split; [done|]. split; [done|]. split; [done|]. intros p _ _. apply Halpha.
Qed.

Lemma paint_shape (binaryOf : list Z → Z → Z) (img : ImageData) :
  sameShape (mkImage (width img) (height img)
               (foldl (paint binaryOf) (data img)
                      (Preprocessor.pixelOffsets (data img)))) img.
Proof.
  split; [done|]. split; [done|]. split; [apply len_foldl_paint|].
  intros p _ _. cbn [data].
  apply (pixel_loop_alpha (paint binaryOf)). intros d i j Hj.
  unfold paint. by rewrite !get_store_ne by lia.
Qed.

Lemma removeBackground_shape (img : ImageData) :
  sameShape (Preprocessor.removeBackground img) img.
Proof.
  destruct (removeBackground_spec img) as (Hsize & _ & Halpha).
  split; [done|]. split; [done|]. split; [done|]. intros p _ _. apply Halpha.
Qed.

(** A binarization loop leaves a black and white buffer. *)
Lemma paint_blackAndWhite (binaryOf : list Z → Z → Z) (d : list Z) :
  (∀ d d' i, get d i = get d' i → get d (i + 1) = get d' (i + 1) →
             get d (i + 2) = get d' (i + 2) → binaryOf d i = binaryOf d' i) →
  (∀ d i, binaryOf d i = 0 ∨ binaryOf d i = 255) →
  len d mod 4 = 0 →
  blackAndWhite (foldl (paint binaryOf) d (Preprocessor.pixelOffsets d)).
Proof.
  intros Hlocal Hbinary Hmod p c Hp Hc Hlen.
  rewrite len_foldl_paint in Hlen.
  pose proof (Z.div_mod (len d) 4).
  destruct (paint_pixel binaryOf d p Hlocal Hp) as [(H0 & H1 & H2) _]; [lia|].
  assert (c = 0 ∨ c = 1 ∨ c = 2) as [-> | [-> | ->]] by lia;
    [rewrite Z.add_0_r, H0 | rewrite H1 | rewrite H2]; apply Hbinary.
Qed.

Lemma binarize_blackAndWhite (img : ImageData) :
  len (data img) mod 4 = 0 →
  blackAndWhite (data (Preprocessor.binarize img)).
Proof.
  intros Hmod. unfold Preprocessor.binarize. cbn [data].
  apply (paint_blackAndWhite
           (λ d i, if _ <? Preprocessor.luma d i then 255 else 0));
    [|intros d i; destruct (_ <? _); auto|done].
  intros d1 d2 i H0 H1 H2. by rewrite (luma_local d1 d2).
Qed.

Lemma binarizeForText_blackAndWhite (img : ImageData) :
  len (data img) mod 4 = 0 →
  blackAndWhite (data (Detector.binarizeForText img)).
Proof.
  intros Hmod. unfold Detector.binarizeForText. cbn [data].
  apply (paint_blackAndWhite
           (λ d i, if Num.gtb (Detector.grayAt d i) _ then 255 else 0));
    [|intros d i; destruct (Num.gtb _ _); auto|done].
  intros d1 d2 i H0 H1 H2. by rewrite (grayAt_local d1 d2).
Qed.

(** With [binarize] on, the preprocessing steps return a black and white
    image of the size and with the alpha entries of the image they start
    from (the scaled one when [scaleUp] is on), and the later steps,
    [sharpen] and [deskew], change nothing: the result is the one with
    both switched off. *)
Theorem binarized_pipeline_is_black_and_white
    (scaleUp : ImageData → Z → ImageData) (img : ImageData)
    (options : PreprocessingOptions.t) :
  wf_image (if PreprocessingOptions.scaleUp options then scaleUp img 2
            else img) →
  PreprocessingOptions.binarize options = true →
  let start :=
    if PreprocessingOptions.scaleUp options then scaleUp img 2 else img in
  let out := Preprocessor.preprocessImage scaleUp img options in
  blackAndWhite (data out) ∧ sameShape out start
  ∧ out = Preprocessor.preprocessImage scaleUp img
            (withoutSharpening options).
Proof.
  intros (Hw & Hh & Hlen & _) Hbinarize start out. fold start in Hw, Hh, Hlen.
  unfold out, Preprocessor.preprocessImage, withoutSharpening.
  cbn [PreprocessingOptions.scaleUp PreprocessingOptions.removeNoise
       PreprocessingOptions.enhanceContrast PreprocessingOptions.removeBackground
       PreprocessingOptions.binarize PreprocessingOptions.sharpen
       PreprocessingOptions.deskew].
  fold start. rewrite Hbinarize. cbv zeta.
  set (denoised := if PreprocessingOptions.removeNoise options
                   then Preprocessor.removeNoise start else start).
  set (contrasted := if PreprocessingOptions.enhanceContrast options
                     then Preprocessor.enhanceContrast denoised
                     else denoised).
  set (cleared := if PreprocessingOptions.removeBackground options
                  then Preprocessor.removeBackground contrasted
                  else contrasted).
  assert (sameShape denoised start) as Hdenoised.
  { unfold denoised, Preprocessor.removeNoise.
    destruct (PreprocessingOptions.removeNoise options);
      [exact (rewriteInner_shape _ start Hlen) | apply sameShape_refl]. }
  assert (sameShape contrasted start) as Hcontrasted.
  { apply (sameShape_trans _ denoised); [|done]. unfold contrasted.
    destruct (PreprocessingOptions.enhanceContrast options);
      [apply mapChannels_shape | apply sameShape_refl]. }
  assert (sameShape cleared start) as Hcleared.
  { apply (sameShape_trans _ contrasted); [|done]. unfold cleared.
    destruct (PreprocessingOptions.removeBackground options);
      [apply removeBackground_shape | apply sameShape_refl]. }
  assert (blackAndWhite (data (Preprocessor.binarize cleared))) as Hbw.
  { apply binarize_blackAndWhite. destruct Hcleared as (_ & _ & -> & _).
    rewrite Hlen. replace (4 * width start * height start)
      with (width start * height start * 4) by lia.
    apply Z.mod_mul. lia. }
  assert ((if PreprocessingOptions.deskew options
           then Preprocessor.deskew
                  (if PreprocessingOptions.sharpen options
                   then Preprocessor.sharpen (Preprocessor.binarize cleared)
                   else Preprocessor.binarize cleared)
           else if PreprocessingOptions.sharpen options
                then Preprocessor.sharpen (Preprocessor.binarize cleared)
                else Preprocessor.binarize cleared)
          = Preprocessor.binarize cleared) as ->.
  { unfold Preprocessor.deskew, Preprocessor.sharpen.
    rewrite sharpenWith_black_and_white by (lia || done).
    by destruct (PreprocessingOptions.deskew options),
         (PreprocessingOptions.sharpen options). }
  split; [exact Hbw|]. split; [|reflexivity].
  apply (sameShape_trans _ cleared); [|done].
  apply (paint_shape (λ d i, if _ <? Preprocessor.luma d i then 255 else 0)).
Qed.

Lemma binarized_pipeline_is_black_and_white_witness :
  let options := Preprocessor.getDefaultOptions in
  let start := nearestNeighbour blackDot 2 in
  let out := Preprocessor.preprocessImage nearestNeighbour blackDot options in
  wf_image start ∧ PreprocessingOptions.binarize options = true
  ∧ blackAndWhite (data out) ∧ sameShape out start
  ∧ out = Preprocessor.preprocessImage nearestNeighbour blackDot
            (withoutSharpening options).
Proof.
  intros options start out.
  assert (wf_image start) as Hwf
    by (apply wf_image_intro; reflexivity).
  assert (PreprocessingOptions.binarize options = true) as Hbinarize
    by reflexivity.
  split; [exact Hwf|]. split; [exact Hbinarize|].
  exact (binarized_pipeline_is_black_and_white nearestNeighbour blackDot
           options Hwf Hbinarize).
Defined.

(** [enhanceTextRegion] returns a black and white image of the size and
    with the alpha entries of its input. *)
Theorem enhanced_region_is_black_and_white (img : ImageData) :
  wf_image img →
  blackAndWhite (data (Detector.enhanceTextRegion img))
  ∧ sameShape (Detector.enhanceTextRegion img) img.
Proof.
  intros (Hw & Hh & Hlen & _). unfold Detector.enhanceTextRegion. cbv zeta.
  set (contrasted := Detector.increaseContrast img (Num.ofZ 2)).
  set (gray := Detector.removeColorNoise contrasted).
  set (sharp := Detector.sharpenText gray).
  assert (sameShape contrasted img) as Hcontrasted
    by apply mapChannels_shape.
  assert (sameShape gray img) as Hgray.
  { apply (sameShape_trans _ contrasted); [|done].
    apply (paint_shape (λ d i, clampByte (Preprocessor.luma d i))). }
  assert (sameShape sharp img) as Hsharp.
  { apply (sameShape_trans _ gray); [|done].
    unfold sharp, Detector.sharpenText, sharpenWith.
    refine (rewriteInner_shape _ gray _).
    destruct Hgray as (-> & -> & -> & _). done. }
  split.
  - apply binarizeForText_blackAndWhite.
    destruct Hsharp as (_ & _ & -> & _). rewrite Hlen.
    replace (4 * width img * height img)
      with (width img * height img * 4) by lia.
    apply Z.mod_mul. lia.
  - apply (sameShape_trans _ sharp); [|done].
    apply (paint_shape
             (λ d i, if Num.gtb (Detector.grayAt d i) _ then 255 else 0)).
Qed.

Lemma enhanced_region_is_black_and_white_witness :
  wf_image blackDot
  ∧ blackAndWhite (data (Detector.enhanceTextRegion blackDot))
  ∧ sameShape (Detector.enhanceTextRegion blackDot) blackDot.
Proof.
  split; [exact blackDot_wf|].
  exact (enhanced_region_is_black_and_white blackDot blackDot_wf).
Defined.

Lemma contrastEntry_white :
  Preprocessor.contrastEntry (Num.dec 18 10) 255 = 255.
Proof. reflexivity. Qed.

(** [createGlobalEnhancedImage] returns an image of the size and with the
    alpha entries of its input, whose color entries are among 0, 64, 128,
    192 and 255; for an input of one color it is white. *)
Theorem global_image_has_five_levels (img : ImageData) (p c : Z) :
  wf_image img → 0 ≤ p < width img * height img → 0 ≤ c ≤ 2 →
  let out := Detector.createGlobalEnhancedImage img in
  sameShape out img
  ∧ In (get (data out) (4 * p + c)) [0; 64; 128; 192; 255]
  ∧ ∀ r0 g0 b0, uniformColor img r0 g0 b0 → get (data out) (4 * p + c) = 255.
Proof.
  intros Hwf Hp Hc out.
  pose proof Hwf as (Hw & Hh & Hlen & Hbytes).
  unfold out, Detector.createGlobalEnhancedImage. cbv zeta.
  set (cleared := Detector.removeComplexBackground img).
  set (contrasted := Detector.enhanceTextContrast cleared).
  destruct (removeComplexBackground_pixel img p c Hlen Hp Hc)
    as (Hsize & _ & _).
  assert (sameShape cleared img) as Hcleared.
  { split; [done|]. split; [done|]. split; [done|]. intros q Hq Hin.
    destruct (removeComplexBackground_pixel img q 0 Hlen) as (_ & _ & Halpha);
      [lia | lia | done]. }
  assert (sameShape contrasted img) as Hcontrasted.
  { apply (sameShape_trans _ cleared); [|done]. apply mapChannels_shape. }
  destruct (mapChannels_loop Detector.quantize64 (data contrasted))
    as (_ & Hreduced & _).
  destruct (mapChannels_loop (Preprocessor.contrastEntry (Num.dec 18 10))
              (data cleared)) as (_ & Hentry & _).
  assert (4 * p + c < len (data contrasted)) as Hin
    by (destruct Hcontrasted as (_ & _ & -> & _); lia).
  assert (4 * p + c < len (data cleared)) as Hin'
    by (destruct Hcleared as (_ & _ & -> & _); lia).
  split; [|split].
  - apply (sameShape_trans _ contrasted); [|done]. apply mapChannels_shape.
  - unfold Detector.reduceColorComplexity. cbn [data].
    rewrite Hreduced by lia. apply quantize64_levels.
  - intros r0 g0 b0 Huniform.
    pose proof (uniform_whitened img r0 g0 b0 p Hwf Huniform Hp) as Hwhite.
    unfold Detector.reduceColorComplexity. cbn [data].
    rewrite Hreduced by lia.
    unfold contrasted, Detector.enhanceTextContrast,
      Detector.increaseContrast. cbn [data].
    rewrite Hentry by lia. fold cleared in Hwhite.
    rewrite (Hwhite c Hc), contrastEntry_white. reflexivity.
Qed.

Lemma global_image_has_five_levels_witness :
  let out := Detector.createGlobalEnhancedImage orangeCard in
  wf_image orangeCard ∧ 0 ≤ 77 < width orangeCard * height orangeCard
  ∧ 0 ≤ 1 ≤ 2
  ∧ sameShape out orangeCard
  ∧ In (get (data out) (4 * 77 + 1)) [0; 64; 128; 192; 255]
  ∧ get (data out) (4 * 77 + 1) = 255.
Proof.
  intros out.
  assert (0 ≤ 77 < width orangeCard * height orangeCard) as Hp
    by (vm_compute; intuition discriminate).
  assert (0 ≤ 1 ≤ 2) as Hc by lia.
  split; [exact orangeCard_wf|]. split; [exact Hp|]. split; [exact Hc|].
  destruct (global_image_has_five_levels orangeCard 77 1 orangeCard_wf Hp Hc)
    as (Hshape & Hlevel & Hwhite).
  split; [exact Hshape|]. split; [exact Hlevel|].
  exact (Hwhite 200 120 40 orangeCard_uniform).
Defined.

(** * Language detection *)

Lemma Forall_insertByConfidence (P : Language.DetectedLanguage → Prop)
    (e : Language.DetectedLanguage) (sorted : list Language.DetectedLanguage) :
  P e → Forall P sorted → Forall P (Language.insertByConfidence e sorted).
Proof.
  intros He. induction sorted as [|e' sorted IH]; intros Hall; simpl.
  - by apply Forall_cons_2.
  - apply list.Forall_cons in Hall as [He' Hall].
    destruct (Num.ltb _ _).
    + apply Forall_cons_2; [done|]. by apply Forall_cons_2.
    + apply Forall_cons_2; [done|]. by apply IH.
Qed.

Lemma Forall_sortByConfidence (P : Language.DetectedLanguage → Prop)
    (results : list Language.DetectedLanguage) :
  Forall P results → Forall P (Language.sortByConfidence results).
Proof.
  unfold Language.sortByConfidence.
  assert (∀ sorted, Forall P sorted → Forall P results →
            Forall P (foldl (λ sorted e, Language.insertByConfidence e sorted)
                            sorted results)) as Hgen.
  { induction results as [|e results IH]; intros sorted Hsorted Hall; simpl;
      [done|].
    apply list.Forall_cons in Hall as [He Hall].
    apply IH; [|done]. by apply Forall_insertByConfidence. }
  intros Hall. apply Hgen; [apply Forall_nil_2 | done].
Qed.

Lemma length_insertByConfidence (e : Language.DetectedLanguage)
    (sorted : list Language.DetectedLanguage) :
  length (Language.insertByConfidence e sorted) = S (length sorted).
Proof.
  induction sorted as [|e' sorted IH]; simpl; [done|].
  destruct (Num.ltb _ _); simpl; [done|]. by rewrite IH.
Qed.

(** The results in the order of their confidence, highest first. *)
Lemma insertByConfidence_sorted (e : Language.DetectedLanguage)
    (sorted : list Language.DetectedLanguage) :
  Sorted.StronglySorted
    (λ a b, (Language.confidence b <= Language.confidence a)%Qc) sorted →
  Sorted.StronglySorted
    (λ a b, (Language.confidence b <= Language.confidence a)%Qc)
    (Language.insertByConfidence e sorted).
Proof.
  induction sorted as [|e' sorted IH]; intros Hsorted; simpl.
  - constructor; [constructor | apply Forall_nil_2].
  - apply Sorted.StronglySorted_inv in Hsorted as [Hrest Hhead].
    destruct (Num.ltb _ _) eqn:Hlt.
    + apply ltb_spec in Hlt.
      constructor; [by constructor|].
      apply Forall_cons_2; [by apply Qclt_le_weak|].
      apply list.Forall_forall. intros b Hb.
      pose proof (proj1 (list.Forall_forall _ _) Hhead b Hb) as Hle.
      simpl in Hle. eapply Qcle_trans; [exact Hle|]. by apply Qclt_le_weak.
    + constructor; [by apply IH|].
      apply Forall_insertByConfidence; [|done].
      apply Qcnot_lt_le. intros Hlt'. apply ltb_spec in Hlt'. congruence.
Qed.

Lemma sortByConfidence_sorted (results : list Language.DetectedLanguage) :
  Sorted.StronglySorted
    (λ a b, (Language.confidence b <= Language.confidence a)%Qc)
    (Language.sortByConfidence results).
Proof.
  unfold Language.sortByConfidence.
  assert (∀ sorted,
            Sorted.StronglySorted
              (λ a b, (Language.confidence b <= Language.confidence a)%Qc)
              sorted →
            Sorted.StronglySorted
              (λ a b, (Language.confidence b <= Language.confidence a)%Qc)
              (foldl (λ sorted e, Language.insertByConfidence e sorted)
                     sorted results)) as Hgen.
  { induction results as [|e results IH]; intros sorted Hsorted; simpl;
      [done|].
    apply IH. by apply insertByConfidence_sorted. }
  apply Hgen. constructor.
Qed.

Lemma StronglySorted_take {A : Type} (R : A → A → Prop) (n : nat)
    (l : list A) :
  Sorted.StronglySorted R l → Sorted.StronglySorted R (take n l).
Proof.
  revert n. induction l as [|a l IH]; intros n Hsorted.
  - destruct n; constructor.
  - destruct n; [constructor|]. simpl.
    apply Sorted.StronglySorted_inv in Hsorted as [Hrest Hhead].
    constructor; [by apply IH|].
    apply list.Forall_forall. intros b Hb.
    apply (proj1 (list.Forall_forall _ _) Hhead).
    by apply elem_of_take in Hb as (i & Hb & _); eapply list_elem_of_lookup_2.
Qed.

Lemma countMatches_range (pattern : Z → bool) (text : list Z) :
  0 ≤ Language.countMatches pattern text ≤ len text.
Proof.
  unfold Language.countMatches, len. pose proof (filter_length_le pattern text).
  lia.
Qed.

Lemma countMatches_all (pattern : Z → bool) (text : list Z) :
  Forall (λ u, pattern u = true) text →
  Language.countMatches pattern text = len text.
Proof.
  unfold Language.countMatches. intros Hall. f_equal.
  induction Hall as [|u text Hu Hall IH]; simpl; [done|].
  by rewrite Hu, IH.
Qed.

Lemma countMatches_none (pattern : Z → bool) (text : list Z) :
  Forall (λ u, pattern u = false) text →
  Language.countMatches pattern text = 0.
Proof.
  unfold Language.countMatches. intros Hall.
  assert (List.filter pattern text = []) as ->; [|done].
  induction Hall as [|u text Hu Hall IH]; simpl; [done|].
  by rewrite Hu.
Qed.

Lemma ofZ_div_range (m t : Z) :
  0 ≤ m ≤ t → 0 < t → (0 <= Num.ofZ m / Num.ofZ t)%Qc
                      ∧ (Num.ofZ m / Num.ofZ t <= 1)%Qc.
Proof.
  intros Hm Ht.
  unfold Qcle, Num.ofZ, Qcdiv, Qcmult, Qcinv, Q2Qc. cbn [this].
  rewrite !Qred_correct.
  assert (0 < inject_Z t)%Q as Hpos by (unfold Qlt; simpl; lia).
  assert (0 <= inject_Z m)%Q as Hm0 by (unfold Qle; simpl; lia).
  assert (inject_Z m <= inject_Z t)%Q as Hmt by (unfold Qle; simpl; lia).
  split.
  - apply Qle_shift_div_l; [done|]. by rewrite Qmult_0_l.
  - apply Qle_shift_div_r; [done|]. by rewrite Qmult_1_l.
Qed.

Lemma ofZ_div_self (t : Z) : 0 < t → (Num.ofZ t / Num.ofZ t)%Qc = 1%Qc.
Proof.
  intros Ht. unfold Qcdiv. apply Qcmult_inv_r.
  intros Heq. apply (ofZ_inj t 0) in Heq. lia.
Qed.

Lemma ofZ_div_zero (t : Z) : (Num.ofZ 0 / Num.ofZ t)%Qc = 0%Qc.
Proof. unfold Qcdiv. apply Qcmult_0_l. Qed.

Lemma len_pos (text : list Z) : (len text =? 0) = false → 0 < len text.
Proof. unfold len. lia. Qed.

(** The results before sorting: the supported languages of a confidence
    above 0.05, in the order of the list. *)
Lemma results_spec (text : list Z) :
  foldl (λ results lang,
           let confidence := Language.confidenceOf text lang in
           if Num.gtb confidence (Num.dec 5 100)
           then results
                ++ [Language.mkDetected (Language.lcode lang)
                      (Language.lname lang) confidence (Language.lflag lang)]
           else results)
        [] Language.SUPPORTED_LANGUAGES
  = omap (λ lang,
            if Num.gtb (Language.confidenceOf text lang) (Num.dec 5 100)
            then Some (Language.mkDetected (Language.lcode lang)
                         (Language.lname lang)
                         (Language.confidenceOf text lang)
                         (Language.lflag lang))
            else None)
         Language.SUPPORTED_LANGUAGES.
Proof.
  rewrite <- (app_nil_l (omap _ _)), <- foldl_push.
  apply foldl_ext_in. intros acc lang _. cbv zeta.
  by destruct (Num.gtb _ _).
Qed.

Lemma confidenceOf_range (text : list Z) (lang : Language.Language) :
  0 < len text → lang ∈ Language.SUPPORTED_LANGUAGES →
  (0 <= Language.confidenceOf text lang)%Qc
  ∧ (Language.confidenceOf text lang <= 1)%Qc.
Proof.
  intros Hlen Hin.
  assert (∃ pattern, Language.patterns lang = [pattern]) as [pattern Hp].
  { unfold Language.SUPPORTED_LANGUAGES in Hin.
    repeat (apply elem_of_cons in Hin as [->|Hin]; [by eexists|]).
    by apply elem_of_nil in Hin. }
  unfold Language.confidenceOf. rewrite Hp. cbn [foldl].
  pose proof (countMatches_range pattern text).
  apply ofZ_div_range; lia.
Qed.

(** [detectLanguageFromText] always returns between one and six results,
    in the order of their confidence, highest first, each of a confidence
    above 0.05 and at most 1. *)
Theorem detected_languages_are_ranked (text : list Z) :
  let out := Language.detectLanguageFromText text in
  (1 ≤ length out ≤ 6)%nat
  ∧ Sorted.StronglySorted
      (λ a b, (Language.confidence b <= Language.confidence a)%Qc) out
  ∧ Forall (λ r, (Num.dec 5 100 < Language.confidence r)%Qc
                 ∧ (Language.confidence r <= 1)%Qc) out.
Proof.
  intros out. unfold out, Language.detectLanguageFromText. cbv zeta.
  destruct (len text =? 0) eqn:Hempty.
  { split; [simpl; lia|]. split.
    - constructor; [constructor | apply Forall_nil_2].
    - apply Forall_cons_2; [|apply Forall_nil_2]. split; [done|].
      apply Qcle_refl. }
  apply len_pos in Hempty. rewrite results_spec.
  set (results := omap _ Language.SUPPORTED_LANGUAGES).
  assert (Forall (λ r, (Num.dec 5 100 < Language.confidence r)%Qc
                       ∧ (Language.confidence r <= 1)%Qc) results) as Hall.
  { apply list.Forall_forall. intros r Hr.
    apply list_elem_of_omap in Hr as (lang & Hlang & Hr).
    destruct (Num.gtb _ _) eqn:Hgt; [|discriminate].
    injection Hr as <-. cbn [Language.confidence]. apply gtb_spec in Hgt.
    split; [done|]. by apply confidenceOf_range. }
  apply Forall_sortByConfidence in Hall.
  pose proof (sortByConfidence_sorted results) as Hsorted.
  destruct (Language.sortByConfidence results) as [|first rest] eqn:Hres.
  { split; [simpl; lia|]. split.
    - constructor; [constructor; [constructor | apply Forall_nil_2]|].
      apply Forall_cons_2; [done | apply Forall_nil_2].
    - apply Forall_cons_2; [split; done|].
      apply Forall_cons_2; [split; done | apply Forall_nil_2]. }
  assert (∀ l : list Language.DetectedLanguage,
            l ≠ [] → (1 ≤ length (take 6 l) ≤ 6)%nat) as Hsize.
  { intros l Hl. rewrite length_take. destruct l; [done|].
    cbn [length]. lia. }
  destruct (Num.ltb _ _) eqn:Hlow.
  - apply ltb_spec in Hlow. destruct (existsb _ _).
    + split; [by apply Hsize|]. split; [by apply StronglySorted_take|].
      by apply Forall_take.
    + split; [by apply Hsize|]. split.
      * apply StronglySorted_take. constructor; [done|].
        apply Sorted.StronglySorted_inv in Hsorted as [_ Hhead].
        assert (Language.confidence first <= Language.confidence
                  Language.chineseDefault)%Qc as Hfirst.
        { apply Qclt_le_weak. eapply Qclt_trans; [exact Hlow | done]. }
        apply Forall_cons_2; [done|].
        apply list.Forall_forall. intros b Hb.
        pose proof (proj1 (list.Forall_forall _ _) Hhead b Hb) as Hle.
        simpl in Hle. by eapply Qcle_trans.
      * apply Forall_take. apply Forall_cons_2; [split; done | done].
  - split; [by apply Hsize|]. split; [by apply StronglySorted_take|].
    by apply Forall_take.
Qed.

Lemma gtb_one : Num.gtb 1 (Num.dec 5 100) = true.
Proof. reflexivity. Qed.

Lemma gtb_zero : Num.gtb 0 (Num.dec 5 100) = false.
Proof. reflexivity. Qed.

Lemma vietnamese_below (u : Z) : Language.vietnamese u = true → u < 0x2000.
Proof.
  unfold Language.vietnamese. intros Hin.
  apply existsb_exists in Hin as (v & Hv & Heq). apply Z.eqb_eq in Heq as <-.
  assert (forallb (λ v, v <? 0x2000) Language.vietnameseLetters = true)
    as Hall by reflexivity.
  rewrite forallb_forall in Hall. specialize (Hall u Hv). lia.
Qed.

(** A CJK ideograph is in the class of [japanese] and in no other class
    but that of [chinese]. *)
Lemma chinese_classes (u : Z) :
  Language.chinese u = true →
  Language.japanese u = true ∧ Language.korean u = false
  ∧ Language.cyrillic u = false ∧ Language.latin u = false
  ∧ Language.arabic u = false ∧ Language.thai u = false
  ∧ Language.vietnamese u = false.
Proof.
  intros Hu.
  assert (0x4e00 ≤ u ≤ 0x9fff) as Hrange.
  { unfold Language.chinese, Language.between in Hu. lia. }
  split; [unfold Language.japanese, Language.between; lia|].
  split; [unfold Language.korean, Language.between; lia|].
  split; [unfold Language.cyrillic, Language.between; lia|].
  split; [unfold Language.latin, Language.between; lia|].
  split; [unfold Language.arabic, Language.between; lia|].
  split; [unfold Language.thai, Language.between; lia|].
  destruct (Language.vietnamese u) eqn:Hv; [|done].
  apply vietnamese_below in Hv. lia.
Qed.

(** A text of CJK ideographs is given to both Chinese variants and to
    Japanese, each with confidence 1 and in this order, and to no other
    language. *)
Theorem ideographs_are_chinese_and_japanese (text : list Z) :
  text ≠ [] → Forall (λ u, Language.chinese u = true) text →
  Language.detectLanguageFromText text
  = [ Language.mkDetected "chi_sim" "Chinese (Simplified)" 1 "🇨🇳";
      Language.mkDetected "chi_tra" "Chinese (Traditional)" 1 "🇹🇼";
      Language.mkDetected "jpn" "Japanese" 1 "🇯🇵" ].
Proof.
  intros Hne Hall.
  assert (0 < len text) as Hlen by (unfold len; destruct text; [done | simpl; lia]).
  assert (∀ pattern : Z → bool,
            (∀ u, Language.chinese u = true → pattern u = true) →
            Language.countMatches pattern text = len text) as Hyes.
  { intros pattern Hp. apply countMatches_all.
    eapply list.Forall_impl; [exact Hall|]. exact Hp. }
  assert (∀ pattern : Z → bool,
            (∀ u, Language.chinese u = true → pattern u = false) →
            Language.countMatches pattern text = 0) as Hno.
  { intros pattern Hp. apply countMatches_none.
    eapply list.Forall_impl; [exact Hall|]. exact Hp. }
  unfold Language.detectLanguageFromText. cbv zeta.
  destruct (Z.eqb_spec (len text) 0) as [Hzero|_]; [lia|].
  rewrite results_spec. unfold Language.SUPPORTED_LANGUAGES.
  cbn [omap list_omap Language.lcode Language.lname Language.lflag].
  unfold Language.confidenceOf. cbn [foldl Language.patterns Z.add].
  rewrite (Hyes Language.chinese) by done.
  rewrite (Hyes Language.japanese) by (intros u Hu; apply chinese_classes, Hu).
  rewrite (Hno Language.korean) by (intros u Hu; apply chinese_classes, Hu).
  rewrite (Hno Language.cyrillic) by (intros u Hu; apply chinese_classes, Hu).
  rewrite (Hno Language.latin) by (intros u Hu; apply chinese_classes, Hu).
  rewrite (Hno Language.arabic) by (intros u Hu; apply chinese_classes, Hu).
  rewrite (Hno Language.thai) by (intros u Hu; apply chinese_classes, Hu).
  rewrite (Hno Language.vietnamese) by (intros u Hu; apply chinese_classes, Hu).
  rewrite ofZ_div_self by done. rewrite ofZ_div_zero.
  rewrite gtb_one, gtb_zero. reflexivity.
Qed.

Lemma ideographs_are_chinese_and_japanese_witness :
  let text := [0x4e2d; 0x6587] in
  text ≠ [] ∧ Forall (λ u, Language.chinese u = true) text
  ∧ Language.detectLanguageFromText text
    = [ Language.mkDetected "chi_sim" "Chinese (Simplified)" 1 "🇨🇳";
        Language.mkDetected "chi_tra" "Chinese (Traditional)" 1 "🇹🇼";
        Language.mkDetected "jpn" "Japanese" 1 "🇯🇵" ].
Proof.
  intros text.
  assert (text ≠ []) as Hne by discriminate.
  assert (Forall (λ u, Language.chinese u = true) text) as Hall
    by (repeat constructor).
  split; [exact Hne|]. split; [exact Hall|].
  exact (ideographs_are_chinese_and_japanese text Hne Hall).
Defined.

(** The empty text is given to simplified Chinese with confidence 1.  A
    text of characters that are in none of the classes - digits, or capital
    Vietnamese letters, since the [vietnamese] class is used without its
    flag [i] - is given the two defaults: simplified Chinese at 0.8 and
    English at 0.6. *)
Theorem unmatched_text_gets_defaults (text : list Z) :
  Forall (λ u, inNoClass u = true) text →
  Language.detectLanguageFromText text
  = match text with
    | [] => [Language.mkDetected "chi_sim" "Chinese (Simplified)" 1 "🇨🇳"]
    | _ => [Language.chineseDefault; Language.englishFallback]
    end.
Proof.
  intros Hall. destruct text as [|u0 rest] eqn:Htext; [reflexivity|].
  assert (0 < len text) as Hlen by (rewrite Htext; unfold len; simpl; lia).
  rewrite <- Htext in *. clear Htext.
  assert (∀ pattern : Z → bool,
            (∀ u, inNoClass u = true → pattern u = false) →
            Language.countMatches pattern text = 0) as Hno.
  { intros pattern Hp. apply countMatches_none.
    eapply list.Forall_impl; [exact Hall|]. exact Hp. }
  unfold Language.detectLanguageFromText. cbv zeta.
  destruct (Z.eqb_spec (len text) 0) as [Hzero|_]; [lia|].
  rewrite results_spec. unfold Language.SUPPORTED_LANGUAGES.
  cbn [omap list_omap Language.lcode Language.lname Language.lflag].
  unfold Language.confidenceOf. cbn [foldl Language.patterns Z.add].
  rewrite (Hno Language.chinese), (Hno Language.latin),
    (Hno Language.japanese), (Hno Language.korean),
    (Hno Language.cyrillic), (Hno Language.arabic), (Hno Language.thai),
    (Hno Language.vietnamese);
    try (intros u Hu; unfold inNoClass in Hu;
         apply negb_true_iff in Hu; rewrite !orb_false_iff in Hu; tauto).
  rewrite ofZ_div_zero, gtb_zero. reflexivity.
Qed.

Lemma unmatched_text_gets_defaults_witness :
  let text := [0x0110; 0x1ea0] in
  Forall (λ u, inNoClass u = true) text
  ∧ Language.vietnamese 0x0111 = true ∧ Language.vietnamese 0x1ea1 = true
  ∧ Language.detectLanguageFromText text
    = [Language.chineseDefault; Language.englishFallback].
Proof.
  intros text.
  assert (Forall (λ u, inNoClass u = true) text) as Hall
    by (repeat constructor).
  split; [exact Hall|]. split; [reflexivity|]. split; [reflexivity|].
  exact (unmatched_text_gets_defaults text Hall).
Defined.
